(** * Motor rig firmware: command framing, pulse generation, limit handler
      and joystick fallback

    Shallow embedding of
    [Motor_Controller_Byte_Version_With_Limits_Reset_Button_Remote.ino].

    The sketch keeps its session state in global variables and talks to the
    board through [Serial], [digitalWrite], [digitalRead] and [analogRead].
    Here the globals and the board are one record that every function takes
    and returns; everything the firmware drives (pin writes, serial frames)
    is appended to a trace.  Blocking delays ([delay], [delayMicroseconds])
    change no state and are left out.

    The limit handler is an interrupt service routine.  It is modelled as
    preempting the main path at the instruction boundaries of a running
    pulse burst, under a schedule that is part of the board; while it runs,
    further requests are masked.  [loop] follows the design assumption that
    the interrupt fires only while a burst is in progress: the switch is
    tripped by a moving carriage, and a carriage only moves during a burst.
    [loop_anywhere] drops that assumption and lets the handler be served
    between the statements of the control loop as well. *)

From Stdlib Require Import ZArith List Bool Lia.
From Stdlib Require Import Strings.Byte.
Import ListNotations.
Open Scope Z_scope.

(** ** Pins and framing bytes (lines 2-15) *)

Definition HIGH : bool := true.
Definition LOW : bool := false.

Definition xpulpluspin : Z := 4.
Definition ypulpluspin : Z := 5.
Definition zpulpluspin : Z := 6.
Definition dirpluspin : Z := 7.
Definition limitpin : Z := 3.

Definition startbyte : byte := x07.
Definition endbyte : byte := x0a.

(** Value of a [byte] as the integer the C expressions promote it to. *)
Definition byte_val (b : byte) : Z := Z.of_N (Byte.to_N b).

(** Truncation to [unsigned long] (32 bits on the target). *)
Definition u32 (z : Z) : Z := z mod 2 ^ 32.

(** ** What the firmware does to the outside world *)

Inductive Event : Type :=
| DigitalWrite (pin : Z) (level : bool)
| SerialWrite (frame : list byte).

(** ** Globals (lines 18-31) and board

    [rx] holds the bytes of the serial receive stream in arrival order.
    [limit_in] lists the successive samples [digitalRead(limitpin)] will
    return; once it is used up the pin reads LOW.  [irq] is the interrupt
    line seen from the main path: one entry is consumed at every point where
    the handler may preempt a pulse burst, [true] meaning that it does.
    [lr_in] and [ud_in] are the two joystick channels as functions of the
    number of conversions made so far ([adc_reads]). *)

Record State : Type := mkState {
  posorneg : Z;
  xyorz : Z;
  keeppulsing : bool;
  limithit : bool;
  gotcommand : bool;
  remoteinuse : bool;
  remoteinuselast : bool;
  remoteused : bool;
  checkremoteused : bool;
  lrvalue : Z;
  udvalue : Z;
  rx : list byte;
  limit_in : list bool;
  irq : list bool;
  lr_in : nat -> Z;
  ud_in : nat -> Z;
  adc_reads : nat;
  trace : list Event
}.

Definition set_posorneg (v : Z) (s : State) : State :=
  mkState v (xyorz s) (keeppulsing s) (limithit s) (gotcommand s)
    (remoteinuse s) (remoteinuselast s) (remoteused s) (checkremoteused s)
    (lrvalue s) (udvalue s) (rx s) (limit_in s) (irq s) (lr_in s) (ud_in s)
    (adc_reads s) (trace s).

Definition set_xyorz (v : Z) (s : State) : State :=
  mkState (posorneg s) v (keeppulsing s) (limithit s) (gotcommand s)
    (remoteinuse s) (remoteinuselast s) (remoteused s) (checkremoteused s)
    (lrvalue s) (udvalue s) (rx s) (limit_in s) (irq s) (lr_in s) (ud_in s)
    (adc_reads s) (trace s).

Definition set_keeppulsing (v : bool) (s : State) : State :=
  mkState (posorneg s) (xyorz s) v (limithit s) (gotcommand s) (remoteinuse s)
    (remoteinuselast s) (remoteused s) (checkremoteused s) (lrvalue s)
    (udvalue s) (rx s) (limit_in s) (irq s) (lr_in s) (ud_in s) (adc_reads s)
    (trace s).

Definition set_limithit (v : bool) (s : State) : State :=
  mkState (posorneg s) (xyorz s) (keeppulsing s) v (gotcommand s)
    (remoteinuse s) (remoteinuselast s) (remoteused s) (checkremoteused s)
    (lrvalue s) (udvalue s) (rx s) (limit_in s) (irq s) (lr_in s) (ud_in s)
    (adc_reads s) (trace s).

Definition set_gotcommand (v : bool) (s : State) : State :=
  mkState (posorneg s) (xyorz s) (keeppulsing s) (limithit s) v
    (remoteinuse s) (remoteinuselast s) (remoteused s) (checkremoteused s)
    (lrvalue s) (udvalue s) (rx s) (limit_in s) (irq s) (lr_in s) (ud_in s)
    (adc_reads s) (trace s).

Definition set_remoteinuse (v : bool) (s : State) : State :=
  mkState (posorneg s) (xyorz s) (keeppulsing s) (limithit s) (gotcommand s) v
    (remoteinuselast s) (remoteused s) (checkremoteused s) (lrvalue s)
    (udvalue s) (rx s) (limit_in s) (irq s) (lr_in s) (ud_in s) (adc_reads s)
    (trace s).

Definition set_remoteinuselast (v : bool) (s : State) : State :=
  mkState (posorneg s) (xyorz s) (keeppulsing s) (limithit s) (gotcommand s)
    (remoteinuse s) v (remoteused s) (checkremoteused s) (lrvalue s)
    (udvalue s) (rx s) (limit_in s) (irq s) (lr_in s) (ud_in s) (adc_reads s)
    (trace s).

Definition set_remoteused (v : bool) (s : State) : State :=
  mkState (posorneg s) (xyorz s) (keeppulsing s) (limithit s) (gotcommand s)
    (remoteinuse s) (remoteinuselast s) v (checkremoteused s) (lrvalue s)
    (udvalue s) (rx s) (limit_in s) (irq s) (lr_in s) (ud_in s) (adc_reads s)
    (trace s).

Definition set_checkremoteused (v : bool) (s : State) : State :=
  mkState (posorneg s) (xyorz s) (keeppulsing s) (limithit s) (gotcommand s)
    (remoteinuse s) (remoteinuselast s) (remoteused s) v (lrvalue s)
    (udvalue s) (rx s) (limit_in s) (irq s) (lr_in s) (ud_in s) (adc_reads s)
    (trace s).

Definition set_lrvalue (v : Z) (s : State) : State :=
  mkState (posorneg s) (xyorz s) (keeppulsing s) (limithit s) (gotcommand s)
    (remoteinuse s) (remoteinuselast s) (remoteused s) (checkremoteused s) v
    (udvalue s) (rx s) (limit_in s) (irq s) (lr_in s) (ud_in s) (adc_reads s)
    (trace s).

Definition set_udvalue (v : Z) (s : State) : State :=
  mkState (posorneg s) (xyorz s) (keeppulsing s) (limithit s) (gotcommand s)
    (remoteinuse s) (remoteinuselast s) (remoteused s) (checkremoteused s)
    (lrvalue s) v (rx s) (limit_in s) (irq s) (lr_in s) (ud_in s)
    (adc_reads s) (trace s).

Definition set_rx (v : list byte) (s : State) : State :=
  mkState (posorneg s) (xyorz s) (keeppulsing s) (limithit s) (gotcommand s)
    (remoteinuse s) (remoteinuselast s) (remoteused s) (checkremoteused s)
    (lrvalue s) (udvalue s) v (limit_in s) (irq s) (lr_in s) (ud_in s)
    (adc_reads s) (trace s).

Definition set_limit_in (v : list bool) (s : State) : State :=
  mkState (posorneg s) (xyorz s) (keeppulsing s) (limithit s) (gotcommand s)
    (remoteinuse s) (remoteinuselast s) (remoteused s) (checkremoteused s)
    (lrvalue s) (udvalue s) (rx s) v (irq s) (lr_in s) (ud_in s) (adc_reads s)
    (trace s).

Definition set_irq (v : list bool) (s : State) : State :=
  mkState (posorneg s) (xyorz s) (keeppulsing s) (limithit s) (gotcommand s)
    (remoteinuse s) (remoteinuselast s) (remoteused s) (checkremoteused s)
    (lrvalue s) (udvalue s) (rx s) (limit_in s) v (lr_in s) (ud_in s)
    (adc_reads s) (trace s).

Definition set_adc_reads (v : nat) (s : State) : State :=
  mkState (posorneg s) (xyorz s) (keeppulsing s) (limithit s) (gotcommand s)
    (remoteinuse s) (remoteinuselast s) (remoteused s) (checkremoteused s)
    (lrvalue s) (udvalue s) (rx s) (limit_in s) (irq s) (lr_in s) (ud_in s) v
    (trace s).

Definition set_trace (v : list Event) (s : State) : State :=
  mkState (posorneg s) (xyorz s) (keeppulsing s) (limithit s) (gotcommand s)
    (remoteinuse s) (remoteinuselast s) (remoteused s) (checkremoteused s)
    (lrvalue s) (udvalue s) (rx s) (limit_in s) (irq s) (lr_in s) (ud_in s)
    (adc_reads s) v.

(** ** Board primitives *)

Definition emit (e : Event) (s : State) : State :=
  set_trace (trace s ++ [e]) s.

Definition digitalWrite (pin : Z) (level : bool) (s : State) : State :=
  emit (DigitalWrite pin level) s.

Definition Serial_write (frame : list byte) (s : State) : State :=
  emit (SerialWrite frame) s.

(** [digitalRead(limitpin)]: the next sample of the limit input. *)
Definition digitalRead_limit (s : State) : bool * State :=
  match limit_in s with
  | [] => (LOW, s)
  | level :: later => (level, set_limit_in later s)
  end.

(** [Serial.available()] and [Serial.read()] on the receive stream. *)
Definition Serial_available (s : State) : Z := Z.of_nat (length (rx s)).

Definition Serial_read (s : State) : Z * State :=
  match rx s with
  | [] => (-1, s)
  | b :: later => (byte_val b, set_rx later s)
  end.

(** [analogRead]: the 10-bit conversion result of a joystick channel. *)
Definition analogRead (channel : nat -> Z) (s : State) : Z * State :=
  (channel (adc_reads s) mod 1024, set_adc_reads (S (adc_reads s)) s).

(** [Serial.readBytes(buffer, n)]: stores the bytes that arrive in time at
    the front of [buffer]; cells it does not reach keep their content. *)
Definition Serial_readBytes (n : nat) (buffer : list byte) (s : State)
  : list byte * State :=
  let got := firstn n (rx s) in
  (got ++ skipn (length got) buffer, set_rx (skipn n (rx s)) s).

(** Lines 92-99. *)
Definition directionnegative (s : State) : State :=
  digitalWrite dirpluspin HIGH s.

Definition directionpositive (s : State) : State :=
  digitalWrite dirpluspin LOW s.

(** ** Pulse generator (lines 73-89)

    [isr] is the handler attached to the limit line, [None] while interrupts
    are masked (inside the handler itself).  The main path can be preempted
    before the loop condition is evaluated, after it, and between the HIGH
    and the LOW write of a pulse; at each of these points [preempt] consumes
    one entry of [irq]. *)

Section Interruptible.

Variable isr : option (State -> State).

Definition preempt (s : State) : State :=
  match isr with
  | None => s
  | Some handler =>
      match irq s with
      | [] => s
      | fire :: later =>
          let s := set_irq later s in
          if fire then handler s else s
      end
  end.

(** The [while] loop of [pulse]; [n] is [pulses - i]. *)
Fixpoint pulse_loop (n : nat) (pin : Z) (s : State) : State :=
  let s := preempt s in
  match n with
  | O => s
  | S n' =>
      if keeppulsing s then
        let s := preempt s in
        let s := digitalWrite pin HIGH s in
        let s := preempt s in
        let s := digitalWrite pin LOW s in
        pulse_loop n' pin s
      else s
  end.

Definition pulse (pulses : Z) (pin : Z) (s : State) : State :=
  set_keeppulsing true (pulse_loop (Z.to_nat pulses) pin s).

End Interruptible.

(** ** Limit handler (lines 34-70)

    The pulses the handler emits itself run with interrupts masked
    ([pulse None]). *)

(** Body of the walk-off loop, lines 52-62. *)
Definition limit_step (s : State) : State :=
  if xyorz s =? 0 then pulse None 1 xpulpluspin s
  else if xyorz s =? 1 then pulse None 1 ypulpluspin s
  else if xyorz s =? 2 then pulse None 1 zpulpluspin s
  else s.

(** [while(digitalRead(limitpin) != LOW)], line 51.  [samples] is the
    content of [limit_in] on entry; each turn takes the next sample, and
    the body does not read the pin. *)
Fixpoint limit_walk (samples : list bool) (s : State) : State :=
  match samples with
  | [] => s
  | level :: later =>
      let s := set_limit_in later s in
      if level then limit_walk later (limit_step s) else s
  end.

(** Lines 41-67: reverse, walk off the switch, flag the hit. *)
Definition limit_action (s : State) : State :=
  let s :=
    if posorneg s =? 0 then directionnegative s
    else if posorneg s =? 1 then directionpositive s
    else s in
  let s := limit_walk (limit_in s) s in
  let s := set_keeppulsing false s in
  set_limithit true s.

Definition limit (s : State) : State :=
  let '(level, s) := digitalRead_limit s in
  if level then
    if gotcommand s then limit_action s else s
  else s.

(** ** Control loop (lines 130-310) *)

(** Local [command] buffer as declared on line 150. *)
Definition no_command : list byte := repeat x00 7.

Definition cmd (command : list byte) (i : nat) : Z :=
  byte_val (nth i command x00).

(** Command decoder, lines 150-165. *)
Definition receive (s : State) : list byte * State :=
  let command := no_command in
  if (Serial_available s >? 0)
     && (negb (gotcommand s) && negb (checkremoteused s)) then
    let '(first, s) := Serial_read s in
    if first =? byte_val startbyte then
      let '(command, s) := Serial_readBytes 7 command s in
      if cmd command 6 =? byte_val endbyte then
        if Z.land (cmd command 0) 1 =? 1
        then (command, set_checkremoteused true s)
        else (command, set_gotcommand true s)
      else (command, s)
    else (command, s)
  else (command, s).

(** Remote-used reply, lines 168-191. *)
Definition remote_reply (s : State) : State :=
  let used := if remoteused s then x01 else x00 in
  let s := Serial_write [startbyte; x00; used; endbyte] s in
  let s := set_remoteused false s in
  set_checkremoteused false s.

(** Values the command branch extracts from the buffer. *)
Definition command_posorneg (command : list byte) : Z :=
  Z.shiftr (Z.land (cmd command 0) 32) 5 mod 256.

Definition command_gotolimit (command : list byte) : bool :=
  cmd command 1 =? 255.

Definition command_pulses (command : list byte) : Z :=
  let pulses :=
    u32 (u32 (u32 (cmd command 5 + u32 (Z.shiftl (cmd command 4) 8))
              + u32 (Z.shiftl (cmd command 3) 16))
         + u32 (Z.shiftl (cmd command 2) 24)) in
  if command_gotolimit command then 4294967295 else pulses.

Definition command_xyorz (command : list byte) : Z :=
  Z.shiftr (Z.land (cmd command 0) 192) 6 mod 256.

Section Cycle.

Variable isr : option (State -> State).

(** Command execution and response, lines 195-251. *)
Definition execute (command : list byte) (s : State) : State :=
  let s := set_posorneg (command_posorneg command) s in
  let s :=
    if posorneg s =? 0 then directionpositive s
    else if posorneg s =? 1 then directionnegative s
    else s in
  let gotolimit := command_gotolimit command in
  let pulses := command_pulses command in
  let s := set_xyorz (command_xyorz command) s in
  let s :=
    if xyorz s =? 0 then pulse isr pulses xpulpluspin s
    else if xyorz s =? 1 then pulse isr pulses ypulpluspin s
    else if xyorz s =? 2 then pulse isr pulses zpulpluspin s
    else s in
  let status := if limithit s && negb gotolimit then x0f else xf0 in
  Serial_write [startbyte; status; x00; endbyte] s.

(** Joystick fallback, lines 256-299: read the stick ... *)
Definition joystick_read (s : State) : State :=
  let s := set_gotcommand true s in
  let '(lr, s) := analogRead (lr_in s) s in
  let s := set_lrvalue lr s in
  let '(ud, s) := analogRead (ud_in s) s in
  set_udvalue ud s.

(** ... move at most one axis by one pulse ... *)
Definition joystick_move (s : State) : State :=
  if lrvalue s - 700 >? 200 then
    let s := directionnegative s in
    let s := set_posorneg 1 s in
    let s := set_xyorz 0 s in
    let s := pulse isr 1 xpulpluspin s in
    set_remoteinuse true s
  else if lrvalue s - 700 <? -400 then
    let s := directionpositive s in
    let s := set_posorneg 0 s in
    let s := set_xyorz 0 s in
    let s := pulse isr 1 xpulpluspin s in
    set_remoteinuse true s
  else if udvalue s - 700 >? 200 then
    let s := directionpositive s in
    let s := set_posorneg 0 s in
    let s := set_xyorz 1 s in
    let s := pulse isr 1 ypulpluspin s in
    set_remoteinuse true s
  else if udvalue s - 700 <? -300 then
    let s := directionnegative s in
    let s := set_posorneg 1 s in
    let s := set_xyorz 1 s in
    let s := pulse isr 1 ypulpluspin s in
    set_remoteinuse true s
  else s.

(** ... and record whether the remote was used. *)
Definition joystick_done (s : State) : State :=
  let s := if remoteinuse s then set_remoteused true s else s in
  let s := set_remoteinuselast (remoteinuse s) s in
  set_remoteinuse false s.

Definition joystick (s : State) : State :=
  joystick_done (joystick_move (joystick_read s)).

Definition cycle (s : State) : State :=
  let '(command, s) := receive s in
  let s := if checkremoteused s then remote_reply s else s in
  let s := if gotcommand s then execute command s else joystick s in
  let s := set_limithit false s in
  let s := set_gotcommand false s in
  set_checkremoteused false s.

End Cycle.

(** [setup] attaches [limit] to the limit line (line 127); [loop] is one
    pass of the control loop on the board so configured. *)
Definition loop (s : State) : State := cycle (Some limit) s.

(** Globals as initialised on lines 18-31, on a board with the given
    inputs.  [setup] configures the pins and sends the reset notice; it
    changes no global, and its writes are not kept in the trace. *)
Definition power_on (bytes : list byte) (limit_samples irqs : list bool)
    (lr ud : nat -> Z) : State :=
  mkState 0 0 true false false false false false false 700 700
    bytes limit_samples irqs lr ud O [].

Fixpoint run (cycles : nat) (s : State) : State :=
  match cycles with
  | O => s
  | S k => run k (loop s)
  end.

(** ** Start-up (lines 101-128)

    [gndpin] and [fivevoltpin] are the analog pins A2 and A3 (lines 10-11),
    whose numbers the board package defines.  [Serial.begin] and [pinMode]
    configure the board and change nothing that is kept here;
    [attachInterrupt] makes [limit] the handler every [loop] runs under. *)

Section Startup.

Variables gndpin fivevoltpin : Z.

Definition setup (s : State) : State :=
  let s := Serial_write [startbyte; xff; x00; endbyte] s in
  let s := digitalWrite gndpin LOW s in
  digitalWrite fivevoltpin HIGH s.

(** The board after power-on and [setup], about to enter [loop]. *)
Definition boot (bytes : list byte) (limit_samples irqs : list bool)
    (lr ud : nat -> Z) : State :=
  setup (power_on bytes limit_samples irqs lr ud).

End Startup.

(** ** The control loop with the handler served anywhere

    The same control loop without the assumption that the interrupt fires
    only during a burst.  The handler can now be served, under the same
    schedule [irq], before every statement of [loop] that writes a global,
    drives an output, or reads the serial line or the joystick, and before
    the test of the limit-hit flag on line 246; inside [pulse] the
    preemption points are those of [pulse_loop].  The other tests read only
    variables the handler never writes, so they come out the same before
    and after a handler run and need no point of their own.  With the
    handler detached the functions below are those of the section
    [Cycle]. *)

Section Anywhere.

Variable isr : option (State -> State).

(** Command decoder, lines 150-165. *)
Definition receive_anywhere (s : State) : list byte * State :=
  let command := no_command in
  if (Serial_available s >? 0)
     && (negb (gotcommand s) && negb (checkremoteused s)) then
    let s := preempt isr s in
    let '(first, s) := Serial_read s in
    if first =? byte_val startbyte then
      let s := preempt isr s in
      let '(command, s) := Serial_readBytes 7 command s in
      if cmd command 6 =? byte_val endbyte then
        if Z.land (cmd command 0) 1 =? 1
        then
          let s := preempt isr s in
          (command, set_checkremoteused true s)
        else
          let s := preempt isr s in
          (command, set_gotcommand true s)
      else (command, s)
    else (command, s)
  else (command, s).

(** Remote-used reply, lines 168-191. *)
Definition remote_reply_anywhere (s : State) : State :=
  let used := if remoteused s then x01 else x00 in
  let s := preempt isr s in
  let s := Serial_write [startbyte; x00; used; endbyte] s in
  let s := preempt isr s in
  let s := set_remoteused false s in
  let s := preempt isr s in
  set_checkremoteused false s.

(** Command execution and response, lines 195-251. *)
Definition execute_anywhere (command : list byte) (s : State) : State :=
  let s := preempt isr s in
  let s := set_posorneg (command_posorneg command) s in
  let s :=
    if posorneg s =? 0 then directionpositive (preempt isr s)
    else if posorneg s =? 1 then directionnegative (preempt isr s)
    else s in
  let gotolimit := command_gotolimit command in
  let pulses := command_pulses command in
  let s := preempt isr s in
  let s := set_xyorz (command_xyorz command) s in
  let s :=
    if xyorz s =? 0 then pulse isr pulses xpulpluspin s
    else if xyorz s =? 1 then pulse isr pulses ypulpluspin s
    else if xyorz s =? 2 then pulse isr pulses zpulpluspin s
    else s in
  let s := preempt isr s in
  let status := if limithit s && negb gotolimit then x0f else xf0 in
  let s := preempt isr s in
  Serial_write [startbyte; status; x00; endbyte] s.

(** Joystick fallback, lines 256-299. *)
Definition joystick_read_anywhere (s : State) : State :=
  let s := preempt isr s in
  let s := set_gotcommand true s in
  let s := preempt isr s in
  let '(lr, s) := analogRead (lr_in s) s in
  let s := set_lrvalue lr s in
  let s := preempt isr s in
  let '(ud, s) := analogRead (ud_in s) s in
  set_udvalue ud s.

Definition joystick_move_anywhere (s : State) : State :=
  if lrvalue s - 700 >? 200 then
    let s := directionnegative (preempt isr s) in
    let s := set_posorneg 1 (preempt isr s) in
    let s := set_xyorz 0 (preempt isr s) in
    let s := pulse isr 1 xpulpluspin s in
    set_remoteinuse true (preempt isr s)
  else if lrvalue s - 700 <? -400 then
    let s := directionpositive (preempt isr s) in
    let s := set_posorneg 0 (preempt isr s) in
    let s := set_xyorz 0 (preempt isr s) in
    let s := pulse isr 1 xpulpluspin s in
    set_remoteinuse true (preempt isr s)
  else if udvalue s - 700 >? 200 then
    let s := directionpositive (preempt isr s) in
    let s := set_posorneg 0 (preempt isr s) in
    let s := set_xyorz 1 (preempt isr s) in
    let s := pulse isr 1 ypulpluspin s in
    set_remoteinuse true (preempt isr s)
  else if udvalue s - 700 <? -300 then
    let s := directionnegative (preempt isr s) in
    let s := set_posorneg 1 (preempt isr s) in
    let s := set_xyorz 1 (preempt isr s) in
    let s := pulse isr 1 ypulpluspin s in
    set_remoteinuse true (preempt isr s)
  else s.

Definition joystick_done_anywhere (s : State) : State :=
  let s := if remoteinuse s then set_remoteused true (preempt isr s) else s in
  let s := preempt isr s in
  let s := set_remoteinuselast (remoteinuse s) s in
  let s := preempt isr s in
  set_remoteinuse false s.

Definition joystick_anywhere (s : State) : State :=
  joystick_done_anywhere (joystick_move_anywhere (joystick_read_anywhere s)).

(** One pass of [loop], lines 150-309. *)
Definition cycle_anywhere (s : State) : State :=
  let '(command, s) := receive_anywhere s in
  let s := if checkremoteused s then remote_reply_anywhere s else s in
  let s :=
    if gotcommand s then execute_anywhere command s
    else joystick_anywhere s in
  let s := preempt isr s in
  let s := set_limithit false s in
  let s := preempt isr s in
  let s := set_gotcommand false s in
  let s := preempt isr s in
  set_checkremoteused false s.

End Anywhere.

Definition loop_anywhere (s : State) : State := cycle_anywhere (Some limit) s.

Fixpoint run_anywhere (cycles : nat) (s : State) : State :=
  match cycles with
  | O => s
  | S k => run_anywhere k (loop_anywhere s)
  end.

(** * Properties *)

(** ** Vocabulary for traces and cycle boundaries *)

(** One step pulse: a HIGH write followed by a LOW write on the same pin. *)
Definition pulse_pair (pin : Z) : list Event :=
  [DigitalWrite pin HIGH; DigitalWrite pin LOW].

Fixpoint pulse_train (n : nat) (pin : Z) : list Event :=
  match n with
  | O => []
  | S k => pulse_pair pin ++ pulse_train k pin
  end.

(** Step output driven for a value of [xyorz] in 0..2. *)
Definition axis_pin (axis : Z) : Z :=
  if axis =? 0 then xpulpluspin
  else if axis =? 1 then ypulpluspin
  else zpulpluspin.

Definition on_pin (pin : Z) (e : Event) : bool :=
  match e with
  | DigitalWrite p _ => p =? pin
  | SerialWrite _ => false
  end.

Definition is_frame (e : Event) : bool :=
  match e with
  | DigitalWrite _ _ => false
  | SerialWrite _ => true
  end.

(** Writes made on one output, and frames sent, in trace order. *)
Definition writes_on (pin : Z) (tr : list Event) : list Event :=
  filter (on_pin pin) tr.

Definition frames (tr : list Event) : list Event := filter is_frame tr.

(** The interrupt never fires on the rest of the run. *)
Definition quiet (s : State) : Prop := forallb negb (irq s) = true.

(** Flags as a cycle finds them when the previous one has cleaned up. *)
Definition cycle_start (s : State) : Prop :=
  gotcommand s = false /\ checkremoteused s = false /\ limithit s = false /\
  remoteinuse s = false /\ keeppulsing s = true.

(** The handler with its command-is-executing test (line 39) taken out. *)
Definition limit_unguarded (s : State) : State :=
  let '(level, s) := digitalRead_limit s in
  if level then limit_action s else s.

(** Projections of the state that neither a pulse burst nor the limit
    handler changes: they survive the updates both are made of. *)
Definition spared {A : Type} (f : State -> A) : Prop :=
  (forall v s, f (set_irq v s) = f s) /\
  (forall v s, f (set_keeppulsing v s) = f s) /\
  (forall v s, f (set_limit_in v s) = f s) /\
  (forall s, f (set_limithit true s) = f s) /\
  (forall pin level s, f (digitalWrite pin level s) = f s).

(** [b] comes after [a] in a run: its trace extends that of [a] and the
    limit-hit flag, once set, is still set. *)
Definition grows (a b : State) : Prop :=
  (exists ext, trace b = trace a ++ ext) /\
  (limithit a = true -> limithit b = true).

(** A command frame as it travels on the wire, and the buffer the decoder
    keeps of it. *)
Definition command_frame (ctrl gotoLimit p3 p2 p1 p0 : byte) : list byte :=
  [startbyte; ctrl; gotoLimit; p3; p2; p1; p0; endbyte].

Definition payload (ctrl gotoLimit p3 p2 p1 p0 : byte) : list byte :=
  [ctrl; gotoLimit; p3; p2; p1; p0; endbyte].

Definition big_endian32 (p3 p2 p1 p0 : byte) : Z :=
  ((byte_val p3 * 256 + byte_val p2) * 256 + byte_val p1) * 256 + byte_val p0.

(** Readings the joystick branch of a cycle starting in [s] will take. *)
Definition stick_lr (s : State) : Z := lr_in s (adc_reads s) mod 1024.

Definition stick_ud (s : State) : Z := ud_in s (S (adc_reads s)) mod 1024.

(** The reset notice of [setup], and the frames a cycle can send: the two
    command responses and the two remote-used replies. *)
Definition reset_notice : Event := SerialWrite [startbyte; xff; x00; endbyte].

Definition cycle_frames : list Event :=
  [SerialWrite [startbyte; xf0; x00; endbyte];
   SerialWrite [startbyte; x0f; x00; endbyte];
   SerialWrite [startbyte; x00; x00; endbyte];
   SerialWrite [startbyte; x00; x01; endbyte]].

(** What one pass of the decoder leaves of the receive stream: it takes one
    byte, and seven more (as far as there are) when that byte is START. *)
Definition rx_after_decode (bytes : list byte) : list byte :=
  match bytes with
  | [] => []
  | first :: later =>
      if byte_val first =? byte_val startbyte then skipn 7 later else later
  end.

(** What a command writes when nothing interrupts it: the direction level,
    the burst on its axis output (none for axis bits 11), the success
    frame. *)
Definition command_trace (command : list byte) : list Event :=
  DigitalWrite dirpluspin (Z.testbit (cmd command 0) 5)
  :: (if command_xyorz command <=? 2
      then pulse_train (Z.to_nat (command_pulses command))
             (axis_pin (command_xyorz command))
      else [])
  ++ [SerialWrite [startbyte; xf0; x00; endbyte]].

(** Nothing can disturb a burst when no interrupt is requested ([r] is the
    schedule) or when the limit input never reads asserted ([l] is its
    samples): requests then find the switch released at the re-check. *)
Definition calm (r l : list bool) : Prop :=
  forallb negb r = true \/ forallb negb l = true.

Definition undisturbed (s : State) : Prop := calm (irq s) (limit_in s).

(** Payloads of command frames (query bit clear), and the bytes a list of
    them makes on the wire. *)
Definition is_command (p : list byte) : Prop :=
  exists ctrl gl p3 p2 p1 p0,
    p = payload ctrl gl p3 p2 p1 p0 /\ Z.testbit (byte_val ctrl) 0 = false.

Definition wire (commands : list (list byte)) : list byte :=
  concat (map (cons startbyte) commands).

(** What the limit handler relies on when it preempts a burst: a command
    is executing, the direction register holds 0 or 1 and the axis register
    one of the three axes. *)
Definition burst_ready (s : State) : Prop :=
  gotcommand s = true /\ (posorneg s = 0 \/ posorneg s = 1) /\
  0 <= xyorz s <= 2.

Definition burst_readyb (s : State) : bool :=
  gotcommand s && ((posorneg s =? 0) || (posorneg s =? 1))
  && (0 <=? xyorz s) && (xyorz s <=? 2).

(** What the handler cannot touch.  [limit] and the bursts write only the
    continuation flag, the limit-hit flag, the limit samples, the schedule
    and the outputs; [main_part] blanks these, and two states with the same
    main part differ in nothing else. *)
Definition main_part (s : State) : State :=
  mkState (posorneg s) (xyorz s) true false (gotcommand s) (remoteinuse s)
    (remoteinuselast s) (remoteused s) (checkremoteused s) (lrvalue s)
    (udvalue s) (rx s) [] [] (lr_in s) (ud_in s) (adc_reads s) [].

Definition same_main (a b : State) : Prop := main_part a = main_part b.

(** The handler with a trap in place of its three fall-through branches
    (lines 39, 47-48 and 61-62): outside [burst_ready] it wipes the trace
    and raises the limit-hit flag. *)
Definition limit_trapped (s : State) : State :=
  if burst_readyb s then limit s else set_limithit true (set_trace [] s).

(** The board as the burst of a command finds it: direction and axis
    registers loaded from the control byte, direction level written. *)
Definition burst_entry (command : list byte) (s : State) : State :=
  set_xyorz (command_xyorz command)
    (digitalWrite dirpluspin (Z.testbit (cmd command 0) 5)
       (set_posorneg (command_posorneg command) s)).

(** The values the direction and axis registers are compared against on
    lines 41-61 and 197-231: direction 0 or 1, axis 0 to 3. *)
Definition registers_in_range (s : State) : Prop :=
  (posorneg s = 0 \/ posorneg s = 1) /\ 0 <= xyorz s <= 3.

(** ** Bench boards

    Concrete boards on which the statements below are exercised. *)


(** Power-on board that has received [07 00 FF 00 00 00 05 0A]: go-to-limit
    requested with a payload count of five. *)
Definition bench_gotolimit : State :=
  power_on (command_frame x00 xff x00 x00 x00 x05) [] []
    (fun _ => 700) (fun _ => 700).

(** Power-on board that has received [07 40 00 00 00 00 03 0A]: three
    pulses on Y, positive direction. *)
Definition bench_move : State :=
  power_on (command_frame x40 x00 x00 x00 x00 x03) [] []
    (fun _ => 700) (fun _ => 700).

(** Power-on board that has received [07 C0 00 00 00 00 03 0A]: axis bits
    11. *)
Definition bench_no_axis : State :=
  power_on (command_frame xc0 x00 x00 x00 x00 x03) [] []
    (fun _ => 700) (fun _ => 700).

(** Power-on board that has received [07 40 00 00 00 00 03 0A]; the handler
    preempts the second pulse and finds the switch asserted at its re-check
    and for two more samples. *)
Definition bench_limit : State :=
  power_on (command_frame x40 x00 x00 x00 x00 x03) [true; true; true; false]
    [false; false; false; false; true] (fun _ => 700) (fun _ => 700).

(** Power-on board with the stick pushed to 1000 on left-right for the
    first conversion and at rest afterwards, a stray byte on the serial
    line and then the command frame [07 40 00 00 00 00 03 0A]. *)
Definition bench_stick : State :=
  power_on (x00 :: command_frame x40 x00 x00 x00 x00 x03) [] []
    (fun k => match k with O => 1000 | _ => 700 end) (fun _ => 700).

(** Power-on boards with nothing on the serial line and the stick held at
    1000, at 250, and at rest. *)
Definition bench_right : State :=
  power_on [] [] [] (fun _ => 1000) (fun _ => 700).

Definition bench_left : State :=
  power_on [] [] [] (fun _ => 250) (fun _ => 700).

Definition bench_rest : State :=
  power_on [] [] [] (fun _ => 700) (fun _ => 700).

(** Power-on board as a joystick move of an earlier cycle left it
    ([remoteused] set), with two query frames [07 01 00 00 00 00 00 0A] on
    the serial line and the stick at rest. *)
Definition bench_query : State :=
  set_remoteused true
    (power_on (command_frame x01 x00 x00 x00 x00 x00 ++
               command_frame x01 x00 x00 x00 x00 x00) [] []
       (fun _ => 700) (fun _ => 700)).

(** Power-on boards that have received a frame with a wrong first byte and
    a frame with a wrong last byte, the stick held at 1000. *)
Definition bench_bad_start : State :=
  power_on [x08; x40; x00; x00; x00; x00; x03; x0a] [] []
    (fun _ => 1000) (fun _ => 700).

Definition bench_bad_end : State :=
  power_on [x07; x40; x00; x00; x00; x00; x03; x0b] [] []
    (fun _ => 1000) (fun _ => 700).

(** Power-on board that has received a stray START and then the frame
    [07 40 00 00 00 00 03 0A]. *)
Definition bench_stray_start : State :=
  power_on (startbyte :: command_frame x40 x00 x00 x00 x00 x03) [] []
    (fun _ => 700) (fun _ => 700).

(** Power-on boards with nothing on the serial line and the stick held at
    1000 and at 300 on up-down. *)
Definition bench_up : State :=
  power_on [] [] [] (fun _ => 700) (fun _ => 1000).

Definition bench_down : State :=
  power_on [] [] [] (fun _ => 700) (fun _ => 300).

(** Power-on board that has received [07 40 00 00 00 00 03 0A]; the
    interrupt is requested at every preemption point but the switch never
    reads asserted. *)
Definition bench_bounce : State :=
  power_on (command_frame x40 x00 x00 x00 x00 x03) [false; false]
    (repeat true 12) (fun _ => 700) (fun _ => 700).

(** Power-on board that has received [07 40 00 00 00 00 02 0A] and
    [07 20 00 00 00 00 01 0A] back to back. *)
Definition bench_queue : State :=
  power_on (wire [payload x40 x00 x00 x00 x00 x02;
                  payload x20 x00 x00 x00 x00 x01]) [] []
    (fun _ => 700) (fun _ => 700).

(** Power-on board that has received the go-to-limit frame
    [07 40 FF 00 00 00 03 0A]; the handler is served at the loop test after
    the first pulse and finds the switch asserted at its re-check and for
    two more samples. *)
Definition bench_homing : State :=
  power_on (command_frame x40 xff x00 x00 x00 x03)
    [true; true; true; false] [false; false; false; true]
    (fun _ => 700) (fun _ => 700).

(** Power-on board that has received [07 40 00 00 00 00 03 0A]; the
    handler is served right after the loop test that follows the first
    pulse, and finds the switch asserted at its re-check and for one more
    sample. *)
Definition bench_late_hit : State :=
  power_on (command_frame x40 x00 x00 x00 x00 x03)
    [true; true; false]
    [false; false; false; false; true; false; false]
    (fun _ => 700) (fun _ => 700).

(** The same board with the handler served between the HIGH and the LOW
    write of the second pulse. *)
Definition bench_mid_hit : State :=
  power_on (command_frame x40 x00 x00 x00 x00 x03)
    [true; true; false]
    [false; false; false; false; false; true; false]
    (fun _ => 700) (fun _ => 700).

(** A board inside a Y burst that the handler has already stopped, with the
    switch asserted again for four samples. *)
Definition bench_restruck : State :=
  set_keeppulsing false (set_limithit true (set_gotcommand true
    (set_xyorz 1
       (power_on [] [true; true; true; true; false] []
          (fun _ => 700) (fun _ => 700))))).

(** Power-on board that has received only the first six bytes of the
    frame [07 40 00 00 00 00 03 0A]. *)
Definition bench_truncated : State :=
  power_on [x07; x40; x00; x00; x00; x00] [] []
    (fun _ => 700) (fun _ => 700).

(** A board inside an X burst (command executing) on which the handler is
    served right after the loop test that follows the first pulse, with
    the switch asserted at the re-check and released at the next sample. *)
Definition bench_late_clear : State :=
  set_gotcommand true
    (power_on [] [true; false] [false; false; false; false; true]
       (fun _ => 700) (fun _ => 700)).

(** Power-on board with nothing on the serial line and the stick at rest;
    a request is served right after [gotcommand] is set for the joystick
    poll (line 260), with the switch asserted at the re-check and for one
    more sample. *)
Definition bench_idle_hit : State :=
  power_on [] [true; true; false] (false :: true :: repeat false 6)
    (fun _ => 700) (fun _ => 700).

(** The board one cycle after an idle hit (a stray byte was taken from the
    serial line in that cycle), with the command frame
    [07 40 00 00 00 00 03 0A] next on the line. *)
Definition bench_disarmed : State :=
  loop_anywhere
    (power_on (x00 :: command_frame x40 x00 x00 x00 x00 x03)
       [true; true; false] [false; false; true]
       (fun _ => 700) (fun _ => 700)).

(** Power-on board that has received [07 40 00 00 00 00 03 0A] (three
    pulses on Y); a request is served after the direction write of line
    198 and before the axis register is loaded on line 221, with the switch
    asserted at the re-check and for one more sample. *)
Definition bench_stale_axis : State :=
  power_on (command_frame x40 x00 x00 x00 x00 x03) [true; true; false]
    (repeat false 5 ++ true :: repeat false 6)
    (fun _ => 700) (fun _ => 700).

(** The board after the command [07 C0 00 00 00 00 03 0A] (axis bits 11),
    with the switch asserted for the next three samples. *)
Definition bench_no_axis_switch : State :=
  loop (power_on (command_frame xc0 x00 x00 x00 x00 x03)
          [true; true; true; false] [] (fun _ => 700) (fun _ => 700)).

(** Power-on board with the stick held at 1000 and the handler preempting
    the joystick pulse at its loop test, the switch asserted at the
    re-check and for two more samples. *)
Definition bench_stick_limit : State :=
  power_on [] [true; true; true; false] [true]
    (fun _ => 1000) (fun _ => 700).

Lemma pulse_train_on_pin (n : nat) (pin : Z) :
  writes_on pin (pulse_train n pin) = pulse_train n pin.
Proof.
  unfold writes_on.
  induction n as [|n IH]; [reflexivity|].
  cbn [pulse_train pulse_pair app filter on_pin].
  now rewrite Z.eqb_refl, IH.
Qed.


Lemma writes_on_app (pin : Z) (a b : list Event) :
  writes_on pin (a ++ b) = writes_on pin a ++ writes_on pin b.
Proof. apply filter_app. Qed.

(** ** What a pulse burst leaves alone

    [R] is any preorder on states that tolerates the updates a burst and the
    handler make; it then relates the state before a burst to the state
    after it, under every interrupt schedule. *)

Section Tolerated.

Variable R : State -> State -> Prop.
Hypothesis R_refl : forall s, R s s.
Hypothesis R_trans : forall a b c, R a b -> R b c -> R a c.
Hypothesis R_irq : forall v s, R s (set_irq v s).
Hypothesis R_keeppulsing : forall v s, R s (set_keeppulsing v s).
Hypothesis R_limit_in : forall v s, R s (set_limit_in v s).
Hypothesis R_limithit : forall s, R s (set_limithit true s).
Hypothesis R_write : forall pin level s, R s (digitalWrite pin level s).

Lemma tolerated_preempt (h : State -> State) :
  (forall s, R s (h s)) -> forall s, R s (preempt (Some h) s).
Proof.
  intros Hh s. unfold preempt. destruct (irq s) as [|[] later]; auto.
  eapply R_trans; [apply R_irq | apply Hh].
Qed.

Lemma tolerated_pulse_loop (isr : option (State -> State)) :
  (forall h, isr = Some h -> forall s, R s (h s)) ->
  forall n pin s, R s (pulse_loop isr n pin s).
Proof.
  intros Hh.
  assert (Hp : forall s, R s (preempt isr s)).
  { destruct isr as [h|]; [|intro; apply R_refl].
    apply tolerated_preempt. now apply Hh. }
  induction n as [|n IH]; intros pin s; cbn [pulse_loop].
  - apply Hp.
  - destruct (keeppulsing (preempt isr s)); [|apply Hp].
    eapply R_trans; [|apply IH].
    repeat (eapply R_trans; [|first [apply R_write | apply Hp]]).
    apply R_refl.
Qed.

Lemma tolerated_pulse (isr : option (State -> State)) :
  (forall h, isr = Some h -> forall s, R s (h s)) ->
  forall pulses pin s, R s (pulse isr pulses pin s).
Proof.
  intros Hh pulses pin s. unfold pulse.
  eapply R_trans; [apply tolerated_pulse_loop|apply R_keeppulsing]; auto.
Qed.

Lemma tolerated_limit_step (s : State) : R s (limit_step s).
Proof.
  unfold limit_step.
  repeat match goal with |- context [if ?c then _ else _] => destruct c end;
    try apply R_refl; apply tolerated_pulse; discriminate.
Qed.

Lemma tolerated_limit_walk (samples : list bool) :
  forall s, R s (limit_walk samples s).
Proof.
  induction samples as [|[] later IH]; intros s; simpl; auto.
  eapply R_trans; [apply R_limit_in|].
  eapply R_trans; [apply tolerated_limit_step|apply IH].
Qed.

Lemma tolerated_limit_action (s : State) : R s (limit_action s).
Proof.
  unfold limit_action, directionnegative, directionpositive.
  eapply R_trans; [|apply R_limithit].
  eapply R_trans; [|apply R_keeppulsing].
  eapply R_trans; [|apply tolerated_limit_walk].
  repeat match goal with |- context [if ?c then _ else _] => destruct c end;
    auto.
Qed.

Lemma tolerated_limit (s : State) : R s (limit s).
Proof.
  unfold limit, digitalRead_limit.
  destruct (limit_in s) as [|[] later]; auto.
  destruct (gotcommand (set_limit_in later s)); auto.
  eapply R_trans; [apply R_limit_in|apply tolerated_limit_action].
Qed.

Lemma tolerated_burst (pulses pin : Z) (s : State) :
  R s (pulse (Some limit) pulses pin s).
Proof.
  apply tolerated_pulse. intros h [= <-]. apply tolerated_limit.
Qed.

End Tolerated.


Ltac spared_tac :=
  unfold spared, digitalWrite, emit; repeat split; intros; simpl; auto.

Lemma spared_limit {A : Type} (f : State -> A) :
  spared f -> forall s, f (limit s) = f s.
Proof.
  intros (H1 & H2 & H3 & H4 & H5) s. symmetry.
  apply (tolerated_limit (fun a b => f a = f b)); intros; auto; congruence.
Qed.

Lemma spared_burst {A : Type} (f : State -> A) :
  spared f -> forall pulses pin s, f (pulse (Some limit) pulses pin s) = f s.
Proof.
  intros (H1 & H2 & H3 & H4 & H5) pulses pin s. symmetry.
  apply (tolerated_burst (fun a b => f a = f b)); intros; auto; congruence.
Qed.

Lemma spared_frames : spared (fun s => frames (trace s)).
Proof.
  spared_tac. unfold frames. rewrite filter_app. simpl. apply app_nil_r.
Qed.


Lemma grows_refl (s : State) : grows s s.
Proof. split; [exists []; now rewrite app_nil_r | auto]. Qed.

Lemma grows_trans (a b c : State) : grows a b -> grows b c -> grows a c.
Proof.
  intros [[e1 H1] L1] [[e2 H2] L2]. split; [|auto].
  exists (e1 ++ e2). now rewrite H2, H1, app_assoc.
Qed.

Lemma grows_write (pin : Z) (level : bool) (s : State) :
  grows s (digitalWrite pin level s).
Proof. split; [now exists [DigitalWrite pin level] | auto]. Qed.

Ltac grows_tac :=
  first
    [ apply grows_refl
    | apply grows_write
    | apply grows_trans
    | intros; split; [exists []; simpl; now rewrite app_nil_r | simpl; auto] ].

Lemma grows_limit (s : State) : grows s (limit s).
Proof. apply (tolerated_limit grows); grows_tac. Qed.

Lemma grows_preempt (s : State) : grows s (preempt (Some limit) s).
Proof.
  apply (tolerated_preempt grows); try grows_tac. apply grows_limit.
Qed.

Lemma grows_pulse_loop (n : nat) (pin : Z) (s : State) :
  grows s (pulse_loop (Some limit) n pin s).
Proof.
  apply (tolerated_pulse_loop grows); try grows_tac.
  intros h [= <-]. apply grows_limit.
Qed.

(** ** The pulse generator with interrupts masked *)

Lemma pulse_loop_masked (n : nat) (pin : Z) :
  forall s, keeppulsing s = true ->
  pulse_loop None n pin s = set_trace (trace s ++ pulse_train n pin) s.
Proof.
  induction n as [|n IH]; intros s Hk; cbn [pulse_loop preempt].
  - cbn [pulse_train]. rewrite app_nil_r. destruct s; reflexivity.
  - rewrite Hk, IH by exact Hk.
    destruct s; simpl. now rewrite <- !app_assoc.
Qed.

Lemma pulse_masked_one (pin : Z) (s : State) :
  keeppulsing s = true ->
  pulse None 1 pin s = set_trace (trace s ++ pulse_pair pin) s.
Proof.
  intros Hk. unfold pulse. change (Z.to_nat 1) with 1%nat.
  rewrite pulse_loop_masked by exact Hk.
  destruct s; simpl in *; subst. reflexivity.
Qed.

(** ** The limit handler *)

Lemma limit_step_axis (s : State) :
  0 <= xyorz s <= 2 -> keeppulsing s = true ->
  limit_step s = set_trace (trace s ++ pulse_pair (axis_pin (xyorz s))) s.
Proof.
  intros Ha Hk. unfold limit_step, axis_pin.
  destruct (xyorz s =? 0) eqn:E0; [now apply pulse_masked_one|].
  destruct (xyorz s =? 1) eqn:E1; [now apply pulse_masked_one|].
  destruct (xyorz s =? 2) eqn:E2; [now apply pulse_masked_one|].
  lia.
Qed.

Lemma limit_walk_off (m : nat) (rest : list bool) :
  forall s, 0 <= xyorz s <= 2 -> keeppulsing s = true ->
  limit_walk (repeat true m ++ false :: rest) s =
  set_limit_in rest
    (set_trace (trace s ++ pulse_train m (axis_pin (xyorz s))) s).
Proof.
  induction m as [|m IH]; intros s Ha Hk; cbn [repeat app limit_walk].
  - cbn [pulse_train]. rewrite app_nil_r. destruct s; reflexivity.
  - rewrite limit_step_axis by (simpl; assumption).
    rewrite IH by (simpl; assumption).
    destruct s; simpl. now rewrite <- !app_assoc.
Qed.

Lemma limit_reverses_and_walks (m : nat) (rest : list bool) (s : State) :
  gotcommand s = true -> keeppulsing s = true ->
  posorneg s = 0 \/ posorneg s = 1 ->
  0 <= xyorz s <= 2 ->
  limit_in s = true :: repeat true m ++ false :: rest ->
  limit s =
  set_limithit true (set_keeppulsing false (set_limit_in rest
    (set_trace (trace s ++ DigitalWrite dirpluspin (posorneg s =? 0)
                  :: pulse_train m (axis_pin (xyorz s))) s))).
Proof.
  intros Hg Hk Hd Ha Hl. unfold limit, digitalRead_limit. rewrite Hl.
  cbn [gotcommand set_limit_in]. rewrite Hg.
  unfold limit_action.
  assert (E : (if posorneg (set_limit_in (repeat true m ++ false :: rest) s)
                    =? 0
               then directionnegative
                      (set_limit_in (repeat true m ++ false :: rest) s)
               else if posorneg
                         (set_limit_in (repeat true m ++ false :: rest) s)
                       =? 1
               then directionpositive
                      (set_limit_in (repeat true m ++ false :: rest) s)
               else set_limit_in (repeat true m ++ false :: rest) s)
              = set_limit_in (repeat true m ++ false :: rest)
                  (set_trace (trace s ++
                     [DigitalWrite dirpluspin (posorneg s =? 0)]) s)).
  { destruct s; simpl in *. destruct Hd; subst; reflexivity. }
  rewrite E. cbn [limit_in set_limit_in].
  rewrite limit_walk_off by (simpl; assumption).
  destruct s; simpl. now rewrite <- !app_assoc.
Qed.

(** ** The pulse generator under an interrupt schedule *)


Section Preempted.

Variable h : State -> State.

Lemma preempt_fire (s : State) (r : list bool) :
  irq s = true :: r -> preempt (Some h) s = h (set_irq r s).
Proof. intros E. unfold preempt. now rewrite E. Qed.

Lemma preempt_quiet (s : State) :
  quiet s ->
  exists r, forallb negb r = true /\ preempt (Some h) s = set_irq r s.
Proof.
  unfold quiet, preempt. destruct (irq s) as [|[] r] eqn:E; simpl; intros Q.
  - exists []. split; [reflexivity|]. rewrite <- E. destruct s; reflexivity.
  - discriminate.
  - now exists r.
Qed.

(** One full iteration that no interrupt disturbs. *)
Lemma pulse_loop_pair (n : nat) (pin : Z) (s : State) (r : list bool) :
  irq s = false :: false :: false :: r -> keeppulsing s = true ->
  pulse_loop (Some h) (S n) pin s =
  pulse_loop (Some h) n pin
    (set_irq r (set_trace (trace s ++ pulse_pair pin) s)).
Proof.
  intros E Hk. destruct s; simpl in E, Hk; subst.
  cbn. f_equal. unfold digitalWrite, emit, pulse_pair. simpl.
  now rewrite <- app_assoc.
Qed.

Lemma pulse_loop_pairs (k : nat) :
  forall (n : nat) (pin : Z) (s : State) (r : list bool),
  irq s = repeat false (3 * k) ++ r -> keeppulsing s = true ->
  pulse_loop (Some h) (k + n) pin s =
  pulse_loop (Some h) n pin
    (set_irq r (set_trace (trace s ++ pulse_train k pin) s)).
Proof.
  induction k as [|k IH]; intros n pin s r E Hk.
  - cbn [pulse_train Nat.add]. rewrite app_nil_r. simpl in E.
    rewrite <- E. f_equal. destruct s; reflexivity.
  - replace (3 * S k)%nat with (S (S (S (3 * k)))) in E by lia.
    cbn [repeat app] in E. cbn [Nat.add].
    rewrite (pulse_loop_pair _ _ _ _ E Hk).
    rewrite (IH n pin _ r) by first [reflexivity | exact Hk].
    f_equal. destruct s; simpl. now rewrite <- app_assoc.
Qed.

(** The handler runs at the loop head and clears the flag. *)
Lemma pulse_loop_fire_head (n : nat) (pin : Z) (s : State) (r : list bool) :
  irq s = true :: r -> keeppulsing (h (set_irq r s)) = false ->
  pulse_loop (Some h) n pin s = h (set_irq r s).
Proof.
  intros E Hk. destruct n; cbn [pulse_loop];
    rewrite (preempt_fire s r) by exact E; [reflexivity|now rewrite Hk].
Qed.

(** The handler runs right after the loop condition was found true. *)
Lemma pulse_loop_fire_checked (n : nat) (pin : Z) (s : State)
    (r : list bool) :
  irq s = false :: true :: r -> keeppulsing s = true ->
  pulse_loop (Some h) (S n) pin s =
  pulse_loop (Some h) n pin
    (digitalWrite pin LOW
       (preempt (Some h) (digitalWrite pin HIGH (h (set_irq r s))))).
Proof.
  intros E Hk. destruct s; simpl in E, Hk; subst. reflexivity.
Qed.

(** The handler runs between the HIGH and the LOW write. *)
Lemma pulse_loop_fire_mid (n : nat) (pin : Z) (s : State) (r : list bool) :
  irq s = false :: false :: true :: r -> keeppulsing s = true ->
  pulse_loop (Some h) (S n) pin s =
  pulse_loop (Some h) n pin
    (digitalWrite pin LOW (h (set_irq r (digitalWrite pin HIGH s)))).
Proof.
  intros E Hk. destruct s; simpl in E, Hk; subst. reflexivity.
Qed.

Lemma pulse_loop_quiet (n : nat) :
  forall (pin : Z) (s : State),
  quiet s -> keeppulsing s = true ->
  exists r, forallb negb r = true /\
    pulse_loop (Some h) n pin s =
    set_irq r (set_trace (trace s ++ pulse_train n pin) s).
Proof.
  induction n as [|n IH]; intros pin s Q Hk; cbn [pulse_loop].
  - destruct (preempt_quiet s Q) as (r & Qr & E). exists r. split; [exact Qr|].
    rewrite E. cbn [pulse_train]. rewrite app_nil_r.
    destruct s; reflexivity.
  - destruct (preempt_quiet s Q) as (r1 & Q1 & E1). rewrite E1.
    replace (keeppulsing (set_irq r1 s)) with true by (symmetry; exact Hk).
    destruct (preempt_quiet (set_irq r1 s) Q1) as (r2 & Q2 & E2). rewrite E2.
    destruct (preempt_quiet
                (digitalWrite pin HIGH (set_irq r2 (set_irq r1 s))) Q2)
      as (r3 & Q3 & E3). rewrite E3.
    destruct (IH pin (digitalWrite pin LOW (set_irq r3
                (digitalWrite pin HIGH (set_irq r2 (set_irq r1 s))))) Q3 Hk)
      as (r4 & Q4 & E4). rewrite E4.
    exists r4. split; [exact Q4|].
    destruct s; simpl. now rewrite <- !app_assoc.
Qed.

Lemma pulse_quiet (pulses pin : Z) (s : State) :
  quiet s -> keeppulsing s = true ->
  exists r, forallb negb r = true /\
    pulse (Some h) pulses pin s =
    set_irq r (set_trace (trace s ++ pulse_train (Z.to_nat pulses) pin) s).
Proof.
  intros Q Hk. unfold pulse.
  destruct (pulse_loop_quiet (Z.to_nat pulses) pin s Q Hk) as (r & Qr & E).
  exists r. split; [exact Qr|]. rewrite E.
  generalize (Z.to_nat pulses). intros n.
  destruct s; simpl in *; subst; reflexivity.
Qed.

End Preempted.

Lemma preempt_skip (h : State -> State) (s : State) (r : list bool) :
  irq s = false :: r -> preempt (Some h) s = set_irq r s.
Proof. intros E. unfold preempt. now rewrite E. Qed.

(** ** Counting the pulses of one call *)

Section Counted.

Variable h : State -> State.
Variable pin : Z.

(** The handler does not drive [pin]. *)
Hypothesis h_off_pin :
  forall x, writes_on pin (trace (h x)) = writes_on pin (trace x).




Section NeverCleared.

Hypothesis h_keeps :
  forall x, keeppulsing x = true -> keeppulsing (h x) = true.



End NeverCleared.






End Counted.


(** C3 as first stated fails: on this board the handler clears the flag
    after one pair has been emitted (its direction write follows the
    first pair in the trace), one of five, and the call emits two pairs. *)
Lemma pulse_emits_counted_pairs_counterexample :
  keeppulsing bench_late_clear = true /\
  trace (pulse (Some limit) 5 xpulpluspin bench_late_clear) =
    pulse_pair xpulpluspin
    ++ DigitalWrite dirpluspin HIGH :: pulse_pair xpulpluspin /\
  keeppulsing
    (limit (set_irq []
       (set_trace (pulse_pair xpulpluspin) bench_late_clear))) = false /\
  writes_on xpulpluspin
    (trace (pulse (Some limit) 5 xpulpluspin bench_late_clear)) =
    pulse_train 2 xpulpluspin /\
  pulse_train 2 xpulpluspin <> pulse_train 1 xpulpluspin /\
  keeppulsing (pulse (Some limit) 5 xpulpluspin bench_late_clear) = true.
Proof. repeat split. discriminate. Qed.



(** ** The limit handler preempting a burst *)

Lemma grows_rest_of_iteration (n : nat) (pin : Z) (s : State) :
  grows s
    (pulse_loop (Some limit) n pin
       (digitalWrite pin LOW
          (preempt (Some limit) (digitalWrite pin HIGH s)))).
Proof.
  eapply grows_trans; [|apply grows_pulse_loop].
  eapply grows_trans; [|apply grows_write].
  eapply grows_trans; [|apply grows_preempt].
  apply grows_write.
Qed.

(** A request raised at any of the first [3 * n + 1] preemption points of a
    burst of [n] pulses, with the limit input asserted at the re-check and
    for [m] more samples: the handler reverses the direction output and
    walks [m] pulses on the active axis, between whatever the burst wrote
    before and after; the limit-hit flag is set when the burst ends. *)
Lemma burst_interrupted (n j m : nat) (rest_irq rest_lim : list bool)
    (pin : Z) (s : State) :
  keeppulsing s = true -> gotcommand s = true ->
  posorneg s = 0 \/ posorneg s = 1 ->
  0 <= xyorz s <= 2 -> pin = axis_pin (xyorz s) ->
  irq s = repeat false j ++ true :: rest_irq -> (j <= 3 * n)%nat ->
  limit_in s = true :: repeat true m ++ false :: rest_lim ->
  exists before after,
    trace (pulse_loop (Some limit) n pin s) =
    trace s ++ before ++
      DigitalWrite dirpluspin (posorneg s =? 0) :: pulse_train m pin ++ after
    /\ writes_on pin before = before
    /\ limithit (pulse_loop (Some limit) n pin s) = true.
Proof.
  intros Hk Hg Hd Ha Hpin Hirq Hj Hlim.
  pose (q := (j / 3)%nat). pose (r := (j mod 3)%nat).
  assert (Ej : j = (3 * q + r)%nat) by (apply Nat.div_mod_eq).
  assert (Hr : (r < 3)%nat) by (apply Nat.mod_upper_bound; lia).
  assert (En : n = (q + (n - q))%nat) by lia.
  rewrite Ej, repeat_app, <- app_assoc in Hirq.
  rewrite En.
  rewrite (pulse_loop_pairs limit q (n - q) pin s _ Hirq Hk).
  set (s1 := set_irq (repeat false r ++ true :: rest_irq)
               (set_trace (trace s ++ pulse_train q pin) s)).
  destruct r as [|[|[|r]]]; [| | |lia].
  - (* at the loop head *)
    assert (E : limit (set_irq rest_irq s1) = _)
      by (apply (limit_reverses_and_walks m rest_lim); assumption).
    rewrite (pulse_loop_fire_head limit (n - q) pin s1 rest_irq eq_refl)
      by (rewrite E; reflexivity).
    rewrite E. exists (pulse_train q pin), [].
    cbn [trace limithit set_limithit set_keeppulsing set_limit_in set_trace
         set_irq s1 posorneg xyorz].
    rewrite <- Hpin, app_nil_r, <- app_assoc.
    rewrite pulse_train_on_pin. repeat split.
  - (* after the loop condition *)
    destruct (n - q)%nat as [|n'] eqn:En'; [lia|].
    rewrite (pulse_loop_fire_checked limit n' pin s1 rest_irq eq_refl Hk).
    assert (E : limit (set_irq rest_irq s1) = _)
      by (apply (limit_reverses_and_walks m rest_lim); assumption).
    rewrite E.
    match goal with |- context [digitalWrite pin HIGH ?x] =>
      destruct (grows_rest_of_iteration n' pin x) as [[ext Ht] Hl]
    end.
    rewrite Ht, Hl by reflexivity.
    exists (pulse_train q pin), ext.
    cbn [trace limithit set_limithit set_keeppulsing set_limit_in set_trace
         set_irq s1 posorneg xyorz].
    rewrite <- Hpin, <- !app_assoc.
    rewrite pulse_train_on_pin. repeat split.
  - (* between the two writes of a pulse *)
    destruct (n - q)%nat as [|n'] eqn:En'; [lia|].
    rewrite (pulse_loop_fire_mid limit n' pin s1 rest_irq eq_refl Hk).
    assert (E : limit (set_irq rest_irq (digitalWrite pin HIGH s1)) = _)
      by (apply (limit_reverses_and_walks m rest_lim); assumption).
    rewrite E.
    match goal with |- context [digitalWrite pin LOW ?x] =>
      assert (G : grows x (pulse_loop (Some limit) n' pin
                             (digitalWrite pin LOW x)))
        by (eapply grows_trans; [apply grows_write|apply grows_pulse_loop]);
      destruct G as [[ext Ht] Hl]
    end.
    rewrite Ht, Hl by reflexivity.
    exists (pulse_train q pin ++ [DigitalWrite pin HIGH]), ext.
    cbn [trace limithit set_limithit set_keeppulsing set_limit_in set_trace
         set_irq s1 posorneg xyorz digitalWrite emit].
    rewrite <- Hpin, <- !app_assoc.
    rewrite writes_on_app, pulse_train_on_pin.
    cbn [writes_on filter on_pin app]. rewrite Z.eqb_refl. repeat split.
Qed.

(** ** The command decoder *)


Lemma byte_val_range (b : byte) : 0 <= byte_val b < 256.
Proof.
  unfold byte_val. pose proof (Byte.to_N_bounded b) as H.
  apply N2Z.inj_le in H. simpl in H. lia.
Qed.

Lemma query_bit (b : byte) :
  (Z.land (byte_val b) 1 =? 1) = Z.testbit (byte_val b) 0.
Proof. destruct b; reflexivity. Qed.

Lemma receive_frame (ctrl gl p3 p2 p1 p0 : byte) (later : list byte)
    (s : State) :
  gotcommand s = false -> checkremoteused s = false ->
  rx s = command_frame ctrl gl p3 p2 p1 p0 ++ later ->
  receive s =
  (payload ctrl gl p3 p2 p1 p0,
   if Z.testbit (byte_val ctrl) 0
   then set_checkremoteused true (set_rx later s)
   else set_gotcommand true (set_rx later s)).
Proof.
  intros Hg Hc Hrx.
  unfold receive, Serial_available, Serial_read, Serial_readBytes.
  rewrite Hrx, Hg, Hc.
  cbn [command_frame app negb andb]. cbn -[Z.testbit]. unfold cmd. cbn [nth].
  rewrite query_bit.
  destruct (Z.testbit (byte_val ctrl) 0); destruct s; reflexivity.
Qed.

Lemma command_posorneg_bit (command : list byte) :
  command_posorneg command = Z.b2z (Z.testbit (cmd command 0) 5).
Proof.
  unfold command_posorneg, cmd. destruct (nth 0 command x00); reflexivity.
Qed.

Lemma command_xyorz_bits (command : list byte) :
  command_xyorz command =
  2 * Z.b2z (Z.testbit (cmd command 0) 7) + Z.b2z (Z.testbit (cmd command 0) 6).
Proof.
  unfold command_xyorz, cmd. destruct (nth 0 command x00); reflexivity.
Qed.

Lemma command_pulses_value (ctrl gl p3 p2 p1 p0 : byte) :
  command_pulses (payload ctrl gl p3 p2 p1 p0) =
  if byte_val gl =? 255 then 4294967295 else big_endian32 p3 p2 p1 p0.
Proof.
  unfold command_pulses, command_gotolimit, payload, cmd, big_endian32, u32.
  cbn [nth].
  pose proof (byte_val_range p3). pose proof (byte_val_range p2).
  pose proof (byte_val_range p1). pose proof (byte_val_range p0).
  destruct (byte_val gl =? 255); [reflexivity|].
  rewrite !Z.shiftl_mul_pow2 by lia.
  change (2 ^ 8) with 256. change (2 ^ 16) with 65536.
  change (2 ^ 24) with 16777216. change (2 ^ 32) with 4294967296.
  repeat match goal with
         | |- context [?a mod 4294967296] =>
             rewrite (Z.mod_small a 4294967296) by lia
         end.
  lia.
Qed.

(** ** Shape of one cycle *)

Lemma trace_cycle_end (s : State) :
  trace (set_checkremoteused false (set_gotcommand false
           (set_limithit false s))) = trace s.
Proof. reflexivity. Qed.

Lemma cycle_command (isr : option (State -> State)) (s s' : State)
    (command : list byte) :
  receive s = (command, s') ->
  checkremoteused s' = false -> gotcommand s' = true ->
  cycle isr s =
  set_checkremoteused false (set_gotcommand false (set_limithit false
    (execute isr command s'))).
Proof. intros E Hc Hg. unfold cycle. now rewrite E, Hc, Hg. Qed.

Lemma cycle_joystick (isr : option (State -> State)) (s s' : State)
    (command : list byte) :
  receive s = (command, s') ->
  checkremoteused s' = false -> gotcommand s' = false ->
  cycle isr s =
  set_checkremoteused false (set_gotcommand false (set_limithit false
    (joystick isr s'))).
Proof. intros E Hc Hg. unfold cycle. now rewrite E, Hc, Hg. Qed.

Lemma cycle_query (isr : option (State -> State)) (s s' : State)
    (command : list byte) :
  receive s = (command, s') ->
  checkremoteused s' = true -> gotcommand s' = false ->
  cycle isr s =
  set_checkremoteused false (set_gotcommand false (set_limithit false
    (joystick isr (remote_reply s')))).
Proof.
  intros E Hc Hg. unfold cycle. rewrite E, Hc.
  replace (gotcommand (remote_reply s')) with false; reflexivity || auto.
Qed.

(** ** Executing a decoded command *)

Lemma execute_quiet (command : list byte) (s : State) :
  quiet s -> keeppulsing s = true -> limithit s = false ->
  0 <= command_xyorz command <= 2 ->
  trace (execute (Some limit) command s) =
  trace s ++
  DigitalWrite dirpluspin (Z.testbit (cmd command 0) 5)
  :: pulse_train (Z.to_nat (command_pulses command))
       (axis_pin (command_xyorz command))
  ++ [SerialWrite [startbyte; xf0; x00; endbyte]].
Proof.
  intros Q Hk Hl Ha. unfold execute. rewrite command_posorneg_bit.
  generalize (command_pulses command) as pulses.
  generalize (command_gotolimit command) as gotolimit.
  generalize (Z.testbit (cmd command 0) 5) as negative.
  intros negative gotolimit pulses.
  assert (Hax : command_xyorz command = 0 \/ command_xyorz command = 1 \/
                command_xyorz command = 2) by lia.
  destruct s; unfold quiet in Q; simpl in Q, Hk, Hl; subst.
  destruct Hax as [E|[E|E]]; rewrite E; destruct negative;
    cbn -[pulse pulse_train Z.to_nat limit];
    match goal with
    | |- context [pulse (Some limit) ?p ?pin ?x] =>
        destruct (pulse_quiet limit p pin x Q eq_refl) as (r & Qr & Er);
        rewrite Er
    end;
    cbn -[pulse_train Z.to_nat]; rewrite <- !app_assoc; reflexivity.
Qed.

Lemma execute_no_axis (isr : option (State -> State)) (command : list byte)
    (s : State) :
  command_xyorz command = 3 ->
  execute isr command s =
  Serial_write
    [startbyte; if limithit s && negb (command_gotolimit command)
                then x0f else xf0; x00; endbyte]
    (digitalWrite dirpluspin (Z.testbit (cmd command 0) 5)
       (set_xyorz 3 (set_posorneg (command_posorneg command) s))).
Proof.
  intros E. unfold execute. rewrite E, command_posorneg_bit.
  destruct (Z.testbit (cmd command 0) 5); destruct s; reflexivity.
Qed.

Lemma write_commutes_xyorz (axis pin : Z) (level : bool) (s : State) :
  set_xyorz axis (digitalWrite pin level s) =
  digitalWrite pin level (set_xyorz axis s).
Proof. destruct s; reflexivity. Qed.

(** What the handler and the burst leave alone is, after a command, as the
    two assignments of the command branch left it. *)
Lemma execute_spares {A : Type} (f : State -> A) (command : list byte)
    (s : State) :
  spared f -> (forall frame x, f (Serial_write frame x) = f x) ->
  f (execute (Some limit) command s) =
  f (set_xyorz (command_xyorz command)
       (set_posorneg (command_posorneg command) s)).
Proof.
  intros Hf Hw. unfold execute. rewrite Hw.
  assert (Hdir : forall level x,
             f (set_xyorz (command_xyorz command)
                  (digitalWrite dirpluspin level x)) =
             f (set_xyorz (command_xyorz command) x)).
  { intros level x. rewrite write_commutes_xyorz.
    destruct Hf as (_ & _ & _ & _ & H5). apply H5. }
  unfold directionpositive, directionnegative.
  repeat match goal with
         | |- context [if ?c then _ else _] => destruct c
         end;
    rewrite ?(spared_burst f Hf), ?Hdir; reflexivity.
Qed.

Lemma gotolimit_all_ones (ctrl gl p3 p2 p1 p0 : byte) :
  command_gotolimit (payload ctrl gl p3 p2 p1 p0) = Byte.eqb gl xff.
Proof. unfold command_gotolimit, payload, cmd. destruct gl; reflexivity. Qed.

Lemma receive_command (ctrl gl p3 p2 p1 p0 : byte) (later : list byte)
    (s : State) :
  gotcommand s = false -> checkremoteused s = false ->
  rx s = command_frame ctrl gl p3 p2 p1 p0 ++ later ->
  Z.testbit (byte_val ctrl) 0 = false ->
  receive s =
  (payload ctrl gl p3 p2 p1 p0, set_gotcommand true (set_rx later s)).
Proof.
  intros Hg Hc Hrx Hq.
  rewrite (receive_frame ctrl gl p3 p2 p1 p0 later s Hg Hc Hrx).
  now rewrite Hq.
Qed.

Lemma loop_command (ctrl gl p3 p2 p1 p0 : byte) (later : list byte)
    (s : State) :
  gotcommand s = false -> checkremoteused s = false ->
  rx s = command_frame ctrl gl p3 p2 p1 p0 ++ later ->
  Z.testbit (byte_val ctrl) 0 = false ->
  loop s =
  set_checkremoteused false (set_gotcommand false (set_limithit false
    (execute (Some limit) (payload ctrl gl p3 p2 p1 p0)
       (set_gotcommand true (set_rx later s))))).
Proof.
  intros Hg Hc Hrx Hq. unfold loop.
  apply cycle_command; [|exact Hc|reflexivity].
  now apply receive_command.
Qed.

Lemma command_xyorz_range (command : list byte) :
  0 <= command_xyorz command <= 3.
Proof.
  rewrite command_xyorz_bits.
  destruct (Z.testbit _ 7), (Z.testbit _ 6); simpl; lia.
Qed.

Lemma loop_command_quiet (ctrl gl p3 p2 p1 p0 : byte) (later : list byte)
    (s : State) :
  gotcommand s = false -> checkremoteused s = false ->
  rx s = command_frame ctrl gl p3 p2 p1 p0 ++ later ->
  Z.testbit (byte_val ctrl) 0 = false ->
  quiet s -> keeppulsing s = true -> limithit s = false ->
  command_xyorz (payload ctrl gl p3 p2 p1 p0) <= 2 ->
  trace (loop s) =
  trace s ++
  DigitalWrite dirpluspin (Z.testbit (byte_val ctrl) 5)
  :: pulse_train (Z.to_nat (command_pulses (payload ctrl gl p3 p2 p1 p0)))
       (axis_pin (command_xyorz (payload ctrl gl p3 p2 p1 p0)))
  ++ [SerialWrite [startbyte; xf0; x00; endbyte]].
Proof.
  intros Hg Hc Hrx Hq Q Hk Hl Ha.
  rewrite (loop_command ctrl gl p3 p2 p1 p0 later s) by assumption.
  cbn [trace set_checkremoteused set_gotcommand set_limithit].
  pose proof (command_xyorz_range (payload ctrl gl p3 p2 p1 p0)).
  rewrite execute_quiet; try assumption; [reflexivity|lia].
Qed.

Lemma command_pulses_all_ones (ctrl gl p3 p2 p1 p0 : byte) :
  command_pulses (payload ctrl gl p3 p2 p1 p0) =
  if Byte.eqb gl xff then 4294967295 else big_endian32 p3 p2 p1 p0.
Proof.
  rewrite command_pulses_value.
  now rewrite <- (gotolimit_all_ones ctrl gl p3 p2 p1 p0).
Qed.

(** C1, as amended: for every 8-byte frame with START and END in place and
    the query bit clear, the decoder marks a command pending and keeps the
    payload; the command's axis is ctrl bits 7-6, its direction ctrl bit 5,
    its go-to-limit flag tells whether the gotoLimit byte is all-ones, and
    its pulse count is the big-endian value of p3..p0 when go-to-limit is
    off and 2^32 - 1 when it is on.  The cycle leaves axis and direction in
    [xyorz] and [posorneg], and with the limit line quiet it writes the
    direction, that many pulses on the axis output, and the success
    frame. *)
Theorem command_round_trip (ctrl gl p3 p2 p1 p0 : byte) (later : list byte)
    (s : State) :
  gotcommand s = false -> checkremoteused s = false ->
  rx s = command_frame ctrl gl p3 p2 p1 p0 ++ later ->
  Z.testbit (byte_val ctrl) 0 = false ->
  receive s =
    (payload ctrl gl p3 p2 p1 p0, set_gotcommand true (set_rx later s)) /\
  command_xyorz (payload ctrl gl p3 p2 p1 p0) =
    2 * Z.b2z (Z.testbit (byte_val ctrl) 7)
    + Z.b2z (Z.testbit (byte_val ctrl) 6) /\
  command_posorneg (payload ctrl gl p3 p2 p1 p0) =
    Z.b2z (Z.testbit (byte_val ctrl) 5) /\
  command_gotolimit (payload ctrl gl p3 p2 p1 p0) = Byte.eqb gl xff /\
  command_pulses (payload ctrl gl p3 p2 p1 p0) =
    (if Byte.eqb gl xff then 4294967295 else big_endian32 p3 p2 p1 p0) /\
  xyorz (loop s) = command_xyorz (payload ctrl gl p3 p2 p1 p0) /\
  posorneg (loop s) = command_posorneg (payload ctrl gl p3 p2 p1 p0) /\
  (quiet s -> keeppulsing s = true -> limithit s = false ->
   command_xyorz (payload ctrl gl p3 p2 p1 p0) <= 2 ->
   trace (loop s) =
   trace s ++
   DigitalWrite dirpluspin (Z.testbit (byte_val ctrl) 5)
   :: pulse_train
        (Z.to_nat
           (if Byte.eqb gl xff then 4294967295
            else big_endian32 p3 p2 p1 p0))
        (axis_pin (command_xyorz (payload ctrl gl p3 p2 p1 p0)))
   ++ [SerialWrite [startbyte; xf0; x00; endbyte]]).
Proof.
  intros Hg Hc Hrx Hq.
  split; [now apply receive_command|].
  split; [apply command_xyorz_bits|].
  split; [apply command_posorneg_bit|].
  split; [apply gotolimit_all_ones|].
  split; [apply command_pulses_all_ones|].
  split; [|split].
  - rewrite (loop_command ctrl gl p3 p2 p1 p0 later s) by assumption.
    cbn [xyorz set_checkremoteused set_gotcommand set_limithit].
    rewrite (execute_spares xyorz) by (spared_tac || reflexivity).
    reflexivity.
  - rewrite (loop_command ctrl gl p3 p2 p1 p0 later s) by assumption.
    cbn [posorneg set_checkremoteused set_gotcommand set_limithit].
    rewrite (execute_spares posorneg) by (spared_tac || reflexivity).
    reflexivity.
  - intros Q Hk Hl Ha. rewrite <- command_pulses_all_ones with (ctrl := ctrl).
    now apply loop_command_quiet with (later := later).
Qed.


(** C1 as first stated fails: the frame is accepted as a command, and its
    pulse count is not the big-endian value of p3..p0. *)
Lemma command_round_trip_counterexample :
  gotcommand (snd (receive bench_gotolimit)) = true /\
  big_endian32 x00 x00 x00 x05 = 5 /\
  command_pulses (fst (receive bench_gotolimit)) = 4294967295 /\
  command_pulses (fst (receive bench_gotolimit)) <>
  big_endian32 x00 x00 x00 x05.
Proof. repeat split. discriminate. Qed.


Lemma command_round_trip_witness :
  command_pulses (payload x40 x00 x00 x00 x00 x03) = 3 /\
  trace (loop bench_move) =
  DigitalWrite dirpluspin LOW :: pulse_train 3 ypulpluspin
  ++ [SerialWrite [startbyte; xf0; x00; endbyte]].
Proof.
  destruct (command_round_trip x40 x00 x00 x00 x00 x03 [] bench_move
              eq_refl eq_refl eq_refl eq_refl)
    as (_ & _ & _ & _ & Hp & _ & _ & Ht).
  split; [exact Hp|].
  apply Ht;
    [reflexivity | reflexivity | reflexivity | vm_compute; discriminate].
Defined.

(** C4: for every accepted command frame whose gotoLimit byte is 0xFF the
    count handed to [pulse] is 2^32 - 1 whatever p3..p0 hold; with the limit
    line quiet the cycle accordingly writes that many pulses on the axis
    output. *)
Theorem gotolimit_overrides_count (ctrl p3 p2 p1 p0 : byte)
    (later : list byte) (s : State) :
  gotcommand s = false -> checkremoteused s = false ->
  rx s = command_frame ctrl xff p3 p2 p1 p0 ++ later ->
  Z.testbit (byte_val ctrl) 0 = false ->
  gotcommand (snd (receive s)) = true /\
  command_pulses (fst (receive s)) = 4294967295 /\
  (quiet s -> keeppulsing s = true -> limithit s = false ->
   command_xyorz (payload ctrl xff p3 p2 p1 p0) <= 2 ->
   trace (loop s) =
   trace s ++
   DigitalWrite dirpluspin (Z.testbit (byte_val ctrl) 5)
   :: pulse_train (Z.to_nat 4294967295)
        (axis_pin (command_xyorz (payload ctrl xff p3 p2 p1 p0)))
   ++ [SerialWrite [startbyte; xf0; x00; endbyte]]).
Proof.
  intros Hg Hc Hrx Hq.
  rewrite (receive_command ctrl xff p3 p2 p1 p0 later s) by assumption.
  cbn [fst snd gotcommand set_gotcommand].
  assert (Hp : command_pulses (payload ctrl xff p3 p2 p1 p0) = 4294967295)
    by (rewrite command_pulses_all_ones; reflexivity).
  split; [reflexivity|]. split; [exact Hp|].
  intros Q Hk Hl Ha. rewrite <- Hp.
  now apply loop_command_quiet with (later := later).
Qed.

Lemma gotolimit_overrides_count_witness :
  command_pulses (fst (receive bench_gotolimit)) = 4294967295.
Proof.
  apply (gotolimit_overrides_count x00 x00 x00 x00 x05 [] bench_gotolimit);
    reflexivity.
Defined.

(** C10: an accepted command frame whose axis bits are 11 drives no step
    output at all: the cycle writes the direction and sends the success
    frame, nothing else. *)
Theorem undefined_axis_reports_success (ctrl gl p3 p2 p1 p0 : byte)
    (later : list byte) (s : State) :
  gotcommand s = false -> checkremoteused s = false -> limithit s = false ->
  rx s = command_frame ctrl gl p3 p2 p1 p0 ++ later ->
  Z.testbit (byte_val ctrl) 0 = false ->
  Z.testbit (byte_val ctrl) 7 = true -> Z.testbit (byte_val ctrl) 6 = true ->
  command_xyorz (payload ctrl gl p3 p2 p1 p0) = 3 /\
  trace (loop s) =
  trace s ++
  [DigitalWrite dirpluspin (Z.testbit (byte_val ctrl) 5);
   SerialWrite [startbyte; xf0; x00; endbyte]].
Proof.
  intros Hg Hc Hl Hrx Hq H7 H6.
  assert (Ha : command_xyorz (payload ctrl gl p3 p2 p1 p0) = 3).
  { rewrite command_xyorz_bits. unfold payload, cmd. cbn [nth].
    now rewrite H7, H6. }
  split; [exact Ha|].
  rewrite (loop_command ctrl gl p3 p2 p1 p0 later s) by assumption.
  rewrite execute_no_axis by exact Ha.
  cbn [trace limithit set_checkremoteused set_gotcommand set_limithit
       set_rx set_xyorz set_posorneg Serial_write digitalWrite emit set_trace].
  rewrite Hl. cbn [andb]. now rewrite <- app_assoc.
Qed.


Lemma undefined_axis_reports_success_witness :
  trace (loop bench_no_axis) =
  [DigitalWrite dirpluspin LOW; SerialWrite [startbyte; xf0; x00; endbyte]].
Proof.
  apply (undefined_axis_reports_success xc0 x00 x00 x00 x00 x03 []
           bench_no_axis); reflexivity.
Defined.

(** ** A command whose burst meets the limit switch *)

Lemma execute_interrupted (command : list byte) (s : State) (j m : nat)
    (rest_irq rest_lim : list bool) :
  keeppulsing s = true -> gotcommand s = true ->
  0 <= command_xyorz command <= 2 ->
  irq s = repeat false j ++ true :: rest_irq ->
  (j <= 3 * Z.to_nat (command_pulses command))%nat ->
  limit_in s = true :: repeat true m ++ false :: rest_lim ->
  exists before after,
    trace (execute (Some limit) command s) =
    trace s ++
    DigitalWrite dirpluspin (Z.testbit (cmd command 0) 5) :: before ++
    DigitalWrite dirpluspin (negb (Z.testbit (cmd command 0) 5))
    :: pulse_train m (axis_pin (command_xyorz command)) ++ after ++
    [SerialWrite [startbyte;
                  if command_gotolimit command then xf0 else x0f;
                  x00; endbyte]]
    /\ writes_on (axis_pin (command_xyorz command)) before = before.
Proof.
  intros Hk Hg Ha Hirq Hj Hlim. unfold execute.
  rewrite command_posorneg_bit.
  revert Hj. generalize (command_pulses command) as pulses.
  generalize (command_gotolimit command) as gotolimit.
  generalize (Z.testbit (cmd command 0) 5) as negative.
  intros negative gotolimit pulses Hj.
  assert (Hax : command_xyorz command = 0 \/ command_xyorz command = 1 \/
                command_xyorz command = 2) by lia.
  destruct s; simpl in Hk, Hg, Hirq, Hlim; subst.
  destruct Hax as [E|[E|E]]; rewrite E; destruct negative;
    cbn -[pulse pulse_train Z.to_nat limit repeat app Nat.mul];
    unfold pulse;
    match goal with
    | |- context [pulse_loop (Some limit) ?n ?pin ?x] =>
        destruct (burst_interrupted n j m rest_irq rest_lim pin x)
          as (before & after & Ht & Hb & Hl);
        [reflexivity | reflexivity | cbn; auto | cbn; lia | reflexivity
        | reflexivity | exact Hj | reflexivity | ]
    end;
    exists before, after; (split; [|exact Hb]);
    cbn [trace limithit set_keeppulsing]; rewrite Ht, Hl;
    destruct gotolimit; cbn -[pulse_train];
    rewrite <- ?app_assoc; cbn -[pulse_train];
    rewrite <- ?app_assoc; reflexivity.
Qed.

(** C2: a command frame is executing, the handler preempts its burst at any
    of the burst's preemption points, finds the limit input asserted at its
    re-check and for [m] further samples.  Then the handler, entered with
    the commanded direction and axis, drives the direction output to the
    opposite of the commanded level, emits [m] single pulses on the active
    axis output (one per asserted sample, stopping at the first LOW one),
    sets [limithit] and clears [keeppulsing]; and the frame sent for the
    command carries 0x0F when go-to-limit was not requested and 0xF0 when it
    was. *)
Theorem limit_hit_walked_off_and_reported (ctrl gl p3 p2 p1 p0 : byte)
    (later : list byte) (s : State) (j m : nat)
    (rest_irq rest_lim : list bool) :
  gotcommand s = false -> checkremoteused s = false ->
  keeppulsing s = true ->
  rx s = command_frame ctrl gl p3 p2 p1 p0 ++ later ->
  Z.testbit (byte_val ctrl) 0 = false ->
  command_xyorz (payload ctrl gl p3 p2 p1 p0) <= 2 ->
  irq s = repeat false j ++ true :: rest_irq ->
  (j <= 3 * Z.to_nat (command_pulses (payload ctrl gl p3 p2 p1 p0)))%nat ->
  limit_in s = true :: repeat true m ++ false :: rest_lim ->
  (forall x,
     gotcommand x = true -> keeppulsing x = true ->
     posorneg x = command_posorneg (payload ctrl gl p3 p2 p1 p0) ->
     xyorz x = command_xyorz (payload ctrl gl p3 p2 p1 p0) ->
     limit_in x = limit_in s ->
     trace (limit x) =
       trace x ++
       DigitalWrite dirpluspin (negb (Z.testbit (byte_val ctrl) 5))
       :: pulse_train m
            (axis_pin (command_xyorz (payload ctrl gl p3 p2 p1 p0))) /\
     limithit (limit x) = true /\ keeppulsing (limit x) = false /\
     limit_in (limit x) = rest_lim) /\
  exists before after,
    trace (loop s) =
    trace s ++
    DigitalWrite dirpluspin (Z.testbit (byte_val ctrl) 5) :: before ++
    DigitalWrite dirpluspin (negb (Z.testbit (byte_val ctrl) 5))
    :: pulse_train m (axis_pin (command_xyorz (payload ctrl gl p3 p2 p1 p0)))
    ++ after ++
    [SerialWrite [startbyte; if Byte.eqb gl xff then xf0 else x0f;
                  x00; endbyte]]
    /\ writes_on (axis_pin (command_xyorz (payload ctrl gl p3 p2 p1 p0)))
         before = before.
Proof.
  intros Hg Hc Hk Hrx Hq Ha Hirq Hj Hlim.
  pose proof (command_xyorz_range (payload ctrl gl p3 p2 p1 p0)) as Hr.
  split.
  - intros x Hgx Hkx Hpx Hxx Hlx. rewrite Hlim in Hlx.
    rewrite command_posorneg_bit in Hpx.
    change (cmd (payload ctrl gl p3 p2 p1 p0) 0) with (byte_val ctrl) in Hpx.
    rewrite (limit_reverses_and_walks m rest_lim x); try assumption.
    + cbn [trace limithit keeppulsing limit_in set_limithit set_keeppulsing
           set_limit_in set_trace].
      rewrite Hpx, Hxx.
      destruct (Z.testbit (byte_val ctrl) 5); repeat split.
    + rewrite Hpx. destruct (Z.testbit (byte_val ctrl) 5); auto.
    + rewrite Hxx. lia.
  - rewrite (loop_command ctrl gl p3 p2 p1 p0 later s) by assumption.
    cbn [trace set_checkremoteused set_gotcommand set_limithit].
    rewrite <- (gotolimit_all_ones ctrl gl p3 p2 p1 p0).
    apply (execute_interrupted (payload ctrl gl p3 p2 p1 p0)
             (set_gotcommand true (set_rx later s)) j m rest_irq rest_lim);
      auto. lia.
Qed.


Lemma limit_hit_walked_off_and_reported_witness :
  exists before after,
    trace (loop bench_limit) =
    DigitalWrite dirpluspin LOW :: before ++
    DigitalWrite dirpluspin HIGH :: pulse_train 2 ypulpluspin ++ after ++
    [SerialWrite [startbyte; x0f; x00; endbyte]]
    /\ writes_on ypulpluspin before = before.
Proof.
  destruct (limit_hit_walked_off_and_reported x40 x00 x00 x00 x00 x03 []
              bench_limit 4 2 [] [])
    as [_ H]; try reflexivity.
  - vm_compute. discriminate.
  - vm_compute. lia.
  - exact H.
Defined.

(** ** Decoder and joystick within a cycle *)


Lemma receive_effect (s : State) :
  exists bytes g c,
    snd (receive s) =
    set_checkremoteused c (set_gotcommand g (set_rx bytes s)).
Proof.
  assert (Hsame : exists bytes g c,
            s = set_checkremoteused c (set_gotcommand g (set_rx bytes s)))
    by (exists (rx s), (gotcommand s), (checkremoteused s);
        destruct s; reflexivity).
  unfold receive, Serial_read, Serial_readBytes.
  destruct (_ && _); [|exact Hsame].
  destruct (rx s) as [|first later] eqn:Hrx; [exact Hsame|].
  destruct (byte_val first =? byte_val startbyte).
  - cbn [rx set_rx].
    destruct (_ =? byte_val endbyte);
      [destruct (_ =? 1)|].
    + exists (skipn 7 later), (gotcommand s), true.
      destruct s; reflexivity.
    + exists (skipn 7 later), true, (checkremoteused s).
      destruct s; reflexivity.
    + exists (skipn 7 later), (gotcommand s), (checkremoteused s).
      destruct s; reflexivity.
  - exists later, (gotcommand s), (checkremoteused s).
    destruct s; reflexivity.
Qed.

Lemma receive_nothing_pending (s : State) :
  gotcommand (snd (receive s)) = false ->
  checkremoteused (snd (receive s)) = false ->
  exists bytes,
    snd (receive s) =
    set_checkremoteused false (set_gotcommand false (set_rx bytes s)).
Proof.
  destruct (receive_effect s) as (bytes & g & c & E). rewrite E.
  cbn [gotcommand checkremoteused set_checkremoteused set_gotcommand].
  intros -> ->. now exists bytes.
Qed.

Lemma loop_joystick (s : State) :
  gotcommand (snd (receive s)) = false ->
  checkremoteused (snd (receive s)) = false ->
  exists bytes,
    loop s =
    set_checkremoteused false (set_gotcommand false (set_limithit false
      (joystick (Some limit)
         (set_checkremoteused false (set_gotcommand false
            (set_rx bytes s)))))).
Proof.
  intros Hg Hc.
  destruct (receive_nothing_pending s Hg Hc) as (bytes & E).
  exists bytes. rewrite <- E.
  destruct (receive s) as [command s'] eqn:Er. cbn [snd] in *.
  unfold loop. now apply cycle_joystick with (command := command).
Qed.

Lemma burst_frames (pulses pin : Z) (s : State) :
  frames (trace (pulse (Some limit) pulses pin s)) = frames (trace s).
Proof.
  exact (spared_burst (fun x => frames (trace x)) spared_frames _ _ _).
Qed.

Lemma grows_burst (pulses pin : Z) (s : State) :
  grows s (pulse (Some limit) pulses pin s).
Proof. apply (tolerated_burst grows); grows_tac. Qed.

Lemma joystick_read_state (s : State) :
  joystick_read s =
  set_udvalue (stick_ud s) (set_lrvalue (stick_lr s)
    (set_adc_reads (S (S (adc_reads s))) (set_gotcommand true s))).
Proof. destruct s; reflexivity. Qed.

Lemma joystick_done_trace (s : State) : trace (joystick_done s) = trace s.
Proof. unfold joystick_done. destruct (remoteinuse s); reflexivity. Qed.

Ltac stick_cases :=
  unfold joystick_move;
  repeat match goal with
         | |- context [if ?c then _ else _] => destruct c eqn:?
         end;
  cbv zeta.

(** The joystick branch sends no frame, and only appends to the trace. *)
Lemma joystick_move_frames (s : State) :
  frames (trace (joystick_move (Some limit) s)) = frames (trace s).
Proof.
  stick_cases; try reflexivity;
    cbn [trace set_remoteinuse]; rewrite burst_frames;
    cbn [trace set_xyorz set_posorneg directionnegative directionpositive
         digitalWrite emit set_trace];
    unfold frames; rewrite filter_app; cbn [filter is_frame];
    apply app_nil_r.
Qed.

Lemma joystick_move_extends (s : State) :
  exists moves, trace (joystick_move (Some limit) s) = trace s ++ moves.
Proof.
  stick_cases; try (exists []; now rewrite app_nil_r);
    cbn [trace set_remoteinuse];
    match goal with
    | |- context [pulse (Some limit) ?p ?pin ?x] =>
        destruct (grows_burst p pin x) as [[ext Ht] _]; rewrite Ht
    end;
    cbn [trace set_xyorz set_posorneg directionnegative directionpositive
         digitalWrite emit set_trace];
    rewrite <- app_assoc; eexists; reflexivity.
Qed.

Lemma joystick_move_keeppulsing (isr : option (State -> State))
    (s : State) :
  keeppulsing s = true -> keeppulsing (joystick_move isr s) = true.
Proof. intros Hk. stick_cases; auto. Qed.

Lemma joystick_frames (s : State) :
  frames (trace (joystick (Some limit) s)) = frames (trace s).
Proof.
  unfold joystick.
  rewrite joystick_done_trace, joystick_move_frames, joystick_read_state.
  reflexivity.
Qed.

Lemma joystick_extends (s : State) :
  exists moves, trace (joystick (Some limit) s) = trace s ++ moves.
Proof.
  unfold joystick. rewrite joystick_done_trace.
  destruct (joystick_move_extends (joystick_read s)) as [moves E].
  exists moves. rewrite E, joystick_read_state. reflexivity.
Qed.

Lemma joystick_resets (isr : option (State -> State)) (s : State) :
  remoteinuse (joystick isr s) = false /\
  (keeppulsing s = true -> keeppulsing (joystick isr s) = true).
Proof.
  unfold joystick. split; [reflexivity|]. intros Hk.
  unfold joystick_done.
  cbn [keeppulsing set_remoteinuse set_remoteinuselast].
  assert (K : keeppulsing (joystick_move isr (joystick_read s)) = true)
    by (apply joystick_move_keeppulsing; rewrite joystick_read_state;
        exact Hk).
  destruct (remoteinuse _); exact K.
Qed.

Lemma execute_keeppulsing (isr : option (State -> State))
    (command : list byte) (s : State) :
  keeppulsing s = true -> keeppulsing (execute isr command s) = true.
Proof.
  intros Hk. unfold execute, directionpositive, directionnegative.
  cbn [keeppulsing Serial_write emit set_trace].
  repeat match goal with
         | |- context [if ?c then _ else _] => destruct c
         end;
    auto.
Qed.

(** ** Flags at the cycle boundary *)

Lemma loop_restores (s : State) :
  keeppulsing s = true -> remoteinuse s = false -> cycle_start (loop s).
Proof.
  intros Hk Hr. unfold loop, cycle.
  destruct (receive_effect s) as (bytes & g & c & E).
  destruct (receive s) as [command s1]. cbn [snd] in E. subst s1.
  set (s1 := set_checkremoteused c (set_gotcommand g (set_rx bytes s))).
  set (s2 := if checkremoteused s1 then remote_reply s1 else s1).
  assert (K2 : keeppulsing s2 = true /\ remoteinuse s2 = false)
    by (subst s2 s1; destruct c; cbn; auto).
  destruct K2 as [Hk2 Hr2].
  set (s3 := if gotcommand s2 then execute (Some limit) command s2
             else joystick (Some limit) s2).
  assert (K3 : keeppulsing s3 = true /\ remoteinuse s3 = false).
  { subst s3. destruct (gotcommand s2).
    - split; [now apply execute_keeppulsing|].
      rewrite (execute_spares remoteinuse) by (spared_tac || reflexivity).
      exact Hr2.
    - destruct (joystick_resets (Some limit) s2) as [R K]. auto. }
  unfold cycle_start.
  cbn [gotcommand checkremoteused limithit remoteinuse keeppulsing
       set_checkremoteused set_gotcommand set_limithit].
  tauto.
Qed.


(** ** Serving the handler outside the bursts

    With the handler detached, [cycle_anywhere] is [cycle]. *)

Lemma receive_anywhere_detached (s : State) :
  receive_anywhere None s = receive s.
Proof. unfold receive_anywhere, receive, preempt. reflexivity. Qed.

Lemma remote_reply_anywhere_detached (s : State) :
  remote_reply_anywhere None s = remote_reply s.
Proof. unfold remote_reply_anywhere, remote_reply, preempt. reflexivity. Qed.

Lemma execute_anywhere_detached (command : list byte) (s : State) :
  execute_anywhere None command s = execute None command s.
Proof. unfold execute_anywhere, execute, preempt. reflexivity. Qed.

Lemma joystick_anywhere_detached (s : State) :
  joystick_anywhere None s = joystick None s.
Proof.
  unfold joystick_anywhere, joystick, joystick_done_anywhere, joystick_done,
    joystick_move_anywhere, joystick_move, joystick_read_anywhere,
    joystick_read, preempt.
  reflexivity.
Qed.

Lemma cycle_anywhere_detached (s : State) :
  cycle_anywhere None s = cycle None s.
Proof.
  unfold cycle_anywhere, cycle. rewrite receive_anywhere_detached.
  destruct (receive s) as [command s1].
  rewrite remote_reply_anywhere_detached.
  destruct (checkremoteused s1);
    rewrite execute_anywhere_detached, joystick_anywhere_detached;
    reflexivity.
Qed.

(** Wherever the handler is served, the main part of the state moves as it
    does in [loop]: the two cycles stay in step on everything the handler
    cannot touch. *)

Lemma spared_preempt {A : Type} (f : State -> A) :
  spared f -> forall s, f (preempt (Some limit) s) = f s.
Proof.
  intros Hf s. pose proof Hf as (H1 & H2 & H3 & H4 & H5). symmetry.
  apply (tolerated_preempt (fun a b => f a = f b)); intros; auto;
    try congruence.
  symmetry. now apply spared_limit.
Qed.

Lemma spared_main_part : spared main_part.
Proof. spared_tac. Qed.

Lemma same_main_fields (a b : State) :
  same_main a b ->
  posorneg a = posorneg b /\ xyorz a = xyorz b /\
  gotcommand a = gotcommand b /\ remoteinuse a = remoteinuse b /\
  remoteinuselast a = remoteinuselast b /\ remoteused a = remoteused b /\
  checkremoteused a = checkremoteused b /\ lrvalue a = lrvalue b /\
  udvalue a = udvalue b /\ rx a = rx b /\ lr_in a = lr_in b /\
  ud_in a = ud_in b /\ adc_reads a = adc_reads b.
Proof.
  unfold same_main, main_part. intros H. injection H. intros.
  repeat split; assumption.
Qed.

Lemma same_main_preempt (a b : State) :
  same_main a b -> same_main (preempt (Some limit) a) b.
Proof.
  unfold same_main. intros H.
  now rewrite (spared_preempt main_part spared_main_part).
Qed.

Lemma same_main_pulse (n1 n2 p1 p2 : Z) (a b : State) :
  same_main a b ->
  same_main (pulse (Some limit) n1 p1 a) (pulse (Some limit) n2 p2 b).
Proof.
  unfold same_main. intros H.
  now rewrite !(spared_burst main_part spared_main_part).
Qed.

Lemma same_main_frame (f g : list byte) (a b : State) :
  same_main a b -> same_main (Serial_write f a) (Serial_write g b).
Proof. intros H. exact H. Qed.

Lemma same_main_write (p1 p2 : Z) (l1 l2 : bool) (a b : State) :
  same_main a b -> same_main (digitalWrite p1 l1 a) (digitalWrite p2 l2 b).
Proof. intros H. exact H. Qed.

Lemma same_main_update (u : State -> State) (a b : State) :
  (forall s, main_part (u s) = u (main_part s)) ->
  same_main a b -> same_main (u a) (u b).
Proof. unfold same_main. intros Hu H. now rewrite !Hu, H. Qed.

Ltac state_fields :=
  cbn [posorneg xyorz keeppulsing limithit gotcommand remoteinuse
       remoteinuselast remoteused checkremoteused lrvalue udvalue rx
       limit_in irq lr_in ud_in adc_reads trace
       set_posorneg set_xyorz set_keeppulsing set_limithit
       set_gotcommand set_remoteinuse set_remoteinuselast
       set_remoteused set_checkremoteused set_lrvalue set_udvalue
       set_rx set_limit_in set_irq set_adc_reads set_trace
       digitalWrite directionnegative directionpositive
       Serial_write emit].

Ltac handler_blind :=
  repeat match goal with
         | |- context [?f (preempt (Some limit) ?x)] =>
             rewrite (spared_preempt f) by spared_tac
         | |- context [?f (pulse (Some limit) ?n ?p ?x)] =>
             rewrite (spared_burst f) by spared_tac
         end.

Ltac main_values := repeat (progress (handler_blind; state_fields)).

Ltac lockstep :=
  repeat match goal with
         | H : same_main ?a ?b |- same_main ?a ?b => exact H
         | |- same_main (preempt _ _) _ => apply same_main_preempt
         | |- same_main (pulse _ _ _ _) (pulse _ _ _ _) =>
             apply same_main_pulse
         | |- same_main (Serial_write _ _) (Serial_write _ _) =>
             apply same_main_frame
         | |- same_main (digitalWrite _ _ _) (digitalWrite _ _ _) =>
             apply same_main_write
         | |- same_main (?f ?v ?x) (?f ?v ?y) =>
             apply (same_main_update (f v)); [intro; reflexivity|]
         end.

Lemma receive_anywhere_main (a b : State) :
  same_main a b ->
  fst (receive_anywhere (Some limit) a) = fst (receive b) /\
  same_main (snd (receive_anywhere (Some limit) a)) (snd (receive b)).
Proof.
  intros H.
  pose proof (same_main_fields _ _ H)
    as (_ & _ & Eg & _ & _ & _ & Ec & _ & _ & Er & _).
  unfold receive_anywhere, receive, Serial_available, Serial_read,
    Serial_readBytes.
  rewrite Eg, Ec, Er.
  destruct ((Z.of_nat (length (rx b)) >? 0)
            && (negb (gotcommand b) && negb (checkremoteused b)));
    [|split; [reflexivity|exact H]].
  rewrite (spared_preempt rx) by spared_tac. rewrite Er.
  destruct (rx b) as [|first later]; cbv beta iota zeta.
  - change (-1 =? byte_val startbyte) with false. cbv iota.
    split; [reflexivity|]. cbn [snd]. lockstep.
  - destruct (byte_val first =? byte_val startbyte);
      [|split; [reflexivity|cbn [snd]; lockstep]].
    main_values.
    repeat match goal with
           | |- context [if ?c =? ?d then _ else _] => destruct (c =? d)
           end;
      (split; [reflexivity|cbn [snd]; lockstep]).
Qed.

Lemma remote_reply_anywhere_main (a b : State) :
  same_main a b ->
  same_main (remote_reply_anywhere (Some limit) a) (remote_reply b).
Proof.
  intros H. unfold remote_reply_anywhere, remote_reply. cbv zeta. lockstep.
Qed.

Lemma execute_anywhere_main (command : list byte) (a b : State) :
  same_main a b ->
  same_main (execute_anywhere (Some limit) command a)
            (execute (Some limit) command b).
Proof.
  intros H. unfold execute_anywhere, execute. cbv zeta.
  cbn [posorneg set_posorneg xyorz set_xyorz].
  unfold directionpositive, directionnegative.
  repeat match goal with
         | |- context [if ?c =? ?d then _ else _] => destruct (c =? d)
         end;
    lockstep.
Qed.

Lemma joystick_read_anywhere_main (a b : State) :
  same_main a b ->
  same_main (joystick_read_anywhere (Some limit) a) (joystick_read b).
Proof.
  intros H.
  pose proof (same_main_fields _ _ H)
    as (_ & _ & _ & _ & _ & _ & _ & _ & _ & _ & El & Eu & Ea).
  unfold joystick_read_anywhere, joystick_read, analogRead.
  cbv beta iota zeta. main_values. rewrite El, Eu, Ea. lockstep.
Qed.

Lemma joystick_move_anywhere_main (a b : State) :
  same_main a b ->
  same_main (joystick_move_anywhere (Some limit) a)
            (joystick_move (Some limit) b).
Proof.
  intros H.
  pose proof (same_main_fields _ _ H)
    as (_ & _ & _ & _ & _ & _ & _ & El & Eu & _).
  unfold joystick_move_anywhere, joystick_move. rewrite El, Eu.
  unfold directionpositive, directionnegative.
  repeat match goal with
         | |- context [if ?c then _ else _] => destruct c
         end;
    cbv zeta; lockstep.
Qed.

Lemma joystick_done_anywhere_main (a b : State) :
  same_main a b ->
  same_main (joystick_done_anywhere (Some limit) a) (joystick_done b).
Proof.
  intros H. pose proof (same_main_fields _ _ H) as (_ & _ & _ & E & _).
  unfold joystick_done_anywhere, joystick_done. cbv zeta.
  rewrite E. destruct (remoteinuse b) eqn:Eb; main_values;
    rewrite ?E, ?Eb; lockstep.
Qed.

Lemma joystick_anywhere_main (a b : State) :
  same_main a b ->
  same_main (joystick_anywhere (Some limit) a) (joystick (Some limit) b).
Proof.
  intros H. unfold joystick_anywhere, joystick.
  now apply joystick_done_anywhere_main, joystick_move_anywhere_main,
    joystick_read_anywhere_main.
Qed.

Lemma loop_anywhere_main (a b : State) :
  same_main a b -> same_main (loop_anywhere a) (loop b).
Proof.
  intros H. unfold loop_anywhere, loop, cycle_anywhere, cycle.
  destruct (receive_anywhere_main a b H) as [Ec Es].
  destruct (receive_anywhere (Some limit) a) as [c1 a1].
  destruct (receive b) as [c2 b1]. cbn [fst snd] in Ec, Es. subst c2.
  pose proof (same_main_fields _ _ Es)
    as (_ & _ & _ & _ & _ & _ & Ec1 & _).
  rewrite Ec1.
  assert (E2 : same_main
                 (if checkremoteused b1
                  then remote_reply_anywhere (Some limit) a1 else a1)
                 (if checkremoteused b1 then remote_reply b1 else b1))
    by (destruct (checkremoteused b1);
        [now apply remote_reply_anywhere_main|exact Es]).
  revert E2.
  generalize (if checkremoteused b1
              then remote_reply_anywhere (Some limit) a1 else a1).
  generalize (if checkremoteused b1 then remote_reply b1 else b1).
  intros b2 a2 E2.
  pose proof (same_main_fields _ _ E2) as (_ & _ & Eg2 & _).
  rewrite Eg2. cbv zeta.
  assert (E3 : same_main
                 (if gotcommand b2
                  then execute_anywhere (Some limit) c1 a2
                  else joystick_anywhere (Some limit) a2)
                 (if gotcommand b2 then execute (Some limit) c1 b2
                  else joystick (Some limit) b2))
    by (destruct (gotcommand b2);
        [now apply execute_anywhere_main|now apply joystick_anywhere_main]).
  lockstep.
Qed.

Lemma run_anywhere_main (cycles : nat) :
  forall a b, same_main a b ->
  same_main (run_anywhere cycles a) (run cycles b).
Proof.
  induction cycles as [|k IH]; intros a b H; [exact H|].
  cbn [run_anywhere run]. now apply IH, loop_anywhere_main.
Qed.




(** ** The joystick branch *)

Lemma joystick_move_quiet (s : State) :
  quiet s -> keeppulsing s = true ->
  trace (joystick_move (Some limit) s) =
  trace s ++
  (if lrvalue s - 700 >? 200
   then DigitalWrite dirpluspin HIGH :: pulse_pair xpulpluspin
   else if lrvalue s - 700 <? -400
   then DigitalWrite dirpluspin LOW :: pulse_pair xpulpluspin
   else if udvalue s - 700 >? 200
   then DigitalWrite dirpluspin LOW :: pulse_pair ypulpluspin
   else if udvalue s - 700 <? -300
   then DigitalWrite dirpluspin HIGH :: pulse_pair ypulpluspin
   else []).
Proof.
  intros Q Hk. unfold joystick_move.
  repeat match goal with
         | |- context [if ?c then _ else _] => destruct c
         end;
    cbv zeta; try (now rewrite app_nil_r);
    cbn [trace set_remoteinuse];
    match goal with
    | |- context [pulse (Some limit) ?p ?pin ?x] =>
        destruct (pulse_quiet limit p pin x Q Hk) as (r & Qr & Er);
        rewrite Er
    end;
    change (Z.to_nat 1) with 1%nat;
    cbn [trace set_irq set_trace set_xyorz set_posorneg directionnegative
         directionpositive digitalWrite emit pulse_train];
    rewrite <- app_assoc, app_nil_r; reflexivity.
Qed.

Lemma joystick_rest (isr : option (State -> State)) (s : State) :
  -400 <= stick_lr s - 700 <= 200 -> -300 <= stick_ud s - 700 <= 200 ->
  remoteinuse s = false ->
  joystick isr s =
  set_remoteinuse false (set_remoteinuselast false (joystick_read s)).
Proof.
  intros Hlr Hud Hr. unfold joystick.
  assert (E : joystick_move isr (joystick_read s) = joystick_read s).
  { unfold joystick_move. rewrite joystick_read_state.
    cbn [lrvalue udvalue set_udvalue set_lrvalue].
    destruct (stick_lr s - 700 >? 200) eqn:E1;
      [apply Z.gtb_lt in E1; lia|].
    destruct (stick_lr s - 700 <? -400) eqn:E2;
      [apply Z.ltb_lt in E2; lia|].
    destruct (stick_ud s - 700 >? 200) eqn:E3;
      [apply Z.gtb_lt in E3; lia|].
    destruct (stick_ud s - 700 <? -300) eqn:E4;
      [apply Z.ltb_lt in E4; lia|].
    reflexivity. }
  assert (Hr' : remoteinuse (joystick_read s) = false)
    by (rewrite joystick_read_state; exact Hr).
  rewrite E. unfold joystick_done. rewrite Hr'. cbv zeta. now rewrite Hr'.
Qed.

Lemma loop_joystick_quiet (s : State) :
  gotcommand (snd (receive s)) = false ->
  checkremoteused (snd (receive s)) = false ->
  quiet s -> keeppulsing s = true ->
  trace (loop s) =
  trace s ++
  (if stick_lr s - 700 >? 200
   then DigitalWrite dirpluspin HIGH :: pulse_pair xpulpluspin
   else if stick_lr s - 700 <? -400
   then DigitalWrite dirpluspin LOW :: pulse_pair xpulpluspin
   else if stick_ud s - 700 >? 200
   then DigitalWrite dirpluspin LOW :: pulse_pair ypulpluspin
   else if stick_ud s - 700 <? -300
   then DigitalWrite dirpluspin HIGH :: pulse_pair ypulpluspin
   else []).
Proof.
  intros Hg Hc Q Hk.
  destruct (loop_joystick s Hg Hc) as (bytes & E). rewrite E.
  rewrite trace_cycle_end.
  unfold joystick. rewrite joystick_done_trace.
  rewrite joystick_move_quiet;
    [|rewrite joystick_read_state; exact Q
     |rewrite joystick_read_state; exact Hk].
  rewrite joystick_read_state. reflexivity.
Qed.

(** C6: in a cycle where the decoder leaves nothing pending and the limit
    line stays quiet, a left-right reading of 1000 makes the cycle write
    the negative direction level and exactly one pulse on X; a reading of
    250 the positive level and exactly one pulse on X; readings of both
    channels inside the deadzone write nothing; a left-right reading
    outside its deadzone moves X whatever up-down reads; and in every case
    the cycle writes either nothing or one direction level and one pulse on
    a single axis output. *)
Theorem joystick_moves_one_axis (s : State) :
  gotcommand (snd (receive s)) = false ->
  checkremoteused (snd (receive s)) = false ->
  quiet s -> keeppulsing s = true ->
  (stick_lr s = 1000 ->
   trace (loop s) =
   trace s ++ DigitalWrite dirpluspin HIGH :: pulse_pair xpulpluspin) /\
  (stick_lr s = 250 ->
   trace (loop s) =
   trace s ++ DigitalWrite dirpluspin LOW :: pulse_pair xpulpluspin) /\
  (-400 <= stick_lr s - 700 <= 200 -> -300 <= stick_ud s - 700 <= 200 ->
   trace (loop s) = trace s) /\
  (stick_lr s - 700 > 200 \/ stick_lr s - 700 < -400 ->
   trace (loop s) =
   trace s ++
   DigitalWrite dirpluspin (stick_lr s - 700 >? 200)
   :: pulse_pair xpulpluspin) /\
  (exists moves,
     trace (loop s) = trace s ++ moves /\
     (moves = [] \/
      exists level pin,
        (pin = xpulpluspin \/ pin = ypulpluspin) /\
        moves = DigitalWrite dirpluspin level :: pulse_pair pin)).
Proof.
  intros Hg Hc Q Hk. rewrite (loop_joystick_quiet s Hg Hc Q Hk).
  split; [|split; [|split; [|split]]].
  - intros ->. reflexivity.
  - intros ->. reflexivity.
  - intros Hlr Hud.
    destruct (stick_lr s - 700 >? 200) eqn:E1;
      [apply Z.gtb_lt in E1; lia|].
    destruct (stick_lr s - 700 <? -400) eqn:E2;
      [apply Z.ltb_lt in E2; lia|].
    destruct (stick_ud s - 700 >? 200) eqn:E3;
      [apply Z.gtb_lt in E3; lia|].
    destruct (stick_ud s - 700 <? -300) eqn:E4;
      [apply Z.ltb_lt in E4; lia|].
    apply app_nil_r.
  - intros Hlr.
    destruct (stick_lr s - 700 >? 200) eqn:E1; [reflexivity|].
    destruct (stick_lr s - 700 <? -400) eqn:E2; [reflexivity|].
    rewrite Z.gtb_ltb in E1. apply Z.ltb_ge in E1, E2. lia.
  - eexists. split; [reflexivity|].
    repeat match goal with
           | |- context [if ?c then _ else _] => destruct c
           end;
      auto; right; eauto.
Qed.


Lemma joystick_moves_one_axis_witness :
  trace (loop bench_right) =
    DigitalWrite dirpluspin HIGH :: pulse_pair xpulpluspin /\
  trace (loop bench_left) =
    DigitalWrite dirpluspin LOW :: pulse_pair xpulpluspin /\
  trace (loop bench_rest) = [].
Proof.
  split; [|split].
  - destruct (joystick_moves_one_axis bench_right
                eq_refl eq_refl eq_refl eq_refl) as (H & _).
    exact (H eq_refl).
  - destruct (joystick_moves_one_axis bench_left
                eq_refl eq_refl eq_refl eq_refl) as (_ & H & _).
    exact (H eq_refl).
  - destruct (joystick_moves_one_axis bench_rest
                eq_refl eq_refl eq_refl eq_refl) as (_ & _ & H & _).
    apply H; vm_compute; split; discriminate.
Defined.

(** ** Remote-used queries *)

Lemma loop_query (ctrl gl p3 p2 p1 p0 : byte) (later : list byte)
    (s : State) :
  gotcommand s = false -> checkremoteused s = false ->
  rx s = command_frame ctrl gl p3 p2 p1 p0 ++ later ->
  Z.testbit (byte_val ctrl) 0 = true ->
  loop s =
  set_checkremoteused false (set_gotcommand false (set_limithit false
    (joystick (Some limit)
       (remote_reply (set_checkremoteused true (set_rx later s)))))).
Proof.
  intros Hg Hc Hrx Hq. unfold loop.
  apply cycle_query with (command := payload ctrl gl p3 p2 p1 p0);
    [|reflexivity|exact Hg].
  rewrite (receive_frame ctrl gl p3 p2 p1 p0 later s Hg Hc Hrx).
  now rewrite Hq.
Qed.

Lemma remote_reply_trace (s : State) :
  trace (remote_reply s) =
  trace s ++
  [SerialWrite [startbyte; x00; if remoteused s then x01 else x00; endbyte]].
Proof. reflexivity. Qed.

(** A query cycle during which the stick rests. *)
Lemma loop_query_rest (ctrl gl p3 p2 p1 p0 : byte) (later : list byte)
    (s : State) :
  cycle_start s ->
  rx s = command_frame ctrl gl p3 p2 p1 p0 ++ later ->
  Z.testbit (byte_val ctrl) 0 = true ->
  -400 <= stick_lr s - 700 <= 200 -> -300 <= stick_ud s - 700 <= 200 ->
  loop s =
  set_remoteinuselast false
    (set_udvalue (stick_ud s) (set_lrvalue (stick_lr s)
       (set_adc_reads (S (S (adc_reads s)))
          (set_remoteused false (set_rx later
             (set_trace
                (trace s ++
                 [SerialWrite [startbyte; x00;
                               if remoteused s then x01 else x00; endbyte]])
                s)))))).
Proof.
  intros (Hg & Hc & Hl & Hr & Hk) Hrx Hq Hlr Hud.
  rewrite (loop_query ctrl gl p3 p2 p1 p0 later s Hg Hc Hrx Hq).
  rewrite joystick_rest; [| exact Hlr | exact Hud | exact Hr].
  rewrite joystick_read_state.
  unfold stick_lr, stick_ud in *.
  destruct s; cbn in Hg, Hc, Hl, Hr, Hk |- *; subst. reflexivity.
Qed.

(** C7: a remote-used query received while [remoteused] is set is answered
    with [START 00 01 END] and clears the flag; with no joystick move in
    that cycle, the query that follows immediately is answered with
    [START 00 00 END] (before whatever the joystick branch of that second
    cycle writes to the pins). *)
Theorem remote_query_reports_then_clears
    (c1 g1 a3 a2 a1 a0 c2 g2 b3 b2 b1 b0 : byte) (later : list byte)
    (s : State) :
  cycle_start s -> remoteused s = true ->
  rx s = command_frame c1 g1 a3 a2 a1 a0 ++
         command_frame c2 g2 b3 b2 b1 b0 ++ later ->
  Z.testbit (byte_val c1) 0 = true -> Z.testbit (byte_val c2) 0 = true ->
  -400 <= stick_lr s - 700 <= 200 -> -300 <= stick_ud s - 700 <= 200 ->
  trace (loop s) = trace s ++ [SerialWrite [startbyte; x00; x01; endbyte]] /\
  remoteused (loop s) = false /\
  exists moves,
    trace (loop (loop s)) =
    trace s ++
    [SerialWrite [startbyte; x00; x01; endbyte];
     SerialWrite [startbyte; x00; x00; endbyte]] ++ moves /\
    frames moves = [].
Proof.
  intros Hs Hu Hrx H1 H2 Hlr Hud.
  pose proof (loop_query_rest c1 g1 a3 a2 a1 a0 _ s Hs Hrx H1 Hlr Hud) as E1.
  rewrite Hu in E1. rewrite E1.
  split; [reflexivity|]. split; [reflexivity|].
  match goal with
  | |- context [loop ?x] =>
      rewrite (loop_query c2 g2 b3 b2 b1 b0 later x);
      [| apply Hs | apply Hs | reflexivity | exact H2]
  end.
  rewrite trace_cycle_end.
  match goal with
  | |- context [joystick (Some limit) ?x] =>
      destruct (joystick_extends x) as [moves Em];
      pose proof (joystick_frames x) as Ef
  end.
  rewrite Em in Ef |- *. exists moves.
  rewrite remote_reply_trace in Ef |- *.
  split.
  - cbn [trace remoteused set_checkremoteused set_rx set_remoteinuselast
         set_udvalue set_lrvalue set_adc_reads set_remoteused set_trace].
    now rewrite <- !app_assoc.
  - unfold frames in Ef |- *. rewrite filter_app in Ef.
    rewrite <- (app_nil_r (filter is_frame (_ ++ [_]))) in Ef at 2.
    now apply app_inv_head in Ef.
Qed.


Lemma remote_query_reports_then_clears_witness :
  trace (loop bench_query) = [SerialWrite [startbyte; x00; x01; endbyte]] /\
  remoteused (loop bench_query) = false /\
  exists moves,
    trace (loop (loop bench_query)) =
    [SerialWrite [startbyte; x00; x01; endbyte];
     SerialWrite [startbyte; x00; x00; endbyte]] ++ moves /\
    frames moves = [].
Proof.
  apply (remote_query_reports_then_clears
           x01 x00 x00 x00 x00 x00 x01 x00 x00 x00 x00 x00 [] bench_query);
    try reflexivity.
  - repeat split.
  - vm_compute. split; discriminate.
  - vm_compute. split; discriminate.
Defined.

(** ** Malformed frames *)

Lemma readBytes_last (bytes : list byte) :
  nth 6 (firstn 7 bytes ++ skipn (length (firstn 7 bytes)) no_command) x00 =
  nth 6 bytes x00.
Proof.
  do 7 (destruct bytes as [|? bytes]; [reflexivity|]). reflexivity.
Qed.

Lemma byte_val_differs (a b : byte) :
  a <> b -> (byte_val a =? byte_val b) = false.
Proof.
  intros Hne. apply Z.eqb_neq. intros E. apply Hne.
  unfold byte_val in E. apply N2Z.inj in E.
  assert (Ho : Byte.of_N (Byte.to_N a) = Byte.of_N (Byte.to_N b))
    by now rewrite E.
  rewrite !Byte.of_to_N in Ho. now inversion Ho.
Qed.

Lemma receive_rejects (s : State) :
  gotcommand s = false -> checkremoteused s = false ->
  (exists first later, rx s = first :: later /\ first <> startbyte) \/
  (exists bytes, rx s = startbyte :: bytes /\ nth 6 bytes x00 <> endbyte) ->
  gotcommand (snd (receive s)) = false /\
  checkremoteused (snd (receive s)) = false.
Proof.
  intros Hg Hc [(first & later & Hrx & Hne)|(bytes & Hrx & Hne)];
    unfold receive, Serial_available, Serial_read;
    rewrite Hrx, Hg, Hc; cbn [negb andb length];
    rewrite Nat2Z.inj_succ;
    replace (Z.succ (Z.of_nat (length _)) >? 0) with true
      by (symmetry; apply Z.gtb_lt; lia).
  - rewrite (byte_val_differs first startbyte Hne).
    cbn [snd gotcommand checkremoteused set_rx]. auto.
  - rewrite Z.eqb_refl.
    unfold Serial_readBytes, cmd. cbn [rx set_rx].
    rewrite readBytes_last.
    rewrite (byte_val_differs _ endbyte Hne).
    cbn [snd gotcommand checkremoteused set_rx]. auto.
Qed.

(** C5: when the byte read first is not START, or the seventh byte read
    after a START is not END (a frame cut short leaves 0 in that cell), the
    decoder leaves no command and no query pending and the cycle sends no
    frame. *)
Theorem malformed_frame_dropped (s : State) :
  gotcommand s = false -> checkremoteused s = false ->
  (exists first later, rx s = first :: later /\ first <> startbyte) \/
  (exists bytes, rx s = startbyte :: bytes /\ nth 6 bytes x00 <> endbyte) ->
  gotcommand (snd (receive s)) = false /\
  checkremoteused (snd (receive s)) = false /\
  frames (trace (loop s)) = frames (trace s).
Proof.
  intros Hg Hc Hbad.
  destruct (receive_rejects s Hg Hc Hbad) as [Hg' Hc'].
  split; [exact Hg'|]. split; [exact Hc'|].
  destruct (loop_joystick s Hg' Hc') as (bytes & E). rewrite E.
  rewrite trace_cycle_end, joystick_frames. reflexivity.
Qed.


Lemma malformed_frame_dropped_witness :
  frames (trace (loop bench_bad_start)) = [] /\
  frames (trace (loop bench_bad_end)) = [].
Proof.
  split.
  - apply (malformed_frame_dropped bench_bad_start);
      [reflexivity | reflexivity |].
    left. exists x08, [x40; x00; x00; x00; x00; x03; x0a].
    split; [reflexivity | discriminate].
  - apply (malformed_frame_dropped bench_bad_end);
      [reflexivity | reflexivity |].
    right. exists [x40; x00; x00; x00; x00; x03; x0b].
    split; [reflexivity | discriminate].
Defined.

(** ** The handler's guard during bursts *)

Lemma limit_guard_satisfied (s : State) :
  gotcommand s = true -> limit s = limit_unguarded s.
Proof.
  intros Hg. unfold limit, limit_unguarded, digitalRead_limit.
  destruct (limit_in s) as [|[] later]; try reflexivity.
  now replace (gotcommand (set_limit_in later s)) with true.
Qed.

Lemma limit_keeps_gotcommand (s : State) :
  gotcommand (limit s) = gotcommand s.
Proof. apply (spared_limit gotcommand). spared_tac. Qed.

(** Two handlers that agree wherever [gotcommand] is true, the first of
    which keeps the flag true, cannot be told apart by a cycle: the handler
    only ever runs with the flag true. *)
Section Guarded.

Variables h1 h2 : State -> State.
Hypothesis h_agree : forall x, gotcommand x = true -> h1 x = h2 x.
Hypothesis h_keeps : forall x, gotcommand x = true -> gotcommand (h1 x) = true.

Lemma preempt_agree (s : State) :
  gotcommand s = true ->
  preempt (Some h1) s = preempt (Some h2) s /\
  gotcommand (preempt (Some h1) s) = true.
Proof.
  intros Hg. unfold preempt.
  destruct (irq s) as [|[] later]; split; auto.
Qed.

Lemma pulse_loop_agree (n : nat) (pin : Z) :
  forall s, gotcommand s = true ->
  pulse_loop (Some h1) n pin s = pulse_loop (Some h2) n pin s.
Proof.
  induction n as [|n IH]; intros s Hg; cbn [pulse_loop];
    destruct (preempt_agree s Hg) as [E1 G1]; rewrite <- E1;
    [reflexivity|].
  destruct (keeppulsing (preempt (Some h1) s)); [|reflexivity].
  destruct (preempt_agree _ G1) as [E2 G2]. rewrite <- E2.
  destruct (preempt_agree
              (digitalWrite pin HIGH
                 (preempt (Some h1) (preempt (Some h1) s))) G2)
    as [E3 G3].
  rewrite <- E3. apply IH. exact G3.
Qed.

Lemma pulse_agree (pulses pin : Z) (s : State) :
  gotcommand s = true ->
  pulse (Some h1) pulses pin s = pulse (Some h2) pulses pin s.
Proof. intros Hg. unfold pulse. now rewrite pulse_loop_agree. Qed.

Lemma execute_agree (command : list byte) (s : State) :
  gotcommand s = true ->
  execute (Some h1) command s = execute (Some h2) command s.
Proof.
  intros Hg. unfold execute, directionpositive, directionnegative.
  repeat match goal with
         | |- context [if ?c =? ?d then _ else _] => destruct (c =? d)
         end;
    rewrite ?pulse_agree by exact Hg; reflexivity.
Qed.

Lemma joystick_agree (s : State) :
  joystick (Some h1) s = joystick (Some h2) s.
Proof.
  unfold joystick.
  assert (Hg : gotcommand (joystick_read s) = true)
    by (rewrite joystick_read_state; reflexivity).
  revert Hg. generalize (joystick_read s) as r. intros r Hg.
  assert (E : joystick_move (Some h1) r = joystick_move (Some h2) r).
  { unfold joystick_move, directionpositive, directionnegative.
    repeat match goal with
           | |- context [if ?c then _ else _] => destruct c
           end;
      cbv zeta; rewrite ?pulse_agree by exact Hg; reflexivity. }
  now rewrite E.
Qed.

Lemma cycle_agree (s : State) : cycle (Some h1) s = cycle (Some h2) s.
Proof.
  unfold cycle. destruct (receive s) as [command s1].
  destruct (checkremoteused s1);
    match goal with
    | |- context [if gotcommand ?y then _ else _] =>
        destruct (gotcommand y) eqn:G
    end;
    rewrite ?execute_agree by exact G;
    rewrite ?joystick_agree; reflexivity.
Qed.

End Guarded.

Lemma joystick_move_interrupted (s : State) (j m : nat)
    (rest_irq rest_lim : list bool) :
  keeppulsing s = true -> gotcommand s = true ->
  lrvalue s - 700 > 200 \/ lrvalue s - 700 < -400 \/
  udvalue s - 700 > 200 \/ udvalue s - 700 < -300 ->
  irq s = repeat false j ++ true :: rest_irq -> (j <= 3)%nat ->
  limit_in s = true :: repeat true m ++ false :: rest_lim ->
  exists level pin before after,
    (pin = xpulpluspin \/ pin = ypulpluspin) /\
    trace (joystick_move (Some limit) s) =
    trace s ++
    DigitalWrite dirpluspin level :: before ++
    DigitalWrite dirpluspin (negb level) :: pulse_train m pin ++ after /\
    writes_on pin before = before.
Proof.
  intros Hk Hg Hdef Hirq Hj Hlim.
  assert (Hmove : forall level posneg axis,
    posneg = 0 \/ posneg = 1 -> axis = 0 \/ axis = 1 ->
    level = negb (posneg =? 0) ->
    exists before after,
      trace (set_remoteinuse true
               (pulse (Some limit) 1 (axis_pin axis)
                  (set_xyorz axis (set_posorneg posneg
                     (digitalWrite dirpluspin level s))))) =
      trace s ++
      DigitalWrite dirpluspin level :: before ++
      DigitalWrite dirpluspin (negb level)
      :: pulse_train m (axis_pin axis) ++ after /\
      writes_on (axis_pin axis) before = before).
  { intros level posneg axis Hp Hax ->. unfold pulse.
    change (Z.to_nat 1) with 1%nat.
    destruct (burst_interrupted 1 j m rest_irq rest_lim (axis_pin axis)
                (set_xyorz axis (set_posorneg posneg
                   (digitalWrite dirpluspin (negb (posneg =? 0)) s))))
      as (before & after & Ht & Hb & _);
      [exact Hk | exact Hg | exact Hp | cbn [xyorz set_xyorz]; lia
      | reflexivity | exact Hirq | lia | exact Hlim | ].
    exists before, after. split; [|exact Hb].
    cbn [trace set_remoteinuse set_keeppulsing]. rewrite Ht.
    cbn [trace posorneg set_xyorz set_posorneg digitalWrite emit set_trace].
    rewrite negb_involutive, <- !app_assoc. reflexivity. }
  unfold joystick_move, directionnegative, directionpositive.
  destruct (lrvalue s - 700 >? 200) eqn:E1;
    [|destruct (lrvalue s - 700 <? -400) eqn:E2;
      [|destruct (udvalue s - 700 >? 200) eqn:E3;
        [|destruct (udvalue s - 700 <? -300) eqn:E4]]];
    cbv zeta.
  - destruct (Hmove HIGH 1 0) as (before & after & Ht & Hb); auto.
    exists HIGH, xpulpluspin, before, after. auto.
  - destruct (Hmove LOW 0 0) as (before & after & Ht & Hb); auto.
    exists LOW, xpulpluspin, before, after. auto.
  - destruct (Hmove LOW 0 1) as (before & after & Ht & Hb); auto.
    exists LOW, ypulpluspin, before, after. auto.
  - destruct (Hmove HIGH 1 1) as (before & after & Ht & Hb); auto.
    exists HIGH, ypulpluspin, before, after. auto.
  - rewrite Z.gtb_ltb in E1, E3.
    apply Z.ltb_ge in E1, E2, E3, E4. lia.
Qed.

(** C9: every burst of a cycle, from a host command or from the joystick,
    runs with [gotcommand] true (the joystick branch sets it before it reads
    the stick), so the handler only ever preempts a burst with the flag
    true: a cycle cannot tell [limit] from any handler that agrees with it
    on such states, in particular from [limit] with its test of the flag
    (line 39) taken out.  And a joystick move whose single pulse is
    preempted with the limit input asserted gets the same reversal and
    walk-off as a host command. *)
Theorem joystick_pulses_are_guarded (s : State) (j m : nat)
    (rest_irq rest_lim : list bool) :
  gotcommand (snd (receive s)) = false ->
  checkremoteused (snd (receive s)) = false ->
  keeppulsing s = true ->
  stick_lr s - 700 > 200 \/ stick_lr s - 700 < -400 \/
  stick_ud s - 700 > 200 \/ stick_ud s - 700 < -300 ->
  irq s = repeat false j ++ true :: rest_irq -> (j <= 3)%nat ->
  limit_in s = true :: repeat true m ++ false :: rest_lim ->
  (forall h : State -> State,
     (forall x, gotcommand x = true -> limit x = h x) ->
     forall x, loop x = cycle (Some h) x) /\
  (forall x, loop x = cycle (Some limit_unguarded) x) /\
  (forall x, gotcommand (joystick_read x) = true) /\
  exists level pin before after,
    (pin = xpulpluspin \/ pin = ypulpluspin) /\
    trace (loop s) =
    trace s ++
    DigitalWrite dirpluspin level :: before ++
    DigitalWrite dirpluspin (negb level) :: pulse_train m pin ++ after /\
    writes_on pin before = before.
Proof.
  intros Hg Hc Hk Hdef Hirq Hj Hlim.
  assert (Hany : forall h : State -> State,
            (forall x, gotcommand x = true -> limit x = h x) ->
            forall x, loop x = cycle (Some h) x).
  { intros h Hh x. unfold loop. apply cycle_agree; [exact Hh|].
    intros y Hy. now rewrite limit_keeps_gotcommand. }
  split; [exact Hany|]. split; [|split].
  - apply Hany. exact limit_guard_satisfied.
  - intros x. rewrite joystick_read_state. reflexivity.
  - destruct (loop_joystick s Hg Hc) as (bytes & E). rewrite E.
    rewrite trace_cycle_end. unfold joystick.
    rewrite joystick_done_trace.
    set (r := joystick_read
                (set_checkremoteused false
                   (set_gotcommand false (set_rx bytes s)))).
    assert (Hr : r = _) by apply joystick_read_state.
    destruct (joystick_move_interrupted r j m rest_irq rest_lim)
      as (level & pin & before & after & Hpin & Ht & Hb);
      [ rewrite Hr; exact Hk | rewrite Hr; reflexivity
      | rewrite Hr; exact Hdef | rewrite Hr; exact Hirq | exact Hj
      | rewrite Hr; exact Hlim | ].
    exists level, pin, before, after.
    rewrite Ht, Hr. auto.
Qed.

Lemma joystick_pulses_are_guarded_witness :
  exists level pin before after,
    (pin = xpulpluspin \/ pin = ypulpluspin) /\
    trace (loop bench_stick_limit) =
    DigitalWrite dirpluspin level :: before ++
    DigitalWrite dirpluspin (negb level) :: pulse_train 2 pin ++ after /\
    writes_on pin before = before.
Proof.
  destruct (joystick_pulses_are_guarded bench_stick_limit 0 2 [] [])
    as (_ & _ & _ & H); try reflexivity.
  - left. vm_compute. reflexivity.
  - lia.
  - exact H.
Defined.

(** * Further properties of the sketch *)

(** ** The three kinds of cycle *)

Lemma receive_outcome (s : State) :
  gotcommand s = false -> checkremoteused s = false ->
  exists command g c,
    g && c = false /\
    receive s =
    (command,
     set_checkremoteused c (set_gotcommand g
       (set_rx (rx_after_decode (rx s)) s))).
Proof.
  intros Hg Hc.
  unfold receive, Serial_available, Serial_read, Serial_readBytes.
  rewrite Hg, Hc. cbn [negb andb]. rewrite andb_true_r.
  destruct (rx s) as [|first later] eqn:Hrx.
  - exists no_command, false, false. split; [reflexivity|].
    cbn [length Z.of_nat Z.gtb Z.compare rx_after_decode].
    f_equal. destruct s; cbn in Hg, Hc, Hrx |- *; subst; reflexivity.
  - cbn [length rx_after_decode]. rewrite Nat2Z.inj_succ.
    replace (Z.succ (Z.of_nat (length later)) >? 0) with true
      by (symmetry; apply Z.gtb_lt; lia).
    destruct (byte_val first =? byte_val startbyte).
    + cbn [rx set_rx].
      destruct (_ =? byte_val endbyte); [destruct (_ =? 1)|];
        eexists; [exists false, true | exists true, false
                 | exists false, false];
        (split; [reflexivity|]); f_equal;
        destruct s; cbn in Hg, Hc |- *; subst; reflexivity.
    + exists no_command, false, false. split; [reflexivity|]. f_equal.
      destruct s; cbn in Hg, Hc |- *; subst; reflexivity.
Qed.

(** A cycle entered with nothing pending is a joystick poll, a query reply
    followed by a joystick poll, or a command execution, on the state the
    decoder leaves. *)
Lemma loop_cases (s : State) :
  gotcommand s = false -> checkremoteused s = false ->
  (gotcommand (snd (receive s)) = false /\
   checkremoteused (snd (receive s)) = false /\
   loop s =
     set_checkremoteused false (set_gotcommand false (set_limithit false
       (joystick (Some limit)
          (set_checkremoteused false (set_gotcommand false
             (set_rx (rx_after_decode (rx s)) s))))))) \/
  (gotcommand (snd (receive s)) = false /\
   checkremoteused (snd (receive s)) = true /\
   loop s =
     set_checkremoteused false (set_gotcommand false (set_limithit false
       (joystick (Some limit)
          (remote_reply
             (set_checkremoteused true (set_gotcommand false
                (set_rx (rx_after_decode (rx s)) s)))))))) \/
  (gotcommand (snd (receive s)) = true /\
   checkremoteused (snd (receive s)) = false /\
   loop s =
     set_checkremoteused false (set_gotcommand false (set_limithit false
       (execute (Some limit) (fst (receive s))
          (set_checkremoteused false (set_gotcommand true
             (set_rx (rx_after_decode (rx s)) s))))))).
Proof.
  intros Hg Hc.
  destruct (receive_outcome s Hg Hc) as (command & g & c & Hgc & E).
  unfold loop. rewrite E. cbn [fst snd].
  destruct g, c; try discriminate.
  - right. right. split; [reflexivity|]. split; [reflexivity|].
    apply (cycle_command _ _ _ _ E); reflexivity.
  - right. left. split; [reflexivity|]. split; [reflexivity|].
    apply (cycle_query _ _ _ _ E); reflexivity.
  - left. split; [reflexivity|]. split; [reflexivity|].
    apply (cycle_joystick _ _ _ _ E); reflexivity.
Qed.

Lemma Serial_write_trace (frame : list byte) (s : State) :
  trace (Serial_write frame s) = trace s ++ [SerialWrite frame].
Proof. reflexivity. Qed.

Lemma frames_app (a b : list Event) : frames (a ++ b) = frames a ++ frames b.
Proof. apply filter_app. Qed.

Lemma frames_write (pin : Z) (level : bool) (s : State) :
  frames (trace (digitalWrite pin level s)) = frames (trace s).
Proof.
  unfold digitalWrite, emit. cbn [trace set_trace].
  rewrite frames_app. apply app_nil_r.
Qed.

Lemma execute_frames (command : list byte) (s : State) :
  exists status,
    (status = xf0 \/ status = x0f) /\
    frames (trace (execute (Some limit) command s)) =
    frames (trace s) ++ [SerialWrite [startbyte; status; x00; endbyte]].
Proof.
  unfold execute. cbv zeta.
  match goal with
  | |- context [if ?b then x0f else xf0] => exists (if b then x0f else xf0)
  end.
  split; [match goal with |- context [if ?b then _ else _] => destruct b end;
          auto|].
  rewrite Serial_write_trace, frames_app. f_equal.
  unfold directionpositive, directionnegative.
  repeat match goal with
         | |- context [if ?c =? ?d then _ else _] => destruct (c =? d)
         end;
    rewrite ?burst_frames;
    rewrite ?write_commutes_xyorz, ?frames_write; reflexivity.
Qed.

Lemma joystick_done_rx (s : State) : rx (joystick_done s) = rx s.
Proof. unfold joystick_done. destruct (remoteinuse s); reflexivity. Qed.

Lemma joystick_move_rx (s : State) :
  rx (joystick_move (Some limit) s) = rx s.
Proof.
  stick_cases; try reflexivity;
    cbn [rx set_remoteinuse];
    rewrite (spared_burst rx) by spared_tac; reflexivity.
Qed.

Lemma joystick_rx (s : State) : rx (joystick (Some limit) s) = rx s.
Proof.
  unfold joystick.
  rewrite joystick_done_rx, joystick_move_rx, joystick_read_state.
  reflexivity.
Qed.

Lemma rx_cycle_end (s : State) :
  rx (set_checkremoteused false (set_gotcommand false
        (set_limithit false s))) = rx s.
Proof. reflexivity. Qed.

Lemma loop_frames (s : State) :
  gotcommand s = false -> checkremoteused s = false ->
  frames (trace (loop s)) = frames (trace s) \/
  exists e, In e cycle_frames /\
            frames (trace (loop s)) = frames (trace s) ++ [e].
Proof.
  intros Hg Hc.
  destruct (loop_cases s Hg Hc) as [(_ & _ & E)|[(_ & _ & E)|(_ & _ & E)]];
    rewrite E; rewrite trace_cycle_end.
  - left. now rewrite joystick_frames.
  - right. rewrite joystick_frames, remote_reply_trace, frames_app.
    cbn [remoteused set_checkremoteused set_gotcommand set_rx].
    destruct (remoteused s); eexists; (split; [|reflexivity]);
      unfold cycle_frames; cbn [In]; auto.
  - right. destruct (execute_frames (fst (receive s))
                       (set_checkremoteused false (set_gotcommand true
                          (set_rx (rx_after_decode (rx s)) s))))
      as (status & Hst & Ef).
    rewrite Ef. eexists. split; [|reflexivity].
    unfold cycle_frames. cbn [In]. destruct Hst as [-> | ->]; auto.
Qed.

(** X1: a cycle entered with nothing pending sends at most one frame, and
    that frame is a command response (success or unexpected limit hit) or a
    remote-used reply (used or not used): whatever the serial input, the
    stick, the limit input and the interrupt schedule, nothing else ever
    goes out on the serial line. *)
Theorem cycle_sends_at_most_one_frame (s : State) :
  gotcommand s = false -> checkremoteused s = false ->
  frames (trace (loop s)) = frames (trace s) \/
  exists e, In e cycle_frames /\
            frames (trace (loop s)) = frames (trace s) ++ [e].
Proof. exact (loop_frames s). Qed.

Lemma cycle_sends_at_most_one_frame_witness :
  frames (trace (loop bench_limit)) = frames (trace bench_limit) \/
  exists e, In e cycle_frames /\
            frames (trace (loop bench_limit)) =
            frames (trace bench_limit) ++ [e].
Proof.
  apply (cycle_sends_at_most_one_frame bench_limit); reflexivity.
Defined.

Lemma run_frames (cycles : nat) :
  forall s, cycle_start s ->
  exists sent,
    frames (trace (run cycles s)) = frames (trace s) ++ sent /\
    Forall (fun e => In e cycle_frames) sent /\
    (length sent <= cycles)%nat.
Proof.
  induction cycles as [|k IH]; intros s Hs.
  - exists []. cbn [run]. rewrite app_nil_r. auto.
  - cbn [run].
    assert (Hs' : cycle_start (loop s))
      by (destruct Hs as (_ & _ & _ & Hr & Hk); now apply loop_restores).
    destruct (IH (loop s) Hs') as (sent & E & Hall & Hlen).
    destruct Hs as (Hg & Hc & _).
    destruct (loop_frames s Hg Hc) as [El|(e & He & El)];
      rewrite El in E.
    + exists sent. repeat split; auto.
    + exists (e :: sent). rewrite <- app_assoc in E.
      repeat split; auto. cbn [length]. lia.
Qed.

(** X2: the reset notice [07 FF 00 0A] is the first frame sent after
    start-up, before any cycle runs, and no cycle ever sends it again:
    after [setup] and any number of cycles the frames sent are the reset
    notice followed by at most one response or reply per cycle. *)
Theorem reset_notice_first_and_only (gndpin fivevoltpin : Z) (cycles : nat)
    (bytes : list byte) (limit_samples irqs : list bool) (lr ud : nat -> Z) :
  frames (trace (boot gndpin fivevoltpin bytes limit_samples irqs lr ud))
    = [reset_notice] /\
  exists sent,
    frames (trace (run cycles
                     (boot gndpin fivevoltpin bytes limit_samples irqs
                        lr ud))) = reset_notice :: sent /\
    ~ In reset_notice sent /\
    Forall (fun e => In e cycle_frames) sent /\
    (length sent <= cycles)%nat.
Proof.
  split; [reflexivity|].
  destruct (run_frames cycles
              (boot gndpin fivevoltpin bytes limit_samples irqs lr ud))
    as (sent & E & Hall & Hlen); [repeat split|].
  exists sent. split; [exact E|]. split; [|auto].
  intros Hin. rewrite Forall_forall in Hall. specialize (Hall _ Hin).
  unfold cycle_frames, reset_notice in Hall. cbn [In] in Hall.
  repeat destruct Hall as [Hall|Hall]; try discriminate. exact Hall.
Qed.

Lemma loop_rx (s : State) :
  gotcommand s = false -> checkremoteused s = false ->
  rx (loop s) = rx_after_decode (rx s).
Proof.
  intros Hg Hc.
  destruct (loop_cases s Hg Hc) as [(_ & _ & E)|[(_ & _ & E)|(_ & _ & E)]];
    rewrite E; rewrite rx_cycle_end.
  - now rewrite joystick_rx.
  - now rewrite joystick_rx.
  - rewrite (execute_spares rx) by (spared_tac || reflexivity).
    reflexivity.
Qed.

(** X3: a cycle entered with nothing pending takes from the receive stream
    nothing when it is empty, one byte when the first byte is not START,
    and START plus the next seven bytes (all of them when fewer are there)
    when it is; neither the command execution, the query reply, the
    joystick branch nor the limit handler reads the serial line. *)
Theorem cycle_consumes_one_byte_or_one_frame (s : State) :
  gotcommand s = false -> checkremoteused s = false ->
  rx (loop s) = rx_after_decode (rx s) /\
  (rx s = [] -> rx (loop s) = []) /\
  (forall first later,
     rx s = first :: later -> first <> startbyte -> rx (loop s) = later) /\
  (forall later, rx s = startbyte :: later -> rx (loop s) = skipn 7 later).
Proof.
  intros Hg Hc. rewrite (loop_rx s Hg Hc).
  split; [reflexivity|]. split; [|split].
  - intros ->. reflexivity.
  - intros first later -> Hne. cbn [rx_after_decode].
    now rewrite (byte_val_differs first startbyte Hne).
  - intros later ->. reflexivity.
Qed.

Lemma cycle_consumes_one_byte_or_one_frame_witness :
  rx (loop bench_stick) = command_frame x40 x00 x00 x00 x00 x03.
Proof.
  destruct (cycle_consumes_one_byte_or_one_frame bench_stick
              eq_refl eq_refl) as (_ & _ & H & _).
  apply (H x00); [reflexivity | discriminate].
Defined.

(** ** Framing on a dirty line *)

Lemma loop_drops (s : State) :
  gotcommand (snd (receive s)) = false ->
  checkremoteused (snd (receive s)) = false ->
  frames (trace (loop s)) = frames (trace s).
Proof.
  intros Hg Hc. destruct (loop_joystick s Hg Hc) as (bytes & E).
  rewrite E, trace_cycle_end, joystick_frames. reflexivity.
Qed.





(** X5: the decoder does not resynchronise inside a frame.  When a stray
    START byte directly precedes a well-formed frame, the decoder reads the
    frame's own START as the control byte and the frame's last payload byte
    as the terminator: unless that byte happens to be END the frame is
    dropped without a reply, and when it is END the cycle answers a
    remote-used query, since START has its low bit set.  Either way the
    command is not executed and the frame's END is left as the next byte of
    the stream. *)
Theorem stray_start_swallows_frame (ctrl gl p3 p2 p1 p0 : byte)
    (later : list byte) (s : State) :
  gotcommand s = false -> checkremoteused s = false ->
  rx s = startbyte :: command_frame ctrl gl p3 p2 p1 p0 ++ later ->
  gotcommand (snd (receive s)) = false /\
  rx (loop s) = endbyte :: later /\
  (p0 <> endbyte -> frames (trace (loop s)) = frames (trace s)) /\
  (p0 = endbyte ->
   frames (trace (loop s)) =
   frames (trace s) ++
   [SerialWrite [startbyte; x00; if remoteused s then x01 else x00;
                 endbyte]]).
Proof.
  intros Hg Hc Hrx.
  assert (Hrx' : rx (loop s) = endbyte :: later)
    by (rewrite (loop_rx s Hg Hc), Hrx; reflexivity).
  assert (Hcases : p0 = endbyte \/ p0 <> endbyte).
  { destruct (Byte.eqb p0 endbyte) eqn:E.
    - left. now apply Byte.byte_dec_bl.
    - right. now apply Byte.eqb_false. }
  destruct Hcases as [-> | Hne].
  - assert (Er : receive s =
                 (payload startbyte ctrl gl p3 p2 p1,
                  set_checkremoteused true (set_rx (endbyte :: later) s)))
      by (apply (receive_frame startbyte ctrl gl p3 p2 p1
                   (endbyte :: later) s Hg Hc Hrx)).
    rewrite Er. cbn [snd gotcommand set_checkremoteused set_rx].
    split; [exact Hg|]. split; [exact Hrx'|].
    split; [intros H; now elim H|]. intros _.
    unfold loop. rewrite (cycle_query _ _ _ _ Er eq_refl Hg).
    rewrite trace_cycle_end, joystick_frames, remote_reply_trace.
    rewrite frames_app. reflexivity.
  - assert (Hbad : (exists f l, rx s = f :: l /\ f <> startbyte) \/
                   (exists bytes, rx s = startbyte :: bytes /\
                                  nth 6 bytes x00 <> endbyte))
      by (right; eexists; split; [exact Hrx|exact Hne]).
    destruct (receive_rejects s Hg Hc Hbad) as [Hg' Hc'].
    split; [exact Hg'|]. split; [exact Hrx'|].
    split; [intros _; now apply loop_drops|].
    intros E. now elim Hne.
Qed.

Lemma stray_start_swallows_frame_witness :
  gotcommand (snd (receive bench_stray_start)) = false /\
  rx (loop bench_stray_start) = [endbyte] /\
  frames (trace (loop bench_stray_start)) = [].
Proof.
  destruct (stray_start_swallows_frame x40 x00 x00 x00 x00 x03 []
              bench_stray_start eq_refl eq_refl eq_refl)
    as (H1 & H2 & H3 & _).
  split; [exact H1|]. split; [exact H2|]. apply H3. discriminate.
Defined.

(** ** Book-keeping of the remote *)

Lemma joystick_move_moved (isr : option (State -> State)) (s : State) :
  lrvalue s - 700 > 200 \/ lrvalue s - 700 < -400 \/
  udvalue s - 700 > 200 \/ udvalue s - 700 < -300 ->
  remoteinuse (joystick_move isr s) = true.
Proof.
  intros Hdef. unfold joystick_move.
  destruct (lrvalue s - 700 >? 200) eqn:E1; [reflexivity|].
  destruct (lrvalue s - 700 <? -400) eqn:E2; [reflexivity|].
  destruct (udvalue s - 700 >? 200) eqn:E3; [reflexivity|].
  destruct (udvalue s - 700 <? -300) eqn:E4; [reflexivity|].
  rewrite Z.gtb_ltb in E1, E3. apply Z.ltb_ge in E1, E2, E3, E4. lia.
Qed.

Lemma joystick_move_remoteused (s : State) :
  remoteused (joystick_move (Some limit) s) = remoteused s.
Proof.
  stick_cases; try reflexivity;
    cbn [remoteused set_remoteinuse];
    rewrite (spared_burst remoteused) by spared_tac; reflexivity.
Qed.

Lemma joystick_done_flags (s : State) :
  (remoteinuse s = true ->
   remoteused (joystick_done s) = true /\
   remoteinuselast (joystick_done s) = true) /\
  (remoteused s = true -> remoteused (joystick_done s) = true).
Proof.
  unfold joystick_done.
  destruct (remoteinuse s) eqn:E; split; intros H; try discriminate H;
    cbv zeta;
    cbn [remoteused remoteinuselast remoteinuse set_remoteinuse
         set_remoteinuselast set_remoteused];
    rewrite ?E; auto.
Qed.

Lemma remote_flags_cycle_end (s : State) :
  remoteused (set_checkremoteused false (set_gotcommand false
                (set_limithit false s))) = remoteused s /\
  remoteinuselast (set_checkremoteused false (set_gotcommand false
                     (set_limithit false s))) = remoteinuselast s.
Proof. split; reflexivity. Qed.

(** A joystick poll with the stick outside a deadzone leaves both
    remote flags set, whatever state it starts from. *)
Lemma joystick_deflected (s : State) :
  stick_lr s - 700 > 200 \/ stick_lr s - 700 < -400 \/
  stick_ud s - 700 > 200 \/ stick_ud s - 700 < -300 ->
  remoteused (joystick (Some limit) s) = true /\
  remoteinuselast (joystick (Some limit) s) = true.
Proof.
  intros Hdef. unfold joystick.
  apply (joystick_done_flags (joystick_move (Some limit) (joystick_read s))).
  apply joystick_move_moved. rewrite joystick_read_state. exact Hdef.
Qed.

Lemma joystick_keeps_remoteused (s : State) :
  remoteused s = true -> remoteused (joystick (Some limit) s) = true.
Proof.
  intros Hu. unfold joystick. apply joystick_done_flags.
  rewrite joystick_move_remoteused, joystick_read_state. exact Hu.
Qed.

(** X6: how the remote-used flag moves.  Any cycle that runs the joystick
    branch (no command decoded) with the stick outside a deadzone ends with
    [remoteused] and [remoteinuselast] set, also when that cycle answered a
    query, which reports the flag as it was before.  No cycle other than a
    query cycle clears [remoteused]: once set it stays set through joystick
    polls and command executions under every interrupt schedule. *)
Theorem remote_used_set_by_moves_cleared_by_queries (s : State) :
  gotcommand s = false -> checkremoteused s = false ->
  (gotcommand (snd (receive s)) = false ->
   stick_lr s - 700 > 200 \/ stick_lr s - 700 < -400 \/
   stick_ud s - 700 > 200 \/ stick_ud s - 700 < -300 ->
   remoteused (loop s) = true /\ remoteinuselast (loop s) = true) /\
  (checkremoteused (snd (receive s)) = true ->
   frames (trace (loop s)) =
   frames (trace s) ++
   [SerialWrite [startbyte; x00; if remoteused s then x01 else x00;
                 endbyte]]) /\
  (checkremoteused (snd (receive s)) = false ->
   remoteused s = true -> remoteused (loop s) = true).
Proof.
  intros Hg Hc.
  destruct (loop_cases s Hg Hc)
    as [(Hg' & Hc' & E)|[(Hg' & Hc' & E)|(Hg' & Hc' & E)]];
    rewrite Hg', Hc', E;
    destruct (remote_flags_cycle_end
                (joystick (Some limit)
                   (set_checkremoteused false (set_gotcommand false
                      (set_rx (rx_after_decode (rx s)) s))))) as [F1 F2];
    destruct (remote_flags_cycle_end
                (joystick (Some limit)
                   (remote_reply
                      (set_checkremoteused true (set_gotcommand false
                         (set_rx (rx_after_decode (rx s)) s))))))
      as [F3 F4];
    (split; [|split]); try discriminate.
  - intros _ Hdef. rewrite F1, F2. now apply joystick_deflected.
  - intros _ Hu. rewrite F1. now apply joystick_keeps_remoteused.
  - intros _ Hdef. rewrite F3, F4. now apply joystick_deflected.
  - intros _. rewrite trace_cycle_end, joystick_frames, remote_reply_trace.
    rewrite frames_app. reflexivity.
  - intros _ Hu.
    destruct (remote_flags_cycle_end
                (execute (Some limit) (fst (receive s))
                   (set_checkremoteused false (set_gotcommand true
                      (set_rx (rx_after_decode (rx s)) s))))) as [F5 _].
    rewrite F5.
    rewrite (execute_spares remoteused) by (spared_tac || reflexivity).
    exact Hu.
Qed.

Lemma remote_used_set_by_moves_cleared_by_queries_witness :
  remoteused (loop bench_stick) = true /\
  remoteinuselast (loop bench_stick) = true.
Proof.
  destruct (remote_used_set_by_moves_cleared_by_queries bench_stick
              eq_refl eq_refl) as (H & _).
  apply H; [reflexivity|]. left. vm_compute. reflexivity.
Defined.

Lemma joystick_state_cycle_end (s : State) :
  adc_reads (set_checkremoteused false (set_gotcommand false
               (set_limithit false s))) = adc_reads s /\
  lrvalue (set_checkremoteused false (set_gotcommand false
             (set_limithit false s))) = lrvalue s /\
  udvalue (set_checkremoteused false (set_gotcommand false
             (set_limithit false s))) = udvalue s.
Proof. repeat split. Qed.

(** X7: a cycle that executes a command never samples the joystick: the
    conversion count, the last readings and both remote flags are after
    the cycle what they were before, under every interrupt schedule. *)
Theorem command_cycle_ignores_joystick (s : State) :
  gotcommand s = false -> checkremoteused s = false ->
  gotcommand (snd (receive s)) = true ->
  adc_reads (loop s) = adc_reads s /\
  lrvalue (loop s) = lrvalue s /\ udvalue (loop s) = udvalue s /\
  remoteused (loop s) = remoteused s /\
  remoteinuselast (loop s) = remoteinuselast s.
Proof.
  intros Hg Hc Hcmd.
  destruct (loop_cases s Hg Hc)
    as [(Hg' & _)|[(Hg' & _)|(_ & _ & E)]];
    try (rewrite Hg' in Hcmd; discriminate).
  rewrite E.
  match goal with
  | |- context [execute (Some limit) ?c ?x] =>
      destruct (joystick_state_cycle_end (execute (Some limit) c x))
        as (F1 & F2 & F3);
      destruct (remote_flags_cycle_end (execute (Some limit) c x))
        as (F4 & F5)
  end.
  rewrite F1, F2, F3, F4, F5.
  rewrite (execute_spares adc_reads) by (spared_tac || reflexivity).
  rewrite (execute_spares lrvalue) by (spared_tac || reflexivity).
  rewrite (execute_spares udvalue) by (spared_tac || reflexivity).
  rewrite (execute_spares remoteused) by (spared_tac || reflexivity).
  rewrite (execute_spares remoteinuselast) by (spared_tac || reflexivity).
  repeat split.
Qed.

Lemma command_cycle_ignores_joystick_witness :
  adc_reads (loop bench_limit) = adc_reads bench_limit /\
  lrvalue (loop bench_limit) = lrvalue bench_limit /\
  udvalue (loop bench_limit) = udvalue bench_limit /\
  remoteused (loop bench_limit) = remoteused bench_limit /\
  remoteinuselast (loop bench_limit) = remoteinuselast bench_limit.
Proof.
  apply (command_cycle_ignores_joystick bench_limit); reflexivity.
Defined.

(** X8: the up-down channel, with left-right inside its deadzone and the
    limit line quiet: a reading more than 200 above 700 writes the positive
    direction level and one pulse on Y, a reading more than 300 below 700
    the negative level and one pulse on Y.  (On left-right the sense is the
    other way round: above is negative.) *)
Theorem joystick_up_down_moves_y (s : State) :
  gotcommand (snd (receive s)) = false ->
  checkremoteused (snd (receive s)) = false ->
  quiet s -> keeppulsing s = true ->
  -400 <= stick_lr s - 700 <= 200 ->
  (stick_ud s - 700 > 200 ->
   trace (loop s) =
   trace s ++ DigitalWrite dirpluspin LOW :: pulse_pair ypulpluspin) /\
  (stick_ud s - 700 < -300 ->
   trace (loop s) =
   trace s ++ DigitalWrite dirpluspin HIGH :: pulse_pair ypulpluspin).
Proof.
  intros Hg Hc Q Hk Hlr. rewrite (loop_joystick_quiet s Hg Hc Q Hk).
  destruct (stick_lr s - 700 >? 200) eqn:E1;
    [apply Z.gtb_lt in E1; lia|].
  destruct (stick_lr s - 700 <? -400) eqn:E2;
    [apply Z.ltb_lt in E2; lia|].
  split; intros Hud.
  - destruct (stick_ud s - 700 >? 200) eqn:E3; [reflexivity|].
    rewrite Z.gtb_ltb in E3. apply Z.ltb_ge in E3. lia.
  - destruct (stick_ud s - 700 >? 200) eqn:E3;
      [apply Z.gtb_lt in E3; lia|].
    destruct (stick_ud s - 700 <? -300) eqn:E4; [reflexivity|].
    apply Z.ltb_ge in E4. lia.
Qed.

Lemma joystick_up_down_moves_y_witness :
  trace (loop bench_up) =
    DigitalWrite dirpluspin LOW :: pulse_pair ypulpluspin /\
  trace (loop bench_down) =
    DigitalWrite dirpluspin HIGH :: pulse_pair ypulpluspin.
Proof.
  split.
  - destruct (joystick_up_down_moves_y bench_up
                eq_refl eq_refl eq_refl eq_refl) as (H & _).
    + vm_compute. split; discriminate.
    + apply H. vm_compute. reflexivity.
  - destruct (joystick_up_down_moves_y bench_down
                eq_refl eq_refl eq_refl eq_refl) as (_ & H).
    + vm_compute. split; discriminate.
    + apply H. vm_compute. reflexivity.
Defined.

(** ** Bursts that nothing disturbs *)

Lemma undisturbed_set (l r : list bool) (s : State) :
  calm r l -> undisturbed (set_limit_in l (set_irq r s)).
Proof. intros C. exact C. Qed.

Lemma undisturbed_write (pin : Z) (level : bool) (s : State) :
  undisturbed s -> undisturbed (digitalWrite pin level s).
Proof. intros U. exact U. Qed.

Lemma limit_released (s : State) :
  forallb negb (limit_in s) = true ->
  exists l, forallb negb l = true /\ limit s = set_limit_in l s.
Proof.
  intros Hl. unfold limit, digitalRead_limit.
  destruct (limit_in s) as [|[] l] eqn:E; cbn in Hl.
  - exists []. split; [reflexivity|]. rewrite <- E. destruct s; reflexivity.
  - discriminate.
  - now exists l.
Qed.

Lemma preempt_undisturbed (s : State) :
  undisturbed s ->
  exists l r, calm r l /\
    preempt (Some limit) s = set_limit_in l (set_irq r s).
Proof.
  intros U. unfold preempt.
  destruct (irq s) as [|fire r] eqn:Ei.
  - exists (limit_in s), []. split.
    + unfold undisturbed in U. now rewrite Ei in U.
    + rewrite <- Ei. destruct s; reflexivity.
  - unfold undisturbed in U. rewrite Ei in U.
    destruct fire.
    + destruct U as [Q|L]; [discriminate|].
      destruct (limit_released (set_irq r s) L) as (l & Hl & E).
      exists l, r. split; [now right|exact E].
    + exists (limit_in s), r. split.
      * destruct U as [Q|L]; [left; exact Q|right; exact L].
      * destruct s; reflexivity.
Qed.

Lemma pulse_loop_undisturbed (n : nat) :
  forall (pin : Z) (s : State),
  undisturbed s -> keeppulsing s = true ->
  exists l r, calm r l /\
    pulse_loop (Some limit) n pin s =
    set_limit_in l (set_irq r (set_trace (trace s ++ pulse_train n pin) s)).
Proof.
  induction n as [|n IH]; intros pin s U Hk; cbn [pulse_loop].
  - destruct (preempt_undisturbed s U) as (l & r & C & E).
    exists l, r. split; [exact C|]. rewrite E. cbn [pulse_train].
    rewrite app_nil_r. destruct s; reflexivity.
  - destruct (preempt_undisturbed s U) as (l1 & r1 & C1 & E1). rewrite E1.
    replace (keeppulsing (set_limit_in l1 (set_irq r1 s))) with true
      by (symmetry; exact Hk).
    destruct (preempt_undisturbed _ (undisturbed_set l1 r1 s C1))
      as (l2 & r2 & C2 & E2).
    rewrite E2.
    destruct (preempt_undisturbed _
                (undisturbed_write pin HIGH _
                   (undisturbed_set l2 r2
                      (set_limit_in l1 (set_irq r1 s)) C2)))
      as (l3 & r3 & C3 & E3).
    rewrite E3.
    destruct (IH pin _
                (undisturbed_write pin LOW _
                   (undisturbed_set l3 r3
                      (digitalWrite pin HIGH
                         (set_limit_in l2 (set_irq r2
                            (set_limit_in l1 (set_irq r1 s))))) C3)) Hk)
      as (l4 & r4 & C4 & E4).
    rewrite E4. exists l4, r4. split; [exact C4|].
    destruct s; simpl. now rewrite <- !app_assoc.
Qed.

Lemma pulse_undisturbed (pulses pin : Z) (s : State) :
  undisturbed s -> keeppulsing s = true ->
  exists l r, calm r l /\
    pulse (Some limit) pulses pin s =
    set_limit_in l (set_irq r
      (set_trace (trace s ++ pulse_train (Z.to_nat pulses) pin) s)).
Proof.
  intros U Hk. unfold pulse.
  destruct (pulse_loop_undisturbed (Z.to_nat pulses) pin s U Hk)
    as (l & r & C & E).
  exists l, r. split; [exact C|]. rewrite E.
  generalize (Z.to_nat pulses). intros n.
  destruct s; simpl in *; subst; reflexivity.
Qed.

Lemma undisturbed_cycle_end (s : State) :
  undisturbed s ->
  undisturbed (set_checkremoteused false (set_gotcommand false
                 (set_limithit false s))).
Proof. intros U. exact U. Qed.

Lemma execute_undisturbed (command : list byte) (s : State) :
  undisturbed s -> keeppulsing s = true -> limithit s = false ->
  trace (execute (Some limit) command s) = trace s ++ command_trace command /\
  undisturbed (execute (Some limit) command s).
Proof.
  intros U Hk Hl. unfold execute, command_trace.
  rewrite command_posorneg_bit.
  pose proof (command_xyorz_range command) as Ha.
  generalize (command_pulses command) as pulses.
  generalize (command_gotolimit command) as gotolimit.
  generalize (Z.testbit (cmd command 0) 5) as negative.
  intros negative gotolimit pulses.
  assert (Hax : command_xyorz command = 0 \/ command_xyorz command = 1 \/
                command_xyorz command = 2 \/ command_xyorz command = 3)
    by lia.
  destruct s; unfold undisturbed in U; simpl in U, Hk, Hl; subst.
  destruct Hax as [E|[E|[E|E]]]; rewrite E; destruct negative;
    cbn -[pulse pulse_train Z.to_nat limit];
    try match goal with
        | |- context [pulse (Some limit) ?p ?pin ?x] =>
            destruct (pulse_undisturbed p pin x U eq_refl)
              as (l & r & C & Er);
            rewrite Er
        end;
    (split;
     [cbn -[pulse_train Z.to_nat]; rewrite <- ?app_assoc; reflexivity
     |first [exact C | exact U]]).
Qed.

Lemma loop_command_undisturbed (ctrl gl p3 p2 p1 p0 : byte)
    (later : list byte) (s : State) :
  cycle_start s -> undisturbed s ->
  rx s = command_frame ctrl gl p3 p2 p1 p0 ++ later ->
  Z.testbit (byte_val ctrl) 0 = false ->
  trace (loop s) = trace s ++ command_trace (payload ctrl gl p3 p2 p1 p0) /\
  rx (loop s) = later /\
  undisturbed (loop s) /\ cycle_start (loop s).
Proof.
  intros (Hg & Hc & Hl & Hr & Hk) U Hrx Hq.
  split; [|split; [|split]].
  - rewrite (loop_command ctrl gl p3 p2 p1 p0 later s Hg Hc Hrx Hq).
    rewrite trace_cycle_end.
    now apply (execute_undisturbed (payload ctrl gl p3 p2 p1 p0)
                 (set_gotcommand true (set_rx later s)) U Hk Hl).
  - rewrite (loop_rx s Hg Hc), Hrx. reflexivity.
  - rewrite (loop_command ctrl gl p3 p2 p1 p0 later s Hg Hc Hrx Hq).
    apply undisturbed_cycle_end.
    now apply (execute_undisturbed (payload ctrl gl p3 p2 p1 p0)
                 (set_gotcommand true (set_rx later s)) U Hk Hl).
  - now apply loop_restores.
Qed.

(** X9: an interrupt request that finds the limit input released at the
    re-check changes nothing.  When the limit input never reads asserted, a
    command runs to completion under every interrupt schedule: the cycle
    writes the direction level, the full burst on the axis output (nothing
    for axis bits 11) and the success frame, and leaves the flags at their
    defaults. *)
Theorem released_switch_never_aborts (ctrl gl p3 p2 p1 p0 : byte)
    (later : list byte) (s : State) :
  cycle_start s ->
  forallb negb (limit_in s) = true ->
  rx s = command_frame ctrl gl p3 p2 p1 p0 ++ later ->
  Z.testbit (byte_val ctrl) 0 = false ->
  trace (loop s) = trace s ++ command_trace (payload ctrl gl p3 p2 p1 p0) /\
  cycle_start (loop s).
Proof.
  intros Hs Hlow Hrx Hq.
  destruct (loop_command_undisturbed ctrl gl p3 p2 p1 p0 later s Hs
              (or_intror Hlow) Hrx Hq) as (Ht & _ & _ & Hs').
  split; assumption.
Qed.

Lemma released_switch_never_aborts_witness :
  trace (loop bench_bounce) =
  DigitalWrite dirpluspin LOW :: pulse_train 3 ypulpluspin
  ++ [SerialWrite [startbyte; xf0; x00; endbyte]].
Proof.
  apply (released_switch_never_aborts x40 x00 x00 x00 x00 x03 []
           bench_bounce); try reflexivity.
  repeat split.
Defined.

Lemma run_commands (commands : list (list byte)) :
  forall (later : list byte) (s : State),
  cycle_start s -> undisturbed s -> Forall is_command commands ->
  rx s = wire commands ++ later ->
  trace (run (length commands) s) =
    trace s ++ concat (map command_trace commands) /\
  rx (run (length commands) s) = later /\
  cycle_start (run (length commands) s).
Proof.
  induction commands as [|p commands IH]; intros later s Hs U Hall Hrx.
  - cbn [length run map concat]. rewrite app_nil_r. auto.
  - inversion Hall as [|? ? Hp Hall']; subst.
    destruct Hp as (ctrl & gl & p3 & p2 & p1 & p0 & -> & Hq).
    assert (Hrx' : rx s = command_frame ctrl gl p3 p2 p1 p0 ++
                          (wire commands ++ later))
      by (rewrite Hrx; unfold wire; cbn [map concat];
          rewrite <- app_assoc; reflexivity).
    destruct (loop_command_undisturbed ctrl gl p3 p2 p1 p0 _ s Hs U Hrx' Hq)
      as (Ht & Hr & U' & Hs').
    destruct (IH later (loop s) Hs' U' Hall' Hr) as (IHt & IHr & IHs).
    cbn [length run map concat].
    rewrite IHt, Ht, <- app_assoc. auto.
Qed.

(** X10: command frames that arrive back to back are executed in arrival
    order, one per cycle, each to completion: with no interrupt requested
    (or the limit input never asserted), after as many cycles as there are
    frames the trace has grown by each command's direction write, burst and
    success frame in turn, the receive stream holds what followed the last
    frame, and the flags are at their defaults. *)
Theorem commands_run_in_arrival_order (commands : list (list byte))
    (later : list byte) (s : State) :
  cycle_start s -> undisturbed s -> Forall is_command commands ->
  rx s = wire commands ++ later ->
  trace (run (length commands) s) =
    trace s ++ concat (map command_trace commands) /\
  rx (run (length commands) s) = later /\
  cycle_start (run (length commands) s).
Proof. exact (run_commands commands later s). Qed.

Lemma commands_run_in_arrival_order_witness :
  trace (run 2 bench_queue) =
  (DigitalWrite dirpluspin LOW :: pulse_train 2 ypulpluspin
   ++ [SerialWrite [startbyte; xf0; x00; endbyte]])
  ++ (DigitalWrite dirpluspin HIGH :: pulse_train 1 xpulpluspin
      ++ [SerialWrite [startbyte; xf0; x00; endbyte]]).
Proof.
  destruct (commands_run_in_arrival_order
              [payload x40 x00 x00 x00 x00 x02;
               payload x20 x00 x00 x00 x00 x01] [] bench_queue)
    as (H & _).
  - repeat split.
  - left. reflexivity.
  - repeat constructor.
    + exists x40, x00, x00, x00, x00, x02. split; reflexivity.
    + exists x20, x00, x00, x00, x00, x01. split; reflexivity.
  - reflexivity.
  - exact H.
Defined.

(** ** A limit hit between two pulses *)

Lemma pulse_loop_aborted (n q m : nat) (rest_irq rest_lim : list bool)
    (pin : Z) (s : State) :
  keeppulsing s = true -> gotcommand s = true ->
  posorneg s = 0 \/ posorneg s = 1 ->
  0 <= xyorz s <= 2 -> pin = axis_pin (xyorz s) ->
  irq s = repeat false (3 * q) ++ true :: rest_irq -> (q <= n)%nat ->
  limit_in s = true :: repeat true m ++ false :: rest_lim ->
  trace (pulse_loop (Some limit) n pin s) =
    trace s ++ pulse_train q pin ++
    DigitalWrite dirpluspin (posorneg s =? 0) :: pulse_train m pin /\
  limithit (pulse_loop (Some limit) n pin s) = true /\
  irq (pulse_loop (Some limit) n pin s) = rest_irq /\
  limit_in (pulse_loop (Some limit) n pin s) = rest_lim.
Proof.
  intros Hk Hg Hd Ha Hpin Hirq Hq Hlim.
  replace n with (q + (n - q))%nat by lia.
  rewrite (pulse_loop_pairs limit q (n - q) pin s _ Hirq Hk).
  set (s1 := set_irq (true :: rest_irq)
               (set_trace (trace s ++ pulse_train q pin) s)).
  assert (E : limit (set_irq rest_irq s1) = _)
    by (apply (limit_reverses_and_walks m rest_lim); assumption).
  rewrite (pulse_loop_fire_head limit (n - q) pin s1 rest_irq eq_refl)
    by (rewrite E; reflexivity).
  rewrite E.
  cbn [trace limithit irq limit_in set_limithit set_keeppulsing set_limit_in
       set_trace set_irq s1 posorneg xyorz].
  rewrite <- Hpin, <- app_assoc. repeat split.
Qed.

Lemma execute_aborted (command : list byte) (s : State) (q m : nat)
    (rest_irq rest_lim : list bool) :
  keeppulsing s = true -> gotcommand s = true ->
  0 <= command_xyorz command <= 2 ->
  irq s = repeat false (3 * q) ++ true :: rest_irq ->
  (q <= Z.to_nat (command_pulses command))%nat ->
  limit_in s = true :: repeat true m ++ false :: rest_lim ->
  trace (execute (Some limit) command s) =
    trace s ++
    DigitalWrite dirpluspin (Z.testbit (cmd command 0) 5)
    :: pulse_train q (axis_pin (command_xyorz command)) ++
    DigitalWrite dirpluspin (negb (Z.testbit (cmd command 0) 5))
    :: pulse_train m (axis_pin (command_xyorz command)) ++
    [SerialWrite [startbyte;
                  if command_gotolimit command then xf0 else x0f;
                  x00; endbyte]] /\
  irq (execute (Some limit) command s) = rest_irq /\
  limit_in (execute (Some limit) command s) = rest_lim.
Proof.
  intros Hk Hg Ha Hirq Hq Hlim. unfold execute.
  rewrite command_posorneg_bit.
  revert Hq. generalize (command_pulses command) as pulses.
  generalize (command_gotolimit command) as gotolimit.
  generalize (Z.testbit (cmd command 0) 5) as negative.
  intros negative gotolimit pulses Hq.
  assert (Hax : command_xyorz command = 0 \/ command_xyorz command = 1 \/
                command_xyorz command = 2) by lia.
  destruct s; simpl in Hk, Hg, Hirq, Hlim; subst.
  destruct Hax as [E|[E|E]]; rewrite E; destruct negative;
    cbn -[pulse pulse_train Z.to_nat limit repeat app Nat.mul];
    unfold pulse;
    match goal with
    | |- context [pulse_loop (Some limit) ?n ?pin ?x] =>
        destruct (pulse_loop_aborted n q m rest_irq rest_lim pin x)
          as (Ht & Hl & Hi & Hli);
        [reflexivity | reflexivity | cbn; auto | cbn; lia | reflexivity
        | reflexivity | exact Hq | reflexivity | ]
    end;
    cbn [trace limithit irq limit_in set_keeppulsing]; rewrite Ht, Hl;
    (split; [|split; assumption]);
    destruct gotolimit; cbn -[pulse_train];
    rewrite <- ?app_assoc; cbn -[pulse_train];
    rewrite <- ?app_assoc; reflexivity.
Qed.

Lemma board_cycle_end (s : State) :
  irq (set_checkremoteused false (set_gotcommand false
         (set_limithit false s))) = irq s /\
  limit_in (set_checkremoteused false (set_gotcommand false
              (set_limithit false s))) = limit_in s.
Proof. split; reflexivity. Qed.

(** X11: a limit hit that the handler takes between two pulses aborts the
    burst for good.  If the request is served at the loop test reached
    after [q] pulses, with the limit input asserted at the re-check and for
    [m] more samples, the cycle writes exactly the direction level, [q]
    commanded pulses, the reversed level, [m] walk-off pulses and the
    response frame: the pulses left of the commanded count are never
    emitted, the commanded direction level is not restored, and the burst
    reaches no further preemption point (the rest of the schedule and of
    the limit samples is left for later). *)
Theorem limit_hit_between_pulses_aborts_burst (ctrl gl p3 p2 p1 p0 : byte)
    (later : list byte) (s : State) (q m : nat)
    (rest_irq rest_lim : list bool) :
  gotcommand s = false -> checkremoteused s = false ->
  keeppulsing s = true ->
  rx s = command_frame ctrl gl p3 p2 p1 p0 ++ later ->
  Z.testbit (byte_val ctrl) 0 = false ->
  command_xyorz (payload ctrl gl p3 p2 p1 p0) <= 2 ->
  irq s = repeat false (3 * q) ++ true :: rest_irq ->
  (q <= Z.to_nat (command_pulses (payload ctrl gl p3 p2 p1 p0)))%nat ->
  limit_in s = true :: repeat true m ++ false :: rest_lim ->
  trace (loop s) =
    trace s ++
    DigitalWrite dirpluspin (Z.testbit (byte_val ctrl) 5)
    :: pulse_train q (axis_pin (command_xyorz (payload ctrl gl p3 p2 p1 p0)))
    ++ DigitalWrite dirpluspin (negb (Z.testbit (byte_val ctrl) 5))
    :: pulse_train m (axis_pin (command_xyorz (payload ctrl gl p3 p2 p1 p0)))
    ++ [SerialWrite [startbyte; if Byte.eqb gl xff then xf0 else x0f;
                     x00; endbyte]] /\
  irq (loop s) = rest_irq /\ limit_in (loop s) = rest_lim.
Proof.
  intros Hg Hc Hk Hrx Hq Ha Hirq Hj Hlim.
  pose proof (command_xyorz_range (payload ctrl gl p3 p2 p1 p0)) as Hr.
  rewrite (loop_command ctrl gl p3 p2 p1 p0 later s) by assumption.
  match goal with
  | |- context [execute (Some limit) ?c ?x] =>
      destruct (board_cycle_end (execute (Some limit) c x)) as (F1 & F2);
      destruct (execute_aborted c x q m rest_irq rest_lim)
        as (Ht & Hi & Hli); auto; try lia
  end.
  rewrite trace_cycle_end, F1, F2, Ht, Hi, Hli.
  rewrite <- (gotolimit_all_ones ctrl gl p3 p2 p1 p0).
  repeat split.
Qed.

Lemma limit_hit_between_pulses_aborts_burst_witness :
  trace (loop bench_homing) =
  DigitalWrite dirpluspin LOW :: pulse_train 1 ypulpluspin
  ++ DigitalWrite dirpluspin HIGH :: pulse_train 2 ypulpluspin
  ++ [SerialWrite [startbyte; xf0; x00; endbyte]].
Proof.
  apply (limit_hit_between_pulses_aborts_burst x40 xff x00 x00 x00 x03 []
           bench_homing 1 2 [] []);
    try reflexivity.
  - vm_compute. discriminate.
  - change (1 <= Z.to_nat 4294967295)%nat. lia.
Defined.

(** ** Branches of the handler that no burst reaches *)

Section GuardedBy.

Variable ready : State -> Prop.
Variables h1 h2 : State -> State.
Hypothesis ready_irq : forall v s, ready s -> ready (set_irq v s).
Hypothesis ready_write :
  forall pin level s, ready s -> ready (digitalWrite pin level s).
Hypothesis ready_kept : forall x, ready x -> ready (h1 x).
Hypothesis ready_agree : forall x, ready x -> h1 x = h2 x.

Lemma preempt_agree_on (s : State) :
  ready s ->
  preempt (Some h1) s = preempt (Some h2) s /\ ready (preempt (Some h1) s).
Proof.
  intros Hr. unfold preempt.
  destruct (irq s) as [|[] later]; split; auto.
Qed.

Lemma pulse_loop_agree_on (n : nat) (pin : Z) :
  forall s, ready s ->
  pulse_loop (Some h1) n pin s = pulse_loop (Some h2) n pin s.
Proof.
  induction n as [|n IH]; intros s Hr; cbn [pulse_loop];
    destruct (preempt_agree_on s Hr) as [E1 G1]; rewrite <- E1;
    [reflexivity|].
  destruct (keeppulsing (preempt (Some h1) s)); [|reflexivity].
  destruct (preempt_agree_on _ G1) as [E2 G2]. rewrite <- E2.
  destruct (preempt_agree_on _ (ready_write pin HIGH _ G2)) as [E3 G3].
  rewrite <- E3. apply IH. now apply ready_write.
Qed.

Lemma pulse_agree_on (pulses pin : Z) (s : State) :
  ready s ->
  pulse (Some h1) pulses pin s = pulse (Some h2) pulses pin s.
Proof. intros Hr. unfold pulse. now rewrite pulse_loop_agree_on. Qed.

End GuardedBy.

Lemma pulse_ready_agree (h : State -> State) (pulses pin : Z) (s : State) :
  (forall x, burst_ready x -> limit x = h x) ->
  burst_ready s ->
  pulse (Some limit) pulses pin s = pulse (Some h) pulses pin s.
Proof.
  intros Hh Hr. apply (pulse_agree_on burst_ready); auto.
  intros x (Hg & Hp & Ha). unfold burst_ready.
  rewrite (spared_limit gotcommand), (spared_limit posorneg),
    (spared_limit xyorz) by spared_tac.
  auto.
Qed.

Lemma execute_ready_agree (h : State -> State) (command : list byte)
    (s : State) :
  (forall x, burst_ready x -> limit x = h x) ->
  gotcommand s = true ->
  execute (Some limit) command s = execute (Some h) command s.
Proof.
  intros Hh Hg. unfold execute. rewrite command_posorneg_bit.
  generalize (command_pulses command) as pulses.
  generalize (command_xyorz command) as axis.
  generalize (Z.testbit (cmd command 0) 5) as negative.
  intros negative axis pulses.
  unfold directionpositive, directionnegative.
  cbn [posorneg set_posorneg xyorz set_xyorz].
  destruct negative; cbn [Z.b2z Z.eqb];
    (destruct (axis =? 0) eqn:E0;
     [|destruct (axis =? 1) eqn:E1; [|destruct (axis =? 2) eqn:E2]]);
    try reflexivity;
    (rewrite (pulse_ready_agree h) by
        (auto; unfold burst_ready;
         cbn [gotcommand posorneg xyorz set_xyorz set_posorneg digitalWrite
              emit set_trace];
         apply Z.eqb_eq in E0 || apply Z.eqb_eq in E1
         || apply Z.eqb_eq in E2;
         repeat split; auto; lia));
    reflexivity.
Qed.

Lemma joystick_ready_agree (h : State -> State) (s : State) :
  (forall x, burst_ready x -> limit x = h x) ->
  joystick (Some limit) s = joystick (Some h) s.
Proof.
  intros Hh. unfold joystick.
  assert (Hg : gotcommand (joystick_read s) = true)
    by (rewrite joystick_read_state; reflexivity).
  revert Hg. generalize (joystick_read s) as r. intros r Hg.
  assert (E : joystick_move (Some limit) r = joystick_move (Some h) r).
  { unfold joystick_move, directionpositive, directionnegative.
    repeat match goal with
           | |- context [if ?c then _ else _] => destruct c
           end;
      cbv zeta; try reflexivity;
      (rewrite (pulse_ready_agree h) by
          (auto; unfold burst_ready;
           cbn [gotcommand posorneg xyorz set_xyorz set_posorneg
                digitalWrite emit set_trace];
           repeat split; auto; lia));
      reflexivity. }
  now rewrite E.
Qed.

Lemma burst_readyb_true (s : State) : burst_ready s -> burst_readyb s = true.
Proof.
  intros (Hg & Hp & Ha). unfold burst_readyb. rewrite Hg.
  replace ((posorneg s =? 0) || (posorneg s =? 1)) with true
    by (destruct Hp as [-> | ->]; reflexivity).
  replace (0 <=? xyorz s) with true by (symmetry; apply Z.leb_le; lia).
  replace (xyorz s <=? 2) with true by (symmetry; apply Z.leb_le; lia).
  reflexivity.
Qed.

(** X12: a handler run that preempts a pulse burst takes none of its
    fall-through branches.  Whenever the handler is served at a preemption
    point of [pulse], a command is executing, [posorneg] is 0 or 1 and
    [xyorz] is 0, 1 or 2; so, under the assumption that the interrupt fires
    only while a burst is in progress, the branches on line 39 (no
    command), lines 47-48 (no reversal) and lines 61-62 (no axis) are not
    taken: [loop] cannot tell [limit] from any handler that agrees with it
    on those states, for instance from the one that wipes the trace
    everywhere else.  (Served outside a burst the handler does take the
    branches of line 39 and of lines 61-62.) *)
Theorem burst_handler_takes_no_fallthrough (h : State -> State) :
  (forall x, burst_ready x -> limit x = h x) ->
  (forall s, loop s = cycle (Some h) s) /\
  (forall s, loop s = cycle (Some limit_trapped) s).
Proof.
  assert (Hany : forall h', (forall x, burst_ready x -> limit x = h' x) ->
                            forall s, loop s = cycle (Some h') s).
  { intros h' Hh s. unfold loop, cycle.
    destruct (receive s) as [command s1].
    destruct (checkremoteused s1);
      match goal with
      | |- context [if gotcommand ?y then _ else _] =>
          destruct (gotcommand y) eqn:G
      end;
      rewrite ?(execute_ready_agree h') by (exact Hh || exact G);
      rewrite ?(joystick_ready_agree h') by exact Hh; reflexivity. }
  intros Hh. split; [now apply Hany|].
  apply Hany. intros x Hx. unfold limit_trapped.
  now rewrite (burst_readyb_true x Hx).
Qed.

Lemma burst_handler_takes_no_fallthrough_witness :
  loop bench_limit = cycle (Some limit_trapped) bench_limit.
Proof.
  apply (burst_handler_takes_no_fallthrough limit). reflexivity.
Defined.

(** ** Outputs a burst leaves alone *)

Lemma pulse_masked_stalled (pulses pin : Z) (s : State) :
  keeppulsing s = false -> pulse None pulses pin s = set_keeppulsing true s.
Proof.
  intros Hk. unfold pulse.
  destruct (Z.to_nat pulses); cbn [pulse_loop preempt]; now rewrite ?Hk.
Qed.

Lemma xyorz_limit_step (s : State) : xyorz (limit_step s) = xyorz s.
Proof.
  symmetry. apply (tolerated_limit_step (fun a b => xyorz a = xyorz b));
    intros; auto; congruence.
Qed.

Lemma xyorz_preempt (s : State) : xyorz (preempt (Some limit) s) = xyorz s.
Proof.
  symmetry. apply (tolerated_preempt (fun a b => xyorz a = xyorz b));
    intros; auto; try congruence.
  symmetry. apply (spared_limit xyorz). spared_tac.
Qed.

Section OtherOutput.

(** [p] is an output other than the direction output. *)
Variable p : Z.
Hypothesis p_not_direction : p <> dirpluspin.

Lemma write_elsewhere (pin : Z) (level : bool) (s : State) :
  pin <> p ->
  writes_on p (trace (digitalWrite pin level s)) = writes_on p (trace s).
Proof.
  intros Hne. unfold digitalWrite, emit. cbn [trace set_trace].
  rewrite writes_on_app. cbn [writes_on filter on_pin].
  replace (pin =? p) with false by (symmetry; now apply Z.eqb_neq).
  apply app_nil_r.
Qed.

Lemma pulse_masked_elsewhere (pin : Z) (s : State) :
  pin <> p ->
  writes_on p (trace (pulse None 1 pin s)) = writes_on p (trace s).
Proof.
  intros Hne. destruct (keeppulsing s) eqn:Hk.
  - rewrite pulse_masked_one by exact Hk. cbn [trace set_trace].
    rewrite writes_on_app. cbn [writes_on filter on_pin pulse_pair].
    replace (pin =? p) with false by (symmetry; now apply Z.eqb_neq).
    apply app_nil_r.
  - rewrite pulse_masked_stalled by exact Hk. reflexivity.
Qed.

Lemma limit_step_elsewhere (s : State) :
  p <> axis_pin (xyorz s) ->
  writes_on p (trace (limit_step s)) = writes_on p (trace s).
Proof.
  unfold limit_step, axis_pin. intros Hne.
  destruct (xyorz s =? 0);
    [apply pulse_masked_elsewhere; congruence|].
  destruct (xyorz s =? 1);
    [apply pulse_masked_elsewhere; congruence|].
  destruct (xyorz s =? 2);
    [apply pulse_masked_elsewhere; congruence|reflexivity].
Qed.

Lemma limit_walk_elsewhere (samples : list bool) :
  forall s, p <> axis_pin (xyorz s) ->
  writes_on p (trace (limit_walk samples s)) = writes_on p (trace s).
Proof.
  induction samples as [|[] later IH]; intros s Hne; cbn [limit_walk];
    try reflexivity.
  rewrite IH by (rewrite xyorz_limit_step; exact Hne).
  now rewrite limit_step_elsewhere by exact Hne.
Qed.

Lemma limit_elsewhere (s : State) :
  p <> axis_pin (xyorz s) ->
  writes_on p (trace (limit s)) = writes_on p (trace s).
Proof.
  intros Hne. unfold limit, digitalRead_limit.
  destruct (limit_in s) as [|[] later]; try reflexivity.
  destruct (gotcommand (set_limit_in later s)); [|reflexivity].
  unfold limit_action, directionnegative, directionpositive.
  cbn [trace set_limithit set_keeppulsing].
  repeat match goal with
         | |- context [if ?c =? ?d then _ else _] => destruct (c =? d)
         end;
    rewrite limit_walk_elsewhere by exact Hne;
    rewrite ?write_elsewhere by congruence; reflexivity.
Qed.

Lemma preempt_elsewhere (s : State) :
  p <> axis_pin (xyorz s) ->
  writes_on p (trace (preempt (Some limit) s)) = writes_on p (trace s).
Proof.
  intros Hne. unfold preempt. destruct (irq s) as [|[] later]; auto.
  now rewrite limit_elsewhere.
Qed.

Lemma pulse_loop_elsewhere (n : nat) :
  forall s, p <> axis_pin (xyorz s) ->
  writes_on p (trace (pulse_loop (Some limit) n (axis_pin (xyorz s)) s)) =
  writes_on p (trace s).
Proof.
  induction n as [|n IH]; intros s Hne; cbn [pulse_loop].
  - now apply preempt_elsewhere.
  - destruct (keeppulsing (preempt (Some limit) s));
      [|now apply preempt_elsewhere].
    set (s3 := digitalWrite (axis_pin (xyorz s)) LOW
                 (preempt (Some limit)
                    (digitalWrite (axis_pin (xyorz s)) HIGH
                       (preempt (Some limit) (preempt (Some limit) s))))).
    assert (Hx : xyorz s3 = xyorz s)
      by (unfold s3, digitalWrite, emit; cbn [xyorz set_trace];
          rewrite xyorz_preempt; cbn [xyorz set_trace];
          now rewrite !xyorz_preempt).
    rewrite <- Hx at 1. rewrite IH by (rewrite Hx; exact Hne).
    unfold s3.
    rewrite write_elsewhere by congruence.
    rewrite preempt_elsewhere
      by (unfold digitalWrite, emit; cbn [xyorz set_trace];
          now rewrite !xyorz_preempt).
    rewrite write_elsewhere by congruence.
    rewrite preempt_elsewhere by (now rewrite xyorz_preempt).
    now apply preempt_elsewhere.
Qed.

Lemma pulse_elsewhere (pulses : Z) (s : State) :
  p <> axis_pin (xyorz s) ->
  writes_on p (trace (pulse (Some limit) pulses (axis_pin (xyorz s)) s)) =
  writes_on p (trace s).
Proof.
  intros Hne. unfold pulse. cbn [trace set_keeppulsing].
  now apply pulse_loop_elsewhere.
Qed.

End OtherOutput.

Lemma writes_on_frame (p : Z) (frame : list byte) (s : State) :
  writes_on p (trace (Serial_write frame s)) = writes_on p (trace s).
Proof.
  rewrite Serial_write_trace, writes_on_app. apply app_nil_r.
Qed.

Lemma execute_elsewhere (p : Z) (command : list byte) (s : State) :
  p <> dirpluspin -> p <> axis_pin (command_xyorz command) ->
  writes_on p (trace (execute (Some limit) command s)) =
  writes_on p (trace s).
Proof.
  intros Hd Hne. unfold execute. cbv zeta. rewrite writes_on_frame.
  set (Y := set_xyorz (command_xyorz command) _).
  assert (HxY : xyorz Y = command_xyorz command) by reflexivity.
  assert (HtY : writes_on p (trace Y) = writes_on p (trace s)).
  { unfold Y, directionpositive, directionnegative.
    repeat match goal with
           | |- context [if ?c =? ?d then _ else _] => destruct (c =? d)
           end;
      rewrite ?write_commutes_xyorz;
      rewrite ?write_elsewhere by congruence; reflexivity. }
  clearbody Y.
  destruct (xyorz Y =? 0) eqn:E0;
    [|destruct (xyorz Y =? 1) eqn:E1; [|destruct (xyorz Y =? 2) eqn:E2]];
    try exact HtY;
    [ apply Z.eqb_eq in E0;
      replace xpulpluspin with (axis_pin (xyorz Y))
        by (rewrite E0; reflexivity)
    | apply Z.eqb_eq in E1;
      replace ypulpluspin with (axis_pin (xyorz Y))
        by (rewrite E1; reflexivity)
    | apply Z.eqb_eq in E2;
      replace zpulpluspin with (axis_pin (xyorz Y))
        by (rewrite E2; reflexivity) ];
    (rewrite pulse_elsewhere; [exact HtY | exact Hd | now rewrite HxY]).
Qed.

Lemma joystick_elsewhere (p : Z) (s : State) :
  p <> dirpluspin -> p <> xpulpluspin -> p <> ypulpluspin ->
  writes_on p (trace (joystick (Some limit) s)) = writes_on p (trace s).
Proof.
  intros Hd Hx Hy. unfold joystick. rewrite joystick_done_trace.
  assert (E : forall r,
             writes_on p (trace (joystick_move (Some limit) r)) =
             writes_on p (trace r)).
  { intros r. unfold joystick_move, directionnegative, directionpositive.
    repeat match goal with
           | |- context [if ?c then _ else _] => destruct c
           end;
      cbv zeta; try reflexivity; cbn [trace set_remoteinuse];
      match goal with
      | |- context [pulse (Some limit) 1 ?pin ?x] =>
          change pin with (axis_pin (xyorz x));
          rewrite (pulse_elsewhere p Hd 1 x) by (cbn; assumption)
      end;
      cbn [trace set_xyorz set_posorneg];
      now rewrite write_elsewhere by congruence. }
  rewrite E, joystick_read_state. reflexivity.
Qed.

(** X13: with the handler served only while a burst is in progress, step
    pulses appear on one axis output per cycle.  In a cycle that executes a
    command no output other than the direction output and the addressed
    axis output is written; in a cycle that runs the joystick branch no
    output other than the direction output and the X and Y outputs is
    written.  This holds for every schedule of requests served inside the
    bursts: there the handler walks the axis the cycle selected and no
    other.  (A hit served after a command is decoded and before line 221
    loads the axis register walks the axis of the previous cycle.) *)
Theorem bursts_write_selected_axis_only (p : Z) (s : State) :
  gotcommand s = false -> checkremoteused s = false ->
  p <> dirpluspin ->
  (gotcommand (snd (receive s)) = true ->
   p <> axis_pin (command_xyorz (fst (receive s))) ->
   writes_on p (trace (loop s)) = writes_on p (trace s)) /\
  (gotcommand (snd (receive s)) = false ->
   p <> xpulpluspin -> p <> ypulpluspin ->
   writes_on p (trace (loop s)) = writes_on p (trace s)).
Proof.
  intros Hg Hc Hd.
  destruct (loop_cases s Hg Hc)
    as [(Hg' & Hc' & E)|[(Hg' & Hc' & E)|(Hg' & Hc' & E)]];
    rewrite Hg', E, trace_cycle_end; split; try discriminate.
  - intros _ Hx Hy. now rewrite joystick_elsewhere.
  - intros _ Hx Hy.
    rewrite joystick_elsewhere by assumption.
    rewrite remote_reply_trace, writes_on_app. apply app_nil_r.
  - intros _ Hne. now rewrite execute_elsewhere.
Qed.

Lemma bursts_write_selected_axis_only_witness :
  writes_on xpulpluspin (trace (loop bench_limit)) = [] /\
  writes_on zpulpluspin (trace (loop bench_stick_limit)) = [].
Proof.
  split.
  - destruct (bursts_write_selected_axis_only xpulpluspin bench_limit
                eq_refl eq_refl) as (H & _); [discriminate|].
    apply H; [reflexivity|discriminate].
  - destruct (bursts_write_selected_axis_only zpulpluspin bench_stick_limit
                eq_refl eq_refl) as (_ & H); [discriminate|].
    apply H; [reflexivity|discriminate|discriminate].
Defined.

(** ** A limit hit inside a pulse *)

Lemma burst_entry_state (command : list byte) (s : State) :
  keeppulsing (burst_entry command s) = keeppulsing s /\
  gotcommand (burst_entry command s) = gotcommand s /\
  posorneg (burst_entry command s) =
    Z.b2z (Z.testbit (cmd command 0) 5) /\
  xyorz (burst_entry command s) = command_xyorz command /\
  irq (burst_entry command s) = irq s /\
  limit_in (burst_entry command s) = limit_in s /\
  trace (burst_entry command s) =
    trace s ++ [DigitalWrite dirpluspin (Z.testbit (cmd command 0) 5)].
Proof.
  unfold burst_entry. rewrite command_posorneg_bit. repeat split.
Qed.

Lemma execute_by_burst (command : list byte) (s : State) :
  0 <= command_xyorz command <= 2 ->
  exists y,
    y = pulse_loop (Some limit) (Z.to_nat (command_pulses command))
          (axis_pin (command_xyorz command)) (burst_entry command s) /\
    trace (execute (Some limit) command s) =
      trace y ++
      [SerialWrite [startbyte;
                    if limithit y && negb (command_gotolimit command)
                    then x0f else xf0;
                    x00; endbyte]] /\
    irq (execute (Some limit) command s) = irq y /\
    limit_in (execute (Some limit) command s) = limit_in y.
Proof.
  intros Ha. eexists. split; [reflexivity|].
  unfold execute, burst_entry, pulse. rewrite command_posorneg_bit.
  generalize (command_pulses command) as pulses.
  generalize (command_gotolimit command) as gotolimit.
  generalize (Z.testbit (cmd command 0) 5) as negative.
  intros negative gotolimit pulses.
  assert (Hax : command_xyorz command = 0 \/ command_xyorz command = 1 \/
                command_xyorz command = 2) by lia.
  destruct Hax as [E|[E|E]]; rewrite E; destruct negative;
    cbn -[pulse_loop Z.to_nat limit]; repeat split.
Qed.

Lemma pulse_loop_stopped (n : nat) (pin : Z) (s : State) (r : list bool) :
  irq s = false :: r -> keeppulsing s = false ->
  pulse_loop (Some limit) n pin s = set_irq r s.
Proof.
  intros E Hk. destruct s; simpl in E, Hk; subst.
  destruct n; reflexivity.
Qed.

Lemma pulse_loop_late_hit (n q m : nat) (rest_irq rest_lim : list bool)
    (pin : Z) (s : State) :
  keeppulsing s = true -> gotcommand s = true ->
  posorneg s = 0 \/ posorneg s = 1 ->
  0 <= xyorz s <= 2 -> pin = axis_pin (xyorz s) ->
  irq s = repeat false (3 * q)
            ++ false :: true :: false :: false :: rest_irq ->
  (q < n)%nat ->
  limit_in s = true :: repeat true m ++ false :: rest_lim ->
  trace (pulse_loop (Some limit) n pin s) =
    trace s ++ pulse_train q pin ++
    DigitalWrite dirpluspin (posorneg s =? 0) :: pulse_train m pin ++
    pulse_pair pin /\
  limithit (pulse_loop (Some limit) n pin s) = true /\
  irq (pulse_loop (Some limit) n pin s) = rest_irq /\
  limit_in (pulse_loop (Some limit) n pin s) = rest_lim.
Proof.
  intros Hk Hg Hd Ha Hpin Hirq Hq Hlim.
  replace n with (q + S (n - q - 1))%nat by lia.
  rewrite (pulse_loop_pairs limit q _ pin s _ Hirq Hk).
  set (s1 := set_irq (false :: true :: false :: false :: rest_irq)
               (set_trace (trace s ++ pulse_train q pin) s)).
  rewrite (pulse_loop_fire_checked limit _ pin s1
             (false :: false :: rest_irq) eq_refl Hk).
  assert (E : limit (set_irq (false :: false :: rest_irq) s1) = _)
    by (apply (limit_reverses_and_walks m rest_lim); assumption).
  rewrite E.
  match goal with
  | |- context [preempt (Some limit) ?x] =>
      rewrite (preempt_skip limit x (false :: rest_irq) eq_refl)
  end.
  match goal with
  | |- context [pulse_loop (Some limit) ?k pin ?x] =>
      rewrite (pulse_loop_stopped k pin x rest_irq eq_refl eq_refl)
  end.
  cbn [trace limithit irq limit_in set_limithit set_keeppulsing set_limit_in
       set_trace set_irq s1 posorneg xyorz digitalWrite emit].
  rewrite <- Hpin. unfold pulse_pair.
  rewrite <- ?app_assoc. cbn [app]. rewrite <- ?app_assoc. cbn [app].
  repeat split.
Qed.

Lemma pulse_loop_mid_hit (n q m : nat) (rest_irq rest_lim : list bool)
    (pin : Z) (s : State) :
  keeppulsing s = true -> gotcommand s = true ->
  posorneg s = 0 \/ posorneg s = 1 ->
  0 <= xyorz s <= 2 -> pin = axis_pin (xyorz s) ->
  irq s = repeat false (3 * q)
            ++ false :: false :: true :: false :: rest_irq ->
  (q < n)%nat ->
  limit_in s = true :: repeat true m ++ false :: rest_lim ->
  trace (pulse_loop (Some limit) n pin s) =
    trace s ++ pulse_train q pin ++
    DigitalWrite pin HIGH ::
    DigitalWrite dirpluspin (posorneg s =? 0) :: pulse_train m pin ++
    [DigitalWrite pin LOW] /\
  limithit (pulse_loop (Some limit) n pin s) = true /\
  irq (pulse_loop (Some limit) n pin s) = rest_irq /\
  limit_in (pulse_loop (Some limit) n pin s) = rest_lim.
Proof.
  intros Hk Hg Hd Ha Hpin Hirq Hq Hlim.
  replace n with (q + S (n - q - 1))%nat by lia.
  rewrite (pulse_loop_pairs limit q _ pin s _ Hirq Hk).
  set (s1 := set_irq (false :: false :: true :: false :: rest_irq)
               (set_trace (trace s ++ pulse_train q pin) s)).
  rewrite (pulse_loop_fire_mid limit _ pin s1 (false :: rest_irq)
             eq_refl Hk).
  assert (E : limit (set_irq (false :: rest_irq)
                       (digitalWrite pin HIGH s1)) = _)
    by (apply (limit_reverses_and_walks m rest_lim); assumption).
  rewrite E.
  match goal with
  | |- context [pulse_loop (Some limit) ?k pin ?x] =>
      rewrite (pulse_loop_stopped k pin x rest_irq eq_refl eq_refl)
  end.
  cbn [trace limithit irq limit_in set_limithit set_keeppulsing set_limit_in
       set_trace set_irq s1 posorneg xyorz digitalWrite emit].
  rewrite <- Hpin.
  rewrite <- ?app_assoc. cbn [app]. rewrite <- ?app_assoc. cbn [app].
  repeat split.
Qed.

Lemma loop_command_by_burst (ctrl gl p3 p2 p1 p0 : byte) (later : list byte)
    (s : State) (burst : list Event) (hit : bool)
    (rest_irq rest_lim : list bool) :
  gotcommand s = false -> checkremoteused s = false ->
  rx s = command_frame ctrl gl p3 p2 p1 p0 ++ later ->
  Z.testbit (byte_val ctrl) 0 = false ->
  command_xyorz (payload ctrl gl p3 p2 p1 p0) <= 2 ->
  (forall x y,
     x = burst_entry (payload ctrl gl p3 p2 p1 p0)
           (set_gotcommand true (set_rx later s)) ->
     y = pulse_loop (Some limit)
           (Z.to_nat (command_pulses (payload ctrl gl p3 p2 p1 p0)))
           (axis_pin (command_xyorz (payload ctrl gl p3 p2 p1 p0))) x ->
     trace y = trace x ++ burst /\ limithit y = hit /\
     irq y = rest_irq /\ limit_in y = rest_lim) ->
  trace (loop s) =
    trace s ++
    DigitalWrite dirpluspin (Z.testbit (byte_val ctrl) 5) :: burst ++
    [SerialWrite [startbyte;
                  if hit && negb (Byte.eqb gl xff) then x0f else xf0;
                  x00; endbyte]] /\
  irq (loop s) = rest_irq /\ limit_in (loop s) = rest_lim.
Proof.
  intros Hg Hc Hrx Hq Ha Hburst.
  pose proof (command_xyorz_range (payload ctrl gl p3 p2 p1 p0)) as Hr.
  rewrite (loop_command ctrl gl p3 p2 p1 p0 later s) by assumption.
  set (c := payload ctrl gl p3 p2 p1 p0) in *.
  set (x := set_gotcommand true (set_rx later s)) in *.
  destruct (board_cycle_end (execute (Some limit) c x)) as (F1 & F2).
  destruct (execute_by_burst c x) as (y & Hy & Ht & Hi & Hl); [lia|].
  destruct (burst_entry_state c x) as (_ & _ & _ & _ & _ & _ & B7).
  destruct (Hburst _ y eq_refl Hy) as (Pt & Ph & Pi & Pl).
  rewrite trace_cycle_end, F1, F2, Ht, Hi, Hl, Pt, Ph, Pi, Pl, B7.
  unfold c at 2. rewrite gotolimit_all_ones.
  rewrite <- !app_assoc. repeat split.
Qed.

Ltac burst_state x y :=
  intros x y -> ->;
  match goal with
  | |- context [burst_entry ?c ?s] =>
      destruct (burst_entry_state c s)
        as (B1 & B2 & B3 & B4 & B5 & B6 & B7)
  end.

(** X14: a limit hit served right after the loop test has passed lets one
    more commanded pulse through.  The handler reverses the direction and
    walks off the switch with [m] pulses; the main path, which had already
    found the continuation flag set, then emits the pulse it had decided
    on, with the direction output still at the reversed level, and only
    the next loop test ends the burst. *)
Theorem limit_hit_after_loop_test_lets_one_pulse_through
    (ctrl gl p3 p2 p1 p0 : byte) (later : list byte) (s : State)
    (q m : nat) (rest_irq rest_lim : list bool) :
  gotcommand s = false -> checkremoteused s = false ->
  keeppulsing s = true ->
  rx s = command_frame ctrl gl p3 p2 p1 p0 ++ later ->
  Z.testbit (byte_val ctrl) 0 = false ->
  command_xyorz (payload ctrl gl p3 p2 p1 p0) <= 2 ->
  irq s = repeat false (3 * q)
            ++ false :: true :: false :: false :: rest_irq ->
  (q < Z.to_nat (command_pulses (payload ctrl gl p3 p2 p1 p0)))%nat ->
  limit_in s = true :: repeat true m ++ false :: rest_lim ->
  trace (loop s) =
    trace s ++
    DigitalWrite dirpluspin (Z.testbit (byte_val ctrl) 5)
    :: (pulse_train q
          (axis_pin (command_xyorz (payload ctrl gl p3 p2 p1 p0)))
        ++ DigitalWrite dirpluspin (negb (Z.testbit (byte_val ctrl) 5))
        :: pulse_train m
             (axis_pin (command_xyorz (payload ctrl gl p3 p2 p1 p0)))
        ++ pulse_pair
             (axis_pin (command_xyorz (payload ctrl gl p3 p2 p1 p0))))
    ++ [SerialWrite [startbyte;
                     if Byte.eqb gl xff then xf0 else x0f;
                     x00; endbyte]] /\
  irq (loop s) = rest_irq /\ limit_in (loop s) = rest_lim.
Proof.
  intros Hg Hc Hk Hrx Hq Ha Hirq Hj Hlim.
  pose proof (command_xyorz_range (payload ctrl gl p3 p2 p1 p0)) as Hr.
  replace (if Byte.eqb gl xff then xf0 else x0f)
    with (if true && negb (Byte.eqb gl xff) then x0f else xf0)
    by now destruct (Byte.eqb gl xff).
  apply (loop_command_by_burst ctrl gl p3 p2 p1 p0 later s); try assumption.
  burst_state x y.
  match goal with
  | |- context [pulse_loop (Some limit) ?n ?pin ?x] =>
      destruct (pulse_loop_late_hit n q m rest_irq rest_lim pin x)
        as (Pt & Ph & Pi & Pl)
  end;
    rewrite ?B1, ?B2, ?B3, ?B4, ?B5, ?B6; try assumption; try reflexivity;
    try lia.
  - destruct (Z.testbit _ 5); auto.
  - rewrite Pt, B3. repeat split; try assumption.
    change (cmd (payload ctrl gl p3 p2 p1 p0) 0) with (byte_val ctrl).
    now destruct (Z.testbit (byte_val ctrl) 5).
Qed.

Lemma limit_hit_after_loop_test_lets_one_pulse_through_witness :
  trace (loop bench_late_hit) =
  DigitalWrite dirpluspin LOW
  :: (pulse_train 1 ypulpluspin
      ++ DigitalWrite dirpluspin HIGH
      :: pulse_train 1 ypulpluspin ++ pulse_pair ypulpluspin)
  ++ [SerialWrite [startbyte; x0f; x00; endbyte]].
Proof.
  refine (proj1 (limit_hit_after_loop_test_lets_one_pulse_through
                   x40 x00 x00 x00 x00 x03 [] bench_late_hit 1 1 [] []
                   eq_refl eq_refl eq_refl eq_refl eq_refl _
                   eq_refl _ eq_refl)).
  - vm_compute. discriminate.
  - vm_compute. lia.
Defined.

(** X15: a limit hit served between the HIGH and the LOW write of a pulse
    is handled with the axis output held HIGH.  The reversal and the [m]
    walk-off pulses of the handler come after the HIGH write of the
    interrupted pulse, whose LOW write follows them; the next loop test
    ends the burst. *)
Theorem limit_hit_inside_pulse_splits_it
    (ctrl gl p3 p2 p1 p0 : byte) (later : list byte) (s : State)
    (q m : nat) (rest_irq rest_lim : list bool) :
  gotcommand s = false -> checkremoteused s = false ->
  keeppulsing s = true ->
  rx s = command_frame ctrl gl p3 p2 p1 p0 ++ later ->
  Z.testbit (byte_val ctrl) 0 = false ->
  command_xyorz (payload ctrl gl p3 p2 p1 p0) <= 2 ->
  irq s = repeat false (3 * q)
            ++ false :: false :: true :: false :: rest_irq ->
  (q < Z.to_nat (command_pulses (payload ctrl gl p3 p2 p1 p0)))%nat ->
  limit_in s = true :: repeat true m ++ false :: rest_lim ->
  trace (loop s) =
    trace s ++
    DigitalWrite dirpluspin (Z.testbit (byte_val ctrl) 5)
    :: (pulse_train q
          (axis_pin (command_xyorz (payload ctrl gl p3 p2 p1 p0)))
        ++ DigitalWrite
             (axis_pin (command_xyorz (payload ctrl gl p3 p2 p1 p0))) HIGH
        :: DigitalWrite dirpluspin (negb (Z.testbit (byte_val ctrl) 5))
        :: pulse_train m
             (axis_pin (command_xyorz (payload ctrl gl p3 p2 p1 p0)))
        ++ [DigitalWrite
              (axis_pin (command_xyorz (payload ctrl gl p3 p2 p1 p0)))
              LOW])
    ++ [SerialWrite [startbyte;
                     if Byte.eqb gl xff then xf0 else x0f;
                     x00; endbyte]] /\
  irq (loop s) = rest_irq /\ limit_in (loop s) = rest_lim.
Proof.
  intros Hg Hc Hk Hrx Hq Ha Hirq Hj Hlim.
  pose proof (command_xyorz_range (payload ctrl gl p3 p2 p1 p0)) as Hr.
  replace (if Byte.eqb gl xff then xf0 else x0f)
    with (if true && negb (Byte.eqb gl xff) then x0f else xf0)
    by now destruct (Byte.eqb gl xff).
  apply (loop_command_by_burst ctrl gl p3 p2 p1 p0 later s); try assumption.
  burst_state x y.
  match goal with
  | |- context [pulse_loop (Some limit) ?n ?pin ?x] =>
      destruct (pulse_loop_mid_hit n q m rest_irq rest_lim pin x)
        as (Pt & Ph & Pi & Pl)
  end;
    rewrite ?B1, ?B2, ?B3, ?B4, ?B5, ?B6; try assumption; try reflexivity;
    try lia.
  - destruct (Z.testbit _ 5); auto.
  - rewrite Pt, B3. repeat split; try assumption.
    change (cmd (payload ctrl gl p3 p2 p1 p0) 0) with (byte_val ctrl).
    now destruct (Z.testbit (byte_val ctrl) 5).
Qed.

Lemma limit_hit_inside_pulse_splits_it_witness :
  trace (loop bench_mid_hit) =
  DigitalWrite dirpluspin LOW
  :: (pulse_train 1 ypulpluspin
      ++ DigitalWrite ypulpluspin HIGH
      :: DigitalWrite dirpluspin HIGH
      :: pulse_train 1 ypulpluspin ++ [DigitalWrite ypulpluspin LOW])
  ++ [SerialWrite [startbyte; x0f; x00; endbyte]].
Proof.
  refine (proj1 (limit_hit_inside_pulse_splits_it
                   x40 x00 x00 x00 x00 x03 [] bench_mid_hit 1 1 [] []
                   eq_refl eq_refl eq_refl eq_refl eq_refl _
                   eq_refl _ eq_refl)).
  - vm_compute. discriminate.
  - vm_compute. lia.
Defined.

(** ** The handler entered with the continuation flag cleared *)

Lemma limit_step_stalled (s : State) :
  0 <= xyorz s <= 2 -> keeppulsing s = false ->
  limit_step s = set_keeppulsing true s.
Proof.
  intros Ha Hk. unfold limit_step.
  destruct (xyorz s =? 0) eqn:E0; [now apply pulse_masked_stalled|].
  destruct (xyorz s =? 1) eqn:E1; [now apply pulse_masked_stalled|].
  destruct (xyorz s =? 2) eqn:E2; [now apply pulse_masked_stalled|].
  lia.
Qed.

(** X16: the handler entered while the continuation flag is cleared (a
    second hit inside a burst it has already stopped) walks one pulse
    short.  The first pass of its walk-off loop calls [pulse], which finds
    the flag cleared, emits nothing and only re-arms the flag; so with the
    switch asserted at the re-check and for [m + 1] further samples the
    handler emits the reversed direction level and [m] pulses, where the
    handler entered with the flag set emits [m + 1]. *)
Theorem limit_reentered_walks_one_pulse_short (m : nat) (rest : list bool)
    (s : State) :
  gotcommand s = true -> keeppulsing s = false ->
  posorneg s = 0 \/ posorneg s = 1 ->
  0 <= xyorz s <= 2 ->
  limit_in s = true :: true :: repeat true m ++ false :: rest ->
  limit s =
    set_limithit true (set_keeppulsing false (set_limit_in rest
      (set_trace (trace s ++ DigitalWrite dirpluspin (posorneg s =? 0)
                    :: pulse_train m (axis_pin (xyorz s))) s))) /\
  limit (set_keeppulsing true s) =
    set_limithit true (set_keeppulsing false (set_limit_in rest
      (set_trace (trace s ++ DigitalWrite dirpluspin (posorneg s =? 0)
                    :: pulse_train (S m) (axis_pin (xyorz s))) s))).
Proof.
  intros Hg Hk Hd Ha Hl. split.
  - unfold limit, digitalRead_limit. rewrite Hl.
    cbn [gotcommand set_limit_in]. rewrite Hg.
    unfold limit_action.
    set (l := repeat true m ++ false :: rest).
    assert (E : (if posorneg (set_limit_in (true :: l) s) =? 0
                 then directionnegative (set_limit_in (true :: l) s)
                 else if posorneg (set_limit_in (true :: l) s) =? 1
                 then directionpositive (set_limit_in (true :: l) s)
                 else set_limit_in (true :: l) s)
                = set_limit_in (true :: l)
                    (set_trace (trace s ++
                       [DigitalWrite dirpluspin (posorneg s =? 0)]) s)).
    { destruct s; simpl in *. destruct Hd; subst; reflexivity. }
    rewrite E. cbn [limit_in set_limit_in limit_walk].
    rewrite limit_step_stalled by (simpl; assumption).
    unfold l. rewrite limit_walk_off by (simpl; assumption || reflexivity).
    destruct s; simpl. now rewrite <- !app_assoc.
  - rewrite (limit_reverses_and_walks (S m) rest);
      try assumption; reflexivity.
Qed.

Lemma limit_reentered_walks_one_pulse_short_witness :
  trace (limit bench_restruck) =
    DigitalWrite dirpluspin HIGH :: pulse_train 2 ypulpluspin /\
  trace (limit (set_keeppulsing true bench_restruck)) =
    DigitalWrite dirpluspin HIGH :: pulse_train 3 ypulpluspin.
Proof.
  destruct (limit_reentered_walks_one_pulse_short 2 [] bench_restruck
              eq_refl eq_refl (or_introl eq_refl))
    as (H1 & H2); [simpl; lia | reflexivity |].
  split; [rewrite H1 | rewrite H2]; reflexivity.
Defined.

(** ** Range of the direction and axis registers *)

Lemma joystick_move_registers (s : State) :
  registers_in_range s -> registers_in_range (joystick_move (Some limit) s).
Proof.
  intros [Hd Ha]. unfold registers_in_range. stick_cases;
    cbn [posorneg xyorz set_remoteinuse];
    rewrite ?(spared_burst posorneg), ?(spared_burst xyorz) by spared_tac;
    cbn [posorneg xyorz set_xyorz set_posorneg]; auto; split; auto; lia.
Qed.

Lemma joystick_registers (s : State) :
  registers_in_range s -> registers_in_range (joystick (Some limit) s).
Proof.
  intros H. unfold joystick.
  assert (K : registers_in_range
                (joystick_move (Some limit) (joystick_read s)))
    by (apply joystick_move_registers; rewrite joystick_read_state;
        exact H).
  revert K. generalize (joystick_move (Some limit) (joystick_read s)).
  intros x K. unfold joystick_done, registers_in_range in *.
  destruct (remoteinuse x); exact K.
Qed.

Lemma loop_registers (s : State) :
  registers_in_range s -> registers_in_range (loop s).
Proof.
  intros H. unfold loop, cycle.
  destruct (receive_effect s) as (bytes & g & c & E).
  destruct (receive s) as [command s1]. cbn [snd] in E. subst s1.
  set (s1 := set_checkremoteused c (set_gotcommand g (set_rx bytes s))).
  set (s2 := if checkremoteused s1 then remote_reply s1 else s1).
  assert (K2 : registers_in_range s2)
    by (subst s2 s1; destruct c; exact H).
  set (s3 := if gotcommand s2 then execute (Some limit) command s2
             else joystick (Some limit) s2).
  assert (K3 : registers_in_range s3).
  { subst s3. destruct (gotcommand s2).
    - split.
      + rewrite (execute_spares posorneg) by (spared_tac || reflexivity).
        cbn [posorneg set_xyorz set_posorneg].
        rewrite command_posorneg_bit. destruct (Z.testbit _ 5); auto.
      + rewrite (execute_spares xyorz) by (spared_tac || reflexivity).
        cbn [xyorz set_xyorz]. apply command_xyorz_range.
    - now apply joystick_registers. }
  exact K3.
Qed.

(** X17: the direction register stays 0 or 1 and the axis register stays
    between 0 and 3.  Every cycle keeps this, whatever arrives on the
    serial line, whatever the stick reads and however the limit handler
    interrupts the bursts; both registers are 0 at power-on, so on a run
    from power-on the empty last branches of the direction tests (lines
    47-48 and 203-204) are never reached. *)
Theorem registers_stay_in_range (cycles : nat) (s : State) :
  registers_in_range s -> registers_in_range (run cycles s).
Proof.
  revert s. induction cycles as [|k IH]; intros s H; [exact H|].
  cbn [run]. apply IH. now apply loop_registers.
Qed.

Lemma registers_stay_in_range_witness :
  registers_in_range (run 3 bench_queue).
Proof.
  apply (registers_stay_in_range 3 bench_queue).
  split; [left; reflexivity | simpl; lia].
Defined.

(** ** A frame cut short *)

(** X18: a frame cut short is dropped whatever it holds.  When START is
    followed by fewer than seven bytes, [Serial.readBytes] fills only the
    front of the command buffer; the cell compared with END keeps the zero
    of line 150, so the cycle decodes neither a command nor a query, sends
    no frame, and leaves nothing of the received bytes. *)
Theorem truncated_frame_dropped (body : list byte) (s : State) :
  gotcommand s = false -> checkremoteused s = false ->
  rx s = startbyte :: body -> (length body < 7)%nat ->
  gotcommand (snd (receive s)) = false /\
  checkremoteused (snd (receive s)) = false /\
  rx (loop s) = [] /\
  frames (trace (loop s)) = frames (trace s).
Proof.
  intros Hg Hc Hrx Hlen.
  assert (R : gotcommand (snd (receive s)) = false /\
              checkremoteused (snd (receive s)) = false).
  { apply receive_rejects; try assumption.
    right. exists body. split; [exact Hrx|].
    rewrite nth_overflow by lia. discriminate. }
  destruct R as [Rg Rc]. repeat split; try assumption.
  - rewrite loop_rx, Hrx by assumption. cbn [rx_after_decode].
    rewrite Z.eqb_refl. apply skipn_all2. lia.
  - now apply loop_drops.
Qed.

Lemma truncated_frame_dropped_witness :
  rx (loop bench_truncated) = [] /\
  frames (trace (loop bench_truncated)) = [].
Proof.
  destruct (truncated_frame_dropped [x40; x00; x00; x00; x00]
              bench_truncated eq_refl eq_refl eq_refl)
    as (_ & _ & H1 & H2); [simpl; lia|].
  split; [exact H1 | exact H2].
Defined.

(** * The handler served outside the bursts *)

(** X19: wherever the limit handler is served, it changes nothing of what
    the main path decides, reads or remembers.  After any number of cycles
    the direction and axis registers, the pending-command, pending-query
    and remote flags, the joystick readings, the receive stream and the
    conversion count are the same whether the handler was served between
    any two statements of the control loop or only inside the bursts; the
    handler can make a difference only to the continuation flag, the
    limit-hit flag, the limit samples it consumed and the outputs. *)
Theorem handler_never_changes_main_state (cycles : nat) (s : State) :
  main_part (run_anywhere cycles s) = main_part (run cycles s).
Proof. apply run_anywhere_main. reflexivity. Qed.

(** ** A hit during the joystick poll *)

Ltac serve :=
  match goal with
  | |- context [preempt (Some limit) ?x] =>
      first [ rewrite (preempt_skip limit x _ eq_refl)
            | rewrite (preempt_fire limit x _ eq_refl) ]
  end.

Lemma receive_anywhere_empty (isr : option (State -> State)) (s : State) :
  rx s = [] -> receive_anywhere isr s = (no_command, s).
Proof.
  intros E. unfold receive_anywhere, Serial_available. now rewrite E.
Qed.

Lemma cycle_anywhere_joystick (isr : option (State -> State))
    (s s' : State) (command : list byte) :
  receive_anywhere isr s = (command, s') ->
  checkremoteused s' = false -> gotcommand s' = false ->
  cycle_anywhere isr s =
  set_checkremoteused false (preempt isr (set_gotcommand false (preempt isr
    (set_limithit false (preempt isr (joystick_anywhere isr s')))))).
Proof. intros E Hc Hg. unfold cycle_anywhere. now rewrite E, Hc, Hg. Qed.

Lemma joystick_move_anywhere_rest (isr : option (State -> State))
    (s : State) :
  -400 <= lrvalue s - 700 <= 200 -> -300 <= udvalue s - 700 <= 200 ->
  joystick_move_anywhere isr s = s.
Proof.
  intros Hlr Hud. unfold joystick_move_anywhere.
  replace (lrvalue s - 700 >? 200) with false by (symmetry; lia).
  replace (lrvalue s - 700 <? -400) with false by (symmetry; lia).
  replace (udvalue s - 700 >? 200) with false by (symmetry; lia).
  replace (udvalue s - 700 <? -300) with false by (symmetry; lia).
  reflexivity.
Qed.

(** X20: a limit hit served during the joystick poll leaves the
    continuation flag cleared.  On a cycle with nothing received and the
    stick at rest the handler can be served at eight points; at the six of
    them that lie between line 260 ([gotcommand = true]) and line 306
    ([gotcommand = false]) its command-is-executing guard is satisfied
    although no pulse is being emitted: it reverses the direction output,
    walks [m] pulses on the axis the previous cycle had selected, and
    clears the continuation flag, which nothing sets again before the cycle
    ends.  Served at the last of the six (after line 303) it leaves the
    limit-hit flag set as well. *)
Theorem hit_in_joystick_poll_leaves_flag_cleared (s : State) (j m : nat)
    (rest_irq rest_lim : list bool) :
  cycle_start s -> rx s = [] ->
  posorneg s = 0 \/ posorneg s = 1 -> 0 <= xyorz s <= 2 ->
  -400 <= stick_lr s - 700 <= 200 -> -300 <= stick_ud s - 700 <= 200 ->
  (1 <= j <= 6)%nat ->
  irq s = repeat false j ++ true :: repeat false (7 - j) ++ rest_irq ->
  limit_in s = true :: repeat true m ++ false :: rest_lim ->
  trace (loop_anywhere s) =
    trace s ++ DigitalWrite dirpluspin (posorneg s =? 0)
    :: pulse_train m (axis_pin (xyorz s)) /\
  keeppulsing (loop_anywhere s) = false /\
  limithit (loop_anywhere s) = (j =? 6)%nat /\
  gotcommand (loop_anywhere s) = false /\
  irq (loop_anywhere s) = rest_irq /\
  limit_in (loop_anywhere s) = rest_lim.
Proof.
  intros (Hg & Hc & Hl & Hr & Hk) Hrx Hd Ha Hlr Hud Hj Hirq Hlim.
  unfold stick_lr, stick_ud in Hlr, Hud.
  assert (Hbody :
    forall x, limit_in x = limit_in s -> gotcommand x = true ->
              keeppulsing x = true -> posorneg x = posorneg s ->
              xyorz x = xyorz s ->
              limit x =
              set_limithit true (set_keeppulsing false (set_limit_in rest_lim
                (set_trace (trace x ++
                              DigitalWrite dirpluspin (posorneg s =? 0)
                              :: pulse_train m (axis_pin (xyorz s))) x)))).
  { intros x E1 E2 E3 E4 E5. rewrite <- E4, <- E5.
    apply (limit_reverses_and_walks m rest_lim); try assumption;
      rewrite ?E4, ?E5, ?E1; assumption. }
  unfold loop_anywhere.
  rewrite (cycle_anywhere_joystick _ s s no_command)
    by (try apply receive_anywhere_empty; assumption).
  destruct j as [|[|[|[|[|[|[|j]]]]]]]; try lia;
    cbn [repeat app Nat.sub] in Hirq;
    match goal with
    | |- context [set_checkremoteused false ?y] =>
        let E := fresh "E" in
        eassert (E : y = _);
        [ unfold joystick_anywhere, joystick_read_anywhere; cbv zeta;
          unfold analogRead; cbv beta iota zeta;
          rewrite (preempt_skip limit s _ Hirq);
          repeat (serve;
                  rewrite ?Hbody
                    by (state_fields; assumption || reflexivity));
          state_fields;
          (rewrite joystick_move_anywhere_rest
             by (state_fields; assumption));
          unfold joystick_done_anywhere; cbv zeta; state_fields;
          rewrite Hr;
          repeat (serve;
                  rewrite ?Hbody
                    by (state_fields; assumption || reflexivity));
          reflexivity
        | rewrite E; state_fields; repeat split ]
    end.
Qed.

Lemma hit_in_joystick_poll_leaves_flag_cleared_witness :
  trace (loop_anywhere bench_idle_hit) =
    DigitalWrite dirpluspin HIGH :: pulse_train 1 xpulpluspin /\
  keeppulsing (loop_anywhere bench_idle_hit) = false.
Proof.
  assert (Hs : cycle_start bench_idle_hit) by (repeat split).
  assert (Hx : 0 <= xyorz bench_idle_hit <= 2) by (simpl; lia).
  assert (Hlr : -400 <= stick_lr bench_idle_hit - 700 <= 200)
    by (vm_compute; split; discriminate).
  assert (Hud : -300 <= stick_ud bench_idle_hit - 700 <= 200)
    by (vm_compute; split; discriminate).
  assert (Hj : (1 <= 1 <= 6)%nat) by lia.
  destruct (hit_in_joystick_poll_leaves_flag_cleared bench_idle_hit 1 1
              [] [] Hs eq_refl (or_introl eq_refl) Hx Hlr Hud Hj
              eq_refl eq_refl) as (H1 & H2 & _).
  split; [exact H1 | exact H2].
Defined.

(** ** A command decoded while the continuation flag is cleared *)

Lemma pulse_loop_stalled_quiet (n : nat) (pin : Z) (s : State) :
  quiet s -> keeppulsing s = false ->
  exists r, forallb negb r = true /\
    pulse_loop (Some limit) n pin s = set_irq r s.
Proof.
  intros Q Hk. destruct (preempt_quiet limit s Q) as (r & Qr & E).
  exists r. split; [exact Qr|].
  destruct n; cbn [pulse_loop]; rewrite E; [reflexivity|].
  cbn [keeppulsing set_irq]. now rewrite Hk.
Qed.

(** X21: a command decoded while the continuation flag is cleared is
    answered without being executed.  [pulse] tests the flag before the
    first pulse (line 79) and only sets it again when it returns (line
    88); so when a cycle finds the flag cleared, as a limit hit served
    outside a burst leaves it, the command writes its direction level,
    emits no pulse whatever its count (go-to-limit included), and the
    response still reports success unless the limit-hit flag was left set
    too.  The flag is set again afterwards, so only this one command is
    lost. *)
Theorem cleared_flag_swallows_command (ctrl gl p3 p2 p1 p0 : byte)
    (later : list byte) (s : State) :
  gotcommand s = false -> checkremoteused s = false ->
  keeppulsing s = false ->
  rx s = command_frame ctrl gl p3 p2 p1 p0 ++ later ->
  Z.testbit (byte_val ctrl) 0 = false ->
  command_xyorz (payload ctrl gl p3 p2 p1 p0) <= 2 ->
  quiet s ->
  trace (loop s) =
    trace s ++
    [DigitalWrite dirpluspin (Z.testbit (byte_val ctrl) 5);
     SerialWrite [startbyte;
                  if limithit s && negb (Byte.eqb gl xff) then x0f else xf0;
                  x00; endbyte]] /\
  keeppulsing (loop s) = true.
Proof.
  intros Hg Hc Hk Hrx Hq Ha Q.
  set (c := payload ctrl gl p3 p2 p1 p0) in *.
  destruct (burst_entry_state c (set_gotcommand true (set_rx later s)))
    as (B1 & B2 & B3 & B4 & B5 & B6 & B7).
  destruct (pulse_loop_stalled_quiet
              (Z.to_nat (command_pulses c)) (axis_pin (command_xyorz c))
              (burst_entry c (set_gotcommand true (set_rx later s))))
    as (r & Qr & E).
  { unfold quiet. rewrite B5. exact Q. }
  { rewrite B1. exact Hk. }
  split.
  - destruct (loop_command_by_burst ctrl gl p3 p2 p1 p0 later s []
                (limithit s) r (limit_in s)) as (Ht & _); try assumption.
    intros x y -> ->. fold c. rewrite E.
    cbn [trace limithit irq limit_in set_irq].
    rewrite app_nil_r. repeat split.
  - rewrite (loop_command ctrl gl p3 p2 p1 p0 later s) by assumption.
    cbn [keeppulsing set_checkremoteused set_gotcommand set_limithit].
    unfold execute. cbv zeta.
    cbn [keeppulsing Serial_write emit set_trace xyorz set_xyorz].
    pose proof (command_xyorz_range (payload ctrl gl p3 p2 p1 p0)) as Hr.
    fold c in Hr |- *.
    destruct (command_xyorz c =? 0) eqn:E0; [reflexivity|].
    destruct (command_xyorz c =? 1) eqn:E1; [reflexivity|].
    destruct (command_xyorz c =? 2) eqn:E2; [reflexivity|]. lia.
Qed.

Lemma cleared_flag_swallows_command_witness :
  keeppulsing bench_disarmed = false /\
  command_pulses (payload x40 x00 x00 x00 x00 x03) = 3 /\
  trace (loop bench_disarmed) =
    trace bench_disarmed ++
    [DigitalWrite dirpluspin LOW;
     SerialWrite [startbyte; xf0; x00; endbyte]].
Proof.
  split; [reflexivity|]. split; [reflexivity|].
  refine (proj1 (cleared_flag_swallows_command x40 x00 x00 x00 x00 x03 []
                   bench_disarmed eq_refl eq_refl eq_refl eq_refl eq_refl
                   _ eq_refl)).
  vm_compute. discriminate.
Defined.

(** ** A hit between the decoder and the burst *)

Lemma cycle_anywhere_command (isr : option (State -> State))
    (s s' : State) (command : list byte) :
  receive_anywhere isr s = (command, s') ->
  checkremoteused s' = false -> gotcommand s' = true ->
  cycle_anywhere isr s =
  set_checkremoteused false (preempt isr (set_gotcommand false (preempt isr
    (set_limithit false (preempt isr (execute_anywhere isr command s')))))).
Proof. intros E Hc Hg. unfold cycle_anywhere. now rewrite E, Hc, Hg. Qed.

Lemma receive_anywhere_command (ctrl gl p3 p2 p1 p0 : byte)
    (later : list byte) (r : list bool) (s : State) :
  gotcommand s = false -> checkremoteused s = false ->
  rx s = command_frame ctrl gl p3 p2 p1 p0 ++ later ->
  Z.testbit (byte_val ctrl) 0 = false ->
  irq s = false :: false :: false :: r ->
  receive_anywhere (Some limit) s =
  (payload ctrl gl p3 p2 p1 p0,
   set_gotcommand true (set_irq r (set_rx later s))).
Proof.
  intros Hg Hc Hrx Hq Hirq.
  unfold receive_anywhere, Serial_available.
  rewrite Hrx, Hg, Hc.
  change ((Z.of_nat (length (command_frame ctrl gl p3 p2 p1 p0 ++ later))
           >? 0) && (negb false && negb false)) with true. cbv iota.
  rewrite (preempt_skip limit s _ Hirq).
  unfold Serial_read. state_fields. rewrite Hrx.
  cbn [command_frame app]. cbv beta iota zeta.
  rewrite Z.eqb_refl. serve.
  unfold Serial_readBytes. state_fields. cbv beta iota zeta.
  cbn [firstn skipn length app no_command repeat].
  change (cmd [ctrl; gl; p3; p2; p1; p0; endbyte] 6) with (byte_val endbyte).
  rewrite Z.eqb_refl.
  change (cmd [ctrl; gl; p3; p2; p1; p0; endbyte] 0) with (byte_val ctrl).
  rewrite (query_bit ctrl), Hq. serve.
  reflexivity.
Qed.

(** X22: a limit hit served after a command is decoded and before its
    burst starts walks the axis of the previous cycle, and the commanded
    burst is lost.  [gotcommand] is set on line 159 but the axis register
    is loaded only on line 221; a hit served before line 196, before the
    direction write, or before line 221 satisfies the handler's guard,
    walks [m] pulses on the axis [xyorz] still names, and clears the
    continuation flag, so that [pulse] emits nothing on the addressed
    axis.  The reversal follows the old direction register in the first
    case and the commanded one in the other two; in the first two cases
    the commanded direction level is written afterwards.  The response
    reports the hit unless go-to-limit was requested. *)
Theorem hit_before_burst_walks_previous_axis
    (ctrl gl p3 p2 p1 p0 : byte) (later : list byte) (s : State)
    (m : nat) (rest_irq rest_lim : list bool) :
  cycle_start s ->
  rx s = command_frame ctrl gl p3 p2 p1 p0 ++ later ->
  Z.testbit (byte_val ctrl) 0 = false ->
  command_xyorz (payload ctrl gl p3 p2 p1 p0) <= 2 ->
  posorneg s = 0 \/ posorneg s = 1 -> 0 <= xyorz s <= 2 ->
  limit_in s = true :: repeat true m ++ false :: rest_lim ->
  (irq s = repeat false 3 ++ true :: repeat false 8 ++ rest_irq ->
   trace (loop_anywhere s) =
     trace s ++
     DigitalWrite dirpluspin (posorneg s =? 0)
     :: pulse_train m (axis_pin (xyorz s))
     ++ [DigitalWrite dirpluspin (Z.testbit (byte_val ctrl) 5);
         SerialWrite [startbyte; if Byte.eqb gl xff then xf0 else x0f;
                      x00; endbyte]]) /\
  (irq s = repeat false 4 ++ true :: repeat false 7 ++ rest_irq ->
   trace (loop_anywhere s) =
     trace s ++
     DigitalWrite dirpluspin (negb (Z.testbit (byte_val ctrl) 5))
     :: pulse_train m (axis_pin (xyorz s))
     ++ [DigitalWrite dirpluspin (Z.testbit (byte_val ctrl) 5);
         SerialWrite [startbyte; if Byte.eqb gl xff then xf0 else x0f;
                      x00; endbyte]]) /\
  (irq s = repeat false 5 ++ true :: repeat false 6 ++ rest_irq ->
   trace (loop_anywhere s) =
     trace s ++
     DigitalWrite dirpluspin (Z.testbit (byte_val ctrl) 5)
     :: DigitalWrite dirpluspin (negb (Z.testbit (byte_val ctrl) 5))
     :: pulse_train m (axis_pin (xyorz s))
     ++ [SerialWrite [startbyte; if Byte.eqb gl xff then xf0 else x0f;
                      x00; endbyte]]).
Proof.
  intros (Hg & Hc & Hl & Hr & Hk) Hrx Hq Ha Hd Hx Hlim.
  pose proof (command_xyorz_range (payload ctrl gl p3 p2 p1 p0)) as Hrange.
  set (c := payload ctrl gl p3 p2 p1 p0) in *.
  assert (Hbody :
    forall x d, limit_in x = limit_in s -> gotcommand x = true ->
              keeppulsing x = true -> posorneg x = d -> d = 0 \/ d = 1 ->
              xyorz x = xyorz s ->
              limit x =
              set_limithit true (set_keeppulsing false (set_limit_in rest_lim
                (set_trace (trace x ++
                              DigitalWrite dirpluspin (d =? 0)
                              :: pulse_train m (axis_pin (xyorz s))) x)))).
  { intros x d E1 E2 E3 E4 Hd' E5. rewrite <- E4, <- E5.
    apply (limit_reverses_and_walks m rest_lim); try assumption;
      rewrite ?E4, ?E5, ?E1; assumption. }
  assert (Hp : command_posorneg c = Z.b2z (Z.testbit (byte_val ctrl) 5))
    by (rewrite command_posorneg_bit; reflexivity).
  assert (Hgl : command_gotolimit c = Byte.eqb gl xff)
    by apply gotolimit_all_ones.
  assert (Hax : command_xyorz c = 0 \/ command_xyorz c = 1 \/
                command_xyorz c = 2) by lia.
  unfold loop_anywhere.
  repeat split; intros Hirq; cbn [repeat app] in Hirq;
    match type of Hirq with
    | irq s = false :: false :: false :: ?r =>
        rewrite (cycle_anywhere_command _ s
                   (set_gotcommand true (set_irq r (set_rx later s))) c
                   (receive_anywhere_command ctrl gl p3 p2 p1 p0 later r s
                      Hg Hc Hrx Hq Hirq) Hc eq_refl)
    end;
    unfold execute_anywhere, pulse; cbv zeta; rewrite Hp, Hgl;
    destruct (Z.testbit (byte_val ctrl) 5);
    destruct Hax as [Ex|[Ex|Ex]]; rewrite Ex;
    match goal with
    | |- trace (set_checkremoteused false ?y) = _ =>
        let E := fresh "E" in
        eassert (E : y = _);
        [ repeat first
            [ progress state_fields
            | progress cbn [Z.b2z Z.eqb Pos.eqb]
            | serve
            | rewrite (fun x => Hbody x (posorneg s))
                by (state_fields; first [assumption | reflexivity])
            | rewrite (fun x => Hbody x 0)
                by (state_fields; first [assumption | reflexivity | auto])
            | rewrite (fun x => Hbody x 1)
                by (state_fields; first [assumption | reflexivity | auto])
            | match goal with
              | |- context [pulse_loop (Some limit) ?n ?pin ?x] =>
                  rewrite (pulse_loop_stopped n pin x _ eq_refl eq_refl)
              end ];
          reflexivity
        | rewrite E; clear E; state_fields;
          destruct (Byte.eqb gl xff); cbn [andb negb];
          rewrite <- ?app_assoc; cbn [app]; rewrite <- ?app_assoc;
          reflexivity ]
    end.
Qed.

Lemma hit_before_burst_walks_previous_axis_witness :
  command_xyorz (payload x40 x00 x00 x00 x00 x03) = 1 /\
  trace (loop_anywhere bench_stale_axis) =
    DigitalWrite dirpluspin LOW :: DigitalWrite dirpluspin HIGH
    :: pulse_train 1 xpulpluspin
    ++ [SerialWrite [startbyte; x0f; x00; endbyte]].
Proof.
  split; [reflexivity|].
  assert (Hs : cycle_start bench_stale_axis) by (repeat split).
  assert (Ha : command_xyorz (payload x40 x00 x00 x00 x00 x03) <= 2)
    by (vm_compute; discriminate).
  assert (Hx : 0 <= xyorz bench_stale_axis <= 2) by (simpl; lia).
  destruct (hit_before_burst_walks_previous_axis x40 x00 x00 x00 x00 x03 []
              bench_stale_axis 1 [] [] Hs eq_refl eq_refl Ha
              (or_introl eq_refl) Hx eq_refl)
    as (_ & _ & H).
  apply H. reflexivity.
Defined.

(** ** The fall-through branches of the handler *)

Lemma limit_step_no_axis (s : State) :
  ~ 0 <= xyorz s <= 2 -> limit_step s = s.
Proof.
  intros Ha. unfold limit_step.
  destruct (xyorz s =? 0) eqn:E0; [lia|].
  destruct (xyorz s =? 1) eqn:E1; [lia|].
  destruct (xyorz s =? 2) eqn:E2; [lia|]. reflexivity.
Qed.

Lemma limit_walk_no_axis (m : nat) (rest : list bool) :
  forall s, ~ 0 <= xyorz s <= 2 ->
  limit_walk (repeat true m ++ false :: rest) s = set_limit_in rest s.
Proof.
  induction m as [|m IH]; intros s Ha; cbn [repeat app limit_walk].
  - reflexivity.
  - rewrite limit_step_no_axis by (simpl; assumption).
    rewrite IH by (simpl; assumption). destruct s; reflexivity.
Qed.

(** X23: what the handler does on its fall-through branches, which it
    takes only when served outside a burst.  With no command executing
    (line 39) it takes one sample of the limit input and changes nothing
    else.  With a command executing and no axis selected ([xyorz] outside
    0..2, as a command with axis bits 11 leaves it; lines 61-62) it
    reverses the direction output and then only waits: it takes samples
    until the input reads released and emits no pulse, so the carriage is
    not walked off the switch; it still sets the limit-hit flag and clears
    the continuation flag. *)
Theorem handler_fallthroughs_outside_bursts (m : nat) (rest : list bool)
    (s : State) :
  limit_in s = true :: repeat true m ++ false :: rest ->
  (gotcommand s = false ->
   limit s = set_limit_in (repeat true m ++ false :: rest) s) /\
  (gotcommand s = true -> posorneg s = 0 \/ posorneg s = 1 ->
   ~ 0 <= xyorz s <= 2 ->
   limit s =
   set_limithit true (set_keeppulsing false (set_limit_in rest
     (set_trace (trace s ++ [DigitalWrite dirpluspin (posorneg s =? 0)])
        s)))).
Proof.
  intros Hl. split.
  - intros Hg. unfold limit, digitalRead_limit. rewrite Hl.
    cbn [gotcommand set_limit_in]. now rewrite Hg.
  - intros Hg Hd Ha. unfold limit, digitalRead_limit. rewrite Hl.
    cbn [gotcommand set_limit_in]. rewrite Hg.
    unfold limit_action, directionnegative, directionpositive.
    destruct s as [p x k lh g ri ril ru c lrv udv r li iq lr ud adc tr].
    cbn [posorneg xyorz] in Hd, Ha.
    destruct Hd; subst p; cbn -[limit_walk repeat app];
      (rewrite limit_walk_no_axis by (simpl; assumption)); reflexivity.
Qed.

Lemma handler_fallthroughs_outside_bursts_witness :
  xyorz bench_no_axis_switch = 3 /\
  limit_in (limit bench_no_axis_switch) = [true; true; false] /\
  trace (limit bench_no_axis_switch) = trace bench_no_axis_switch /\
  trace (limit (set_gotcommand true bench_no_axis_switch)) =
    trace bench_no_axis_switch ++ [DigitalWrite dirpluspin HIGH] /\
  limit_in (limit (set_gotcommand true bench_no_axis_switch)) = [] /\
  keeppulsing (limit (set_gotcommand true bench_no_axis_switch)) = false.
Proof.
  split; [reflexivity|].
  destruct (handler_fallthroughs_outside_bursts 2 [] bench_no_axis_switch
              eq_refl) as (H1 & _).
  destruct (handler_fallthroughs_outside_bursts 2 []
              (set_gotcommand true bench_no_axis_switch) eq_refl)
    as (_ & H2).
  rewrite (H1 eq_refl).
  rewrite (H2 eq_refl (or_introl eq_refl))
    by (vm_compute; intros [_ H]; apply H; reflexivity).
  repeat (split; [vm_compute; reflexivity|]). vm_compute. reflexivity.
Defined.


(** ** Outputs a cycle leaves alone, wherever the handler is served *)

Lemma trace_set_posorneg v (s : State) :
  trace (set_posorneg v s) = trace s.
Proof. reflexivity. Qed.

Lemma trace_set_xyorz v (s : State) :
  trace (set_xyorz v s) = trace s.
Proof. reflexivity. Qed.

Lemma trace_set_gotcommand v (s : State) :
  trace (set_gotcommand v s) = trace s.
Proof. reflexivity. Qed.

Lemma trace_set_remoteinuse v (s : State) :
  trace (set_remoteinuse v s) = trace s.
Proof. reflexivity. Qed.

Lemma trace_set_remoteinuselast v (s : State) :
  trace (set_remoteinuselast v s) = trace s.
Proof. reflexivity. Qed.

Lemma trace_set_remoteused v (s : State) :
  trace (set_remoteused v s) = trace s.
Proof. reflexivity. Qed.

Lemma trace_set_checkremoteused v (s : State) :
  trace (set_checkremoteused v s) = trace s.
Proof. reflexivity. Qed.

Lemma trace_set_lrvalue v (s : State) :
  trace (set_lrvalue v s) = trace s.
Proof. reflexivity. Qed.

Lemma trace_set_udvalue v (s : State) :
  trace (set_udvalue v s) = trace s.
Proof. reflexivity. Qed.

Lemma trace_set_rx v (s : State) :
  trace (set_rx v s) = trace s.
Proof. reflexivity. Qed.

Lemma trace_set_adc_reads v (s : State) :
  trace (set_adc_reads v s) = trace s.
Proof. reflexivity. Qed.

Lemma trace_set_limithit v (s : State) :
  trace (set_limithit v s) = trace s.
Proof. reflexivity. Qed.

Ltac trace_kept :=
  rewrite ?trace_set_posorneg,
    ?trace_set_xyorz,
    ?trace_set_gotcommand,
    ?trace_set_remoteinuse,
    ?trace_set_remoteinuselast,
    ?trace_set_remoteused,
    ?trace_set_checkremoteused,
    ?trace_set_lrvalue,
    ?trace_set_udvalue,
    ?trace_set_rx,
    ?trace_set_adc_reads,
    ?trace_set_limithit.

Lemma xyorz_set_posorneg v (s : State) :
  xyorz (set_posorneg v s) = xyorz s.
Proof. reflexivity. Qed.

Lemma xyorz_set_gotcommand v (s : State) :
  xyorz (set_gotcommand v s) = xyorz s.
Proof. reflexivity. Qed.

Lemma xyorz_set_remoteinuse v (s : State) :
  xyorz (set_remoteinuse v s) = xyorz s.
Proof. reflexivity. Qed.

Lemma xyorz_set_remoteinuselast v (s : State) :
  xyorz (set_remoteinuselast v s) = xyorz s.
Proof. reflexivity. Qed.

Lemma xyorz_set_remoteused v (s : State) :
  xyorz (set_remoteused v s) = xyorz s.
Proof. reflexivity. Qed.

Lemma xyorz_set_checkremoteused v (s : State) :
  xyorz (set_checkremoteused v s) = xyorz s.
Proof. reflexivity. Qed.

Lemma xyorz_set_lrvalue v (s : State) :
  xyorz (set_lrvalue v s) = xyorz s.
Proof. reflexivity. Qed.

Lemma xyorz_set_udvalue v (s : State) :
  xyorz (set_udvalue v s) = xyorz s.
Proof. reflexivity. Qed.

Lemma xyorz_set_rx v (s : State) :
  xyorz (set_rx v s) = xyorz s.
Proof. reflexivity. Qed.

Lemma xyorz_set_adc_reads v (s : State) :
  xyorz (set_adc_reads v s) = xyorz s.
Proof. reflexivity. Qed.

Lemma xyorz_set_limithit v (s : State) :
  xyorz (set_limithit v s) = xyorz s.
Proof. reflexivity. Qed.

Lemma xyorz_set_xyorz v (s : State) : xyorz (set_xyorz v s) = v.
Proof. reflexivity. Qed.

Lemma xyorz_write (pin : Z) (level : bool) (s : State) :
  xyorz (digitalWrite pin level s) = xyorz s.
Proof. reflexivity. Qed.

Lemma xyorz_frame (frame : list byte) (s : State) :
  xyorz (Serial_write frame s) = xyorz s.
Proof. reflexivity. Qed.

Ltac xyorz_kept :=
  repeat first
    [ rewrite (spared_preempt xyorz) by spared_tac
    | rewrite (spared_burst xyorz) by spared_tac
    | rewrite xyorz_set_xyorz
    | rewrite xyorz_write
    | rewrite xyorz_frame
    | rewrite xyorz_set_posorneg
    | rewrite xyorz_set_gotcommand
    | rewrite xyorz_set_remoteinuse
    | rewrite xyorz_set_remoteinuselast
    | rewrite xyorz_set_remoteused
    | rewrite xyorz_set_checkremoteused
    | rewrite xyorz_set_lrvalue
    | rewrite xyorz_set_udvalue
    | rewrite xyorz_set_rx
    | rewrite xyorz_set_adc_reads
    | rewrite xyorz_set_limithit ].

Section ElsewhereAnywhere.

Variable p : Z.
Hypothesis p_not_direction : p <> dirpluspin.

Lemma pulse_elsewhere_on (pulses pin : Z) (s : State) :
  pin = axis_pin (xyorz s) -> p <> pin ->
  writes_on p (trace (pulse (Some limit) pulses pin s)) =
  writes_on p (trace s).
Proof.
  intros -> Hne. now apply pulse_elsewhere.
Qed.

Ltac elsewhere :=
  repeat first
    [ rewrite writes_on_frame
    | rewrite (write_elsewhere p dirpluspin) by congruence
    | rewrite (preempt_elsewhere p p_not_direction)
        by (xyorz_kept; first [assumption | cbn; assumption])
    | rewrite (pulse_elsewhere_on)
        by (xyorz_kept; first [assumption | reflexivity | cbn; assumption])
    | progress trace_kept ].

Lemma execute_anywhere_elsewhere (command : list byte) (s : State) :
  p <> axis_pin (xyorz s) -> p <> axis_pin (command_xyorz command) ->
  writes_on p (trace (execute_anywhere (Some limit) command s)) =
  writes_on p (trace s).
Proof.
  intros Hold Hnew. unfold execute_anywhere. cbv zeta.
  cbn [posorneg set_posorneg xyorz set_xyorz].
  unfold directionpositive, directionnegative.
  destruct (command_posorneg command =? 0);
    [|destruct (command_posorneg command =? 1)];
    (destruct (command_xyorz command =? 0) eqn:E0;
     [|destruct (command_xyorz command =? 1) eqn:E1;
       [|destruct (command_xyorz command =? 2) eqn:E2]]);
    try (apply Z.eqb_eq in E0; rewrite E0 in *);
    try (apply Z.eqb_eq in E1; rewrite E1 in *);
    try (apply Z.eqb_eq in E2; rewrite E2 in *);
    elsewhere; reflexivity.
Qed.

Lemma remote_reply_anywhere_elsewhere (s : State) :
  p <> axis_pin (xyorz s) ->
  writes_on p (trace (remote_reply_anywhere (Some limit) s)) =
  writes_on p (trace s).
Proof.
  intros Hold. unfold remote_reply_anywhere. cbv zeta.
  elsewhere; reflexivity.
Qed.

Lemma joystick_read_anywhere_elsewhere (s : State) :
  p <> axis_pin (xyorz s) ->
  writes_on p (trace (joystick_read_anywhere (Some limit) s)) =
  writes_on p (trace s).
Proof.
  intros Hold. unfold joystick_read_anywhere, analogRead.
  cbv beta iota zeta. elsewhere; reflexivity.
Qed.

Lemma joystick_move_anywhere_elsewhere (s : State) :
  p <> axis_pin (xyorz s) -> p <> xpulpluspin -> p <> ypulpluspin ->
  writes_on p (trace (joystick_move_anywhere (Some limit) s)) =
  writes_on p (trace s).
Proof.
  intros Hold Hx Hy. unfold joystick_move_anywhere.
  unfold directionpositive, directionnegative.
  repeat match goal with
         | |- context [if ?c then _ else _] => destruct c
         end;
    cbv zeta; elsewhere; reflexivity.
Qed.

Lemma joystick_done_anywhere_elsewhere (s : State) :
  p <> axis_pin (xyorz s) ->
  writes_on p (trace (joystick_done_anywhere (Some limit) s)) =
  writes_on p (trace s).
Proof.
  intros Hold. unfold joystick_done_anywhere. cbv zeta.
  destruct (remoteinuse s); elsewhere; reflexivity.
Qed.

Lemma receive_anywhere_elsewhere (s : State) :
  p <> axis_pin (xyorz s) ->
  writes_on p (trace (snd (receive_anywhere (Some limit) s))) =
  writes_on p (trace s).
Proof.
  intros Hold.
  unfold receive_anywhere, Serial_available, Serial_read, Serial_readBytes.
  destruct ((Z.of_nat (length (rx s)) >? 0)
            && (negb (gotcommand s) && negb (checkremoteused s)));
    [|reflexivity].
  rewrite (spared_preempt rx) by spared_tac.
  destruct (rx s) as [|first later]; cbv beta iota zeta.
  - change (-1 =? byte_val startbyte) with false. cbv iota. cbn [snd].
    elsewhere; reflexivity.
  - destruct (byte_val first =? byte_val startbyte);
      [|cbn [snd]; elsewhere; reflexivity].
    repeat match goal with
           | |- context [if ?c =? ?d then _ else _] => destruct (c =? d)
           end;
      cbn [snd]; elsewhere; reflexivity.
Qed.

Lemma loop_anywhere_elsewhere (s : State) :
  p <> axis_pin (xyorz s) ->
  (gotcommand (snd (receive s)) = true ->
   p <> axis_pin (command_xyorz (fst (receive s))) ->
   writes_on p (trace (loop_anywhere s)) = writes_on p (trace s)) /\
  (gotcommand (snd (receive s)) = false ->
   p <> xpulpluspin -> p <> ypulpluspin ->
   writes_on p (trace (loop_anywhere s)) = writes_on p (trace s)).
Proof.
  intros Hold.
  destruct (receive_anywhere_main s s eq_refl) as [Ec Es].
  pose proof (receive_anywhere_elsewhere s Hold) as Ew.
  pose proof (same_main_fields _ _ Es) as (_ & Ex & Eg & _).
  assert (Ex' : xyorz (snd (receive s)) = xyorz s).
  { destruct (receive_effect s) as (bytes & g & c & E). now rewrite E. }
  rewrite Ex' in Ex. rewrite <- Ec, <- Eg. clear Ec Es Eg Ex'.
  unfold loop_anywhere, cycle_anywhere.
  destruct (receive_anywhere (Some limit) s) as [c1 a1].
  cbn [fst snd] in *. rewrite <- Ex in Hold. rewrite <- Ew. clear Ew Ex.
  revert Hold. generalize a1. clear s a1. intros s Hold.
  assert (E2 : forall y,
             y = (if checkremoteused s
                  then remote_reply_anywhere (Some limit) s else s) ->
             writes_on p (trace y) = writes_on p (trace s) /\
             xyorz y = xyorz s /\
             (gotcommand s = gotcommand y)).
  { intros y ->. destruct (checkremoteused s); [|auto].
    split; [now apply remote_reply_anywhere_elsewhere|].
    pose proof (same_main_fields _ _
                  (remote_reply_anywhere_main s s eq_refl))
      as (_ & Ex & Eg & _).
    rewrite Ex, Eg. split; reflexivity. }
  cbv zeta.
  destruct (E2 _ eq_refl) as (Ew & Ex & Eg). revert Ew Ex Eg.
  generalize (if checkremoteused s
              then remote_reply_anywhere (Some limit) s else s).
  intros s2 Ew Ex Eg. rewrite <- Ew, Eg. rewrite <- Ex in Hold.
  clear Ew Ex Eg E2 s.
  split.
  - intros Hg Hnew. rewrite Hg.
    assert (Hx : xyorz (execute_anywhere (Some limit) c1 s2) =
                 command_xyorz c1).
    { pose proof (same_main_fields _ _
                    (execute_anywhere_main c1 s2 s2 eq_refl))
        as (_ & Ex & _).
      rewrite Ex.
      now rewrite (execute_spares xyorz) by (spared_tac || reflexivity). }
    pose proof (execute_anywhere_elsewhere c1 s2 Hold Hnew) as Ew.
    rewrite <- Hx in Hnew. revert Ew Hnew.
    generalize (execute_anywhere (Some limit) c1 s2). intros y Ew Hnew.
    elsewhere. exact Ew.
  - intros Hg Hx Hy. rewrite Hg. unfold joystick_anywhere.
    assert (Hr : forall y, xyorz y = xyorz s2 ->
                 writes_on p (trace y) = writes_on p (trace s2) ->
                 exists z, z = joystick_move_anywhere (Some limit) y /\
                   writes_on p (trace z) = writes_on p (trace s2) /\
                   p <> axis_pin (xyorz z)).
    { intros y Ey Ew. eexists. split; [reflexivity|]. split.
      - rewrite joystick_move_anywhere_elsewhere; try assumption.
        now rewrite Ey.
      - unfold joystick_move_anywhere.
        repeat match goal with
               | |- context [if ?c then _ else _] => destruct c
               end;
          cbv zeta; xyorz_kept; rewrite ?Ey; try assumption;
          cbn; assumption. }
    destruct (Hr (joystick_read_anywhere (Some limit) s2))
      as (z & Ez & Ew & Hz).
    { unfold joystick_read_anywhere, analogRead. cbv beta iota zeta.
      xyorz_kept. reflexivity. }
    { now apply joystick_read_anywhere_elsewhere. }
    rewrite <- Ez. clear Ez Hr.
    assert (Hd : writes_on p (trace (joystick_done_anywhere (Some limit) z))
                 = writes_on p (trace z) /\
                 xyorz (joystick_done_anywhere (Some limit) z) = xyorz z).
    { split; [now apply joystick_done_anywhere_elsewhere|].
      unfold joystick_done_anywhere. cbv zeta.
      destruct (remoteinuse z); xyorz_kept; reflexivity. }
    destruct Hd as [Hd1 Hd2]. rewrite <- Hd2 in Hz. rewrite <- Ew, <- Hd1.
    revert Hz. generalize (joystick_done_anywhere (Some limit) z).
    intros y Hz. elsewhere. reflexivity.
Qed.
End ElsewhereAnywhere.

(** X24: wherever the limit handler is served, a cycle writes only the
    direction output, the axis output it selects, and the axis output the
    previous cycle had selected.  In a cycle that executes a command no
    output is written other than the direction output, the output of the
    addressed axis and the output [xyorz] named when the cycle began; in a
    cycle that runs the joystick branch none other than the direction
    output, the X and Y outputs and the output [xyorz] named when the
    cycle began. *)
Theorem outputs_written_wherever_served (p : Z) (s : State) :
  p <> dirpluspin -> p <> axis_pin (xyorz s) ->
  (gotcommand (snd (receive s)) = true ->
   p <> axis_pin (command_xyorz (fst (receive s))) ->
   writes_on p (trace (loop_anywhere s)) = writes_on p (trace s)) /\
  (gotcommand (snd (receive s)) = false ->
   p <> xpulpluspin -> p <> ypulpluspin ->
   writes_on p (trace (loop_anywhere s)) = writes_on p (trace s)).
Proof. intros Hd Hold. now apply loop_anywhere_elsewhere. Qed.

Lemma outputs_written_wherever_served_witness :
  writes_on zpulpluspin (trace (loop_anywhere bench_stale_axis)) = [].
Proof.
  destruct (outputs_written_wherever_served zpulpluspin bench_stale_axis)
    as (H & _).
  - discriminate.
  - discriminate.
  - apply H; [reflexivity|discriminate].
Defined.
